(** * CoderBot: the generate / test / debug loop, its executor, evaluator
      and error normalizer

    A shallow embedding of [evaluator.py], [executor.py] and of
    [normalize_error] and [solve_task] of [main.py], with the properties
    of the retry loop proved about it.

    Conventions.
    - A Python [str] is a list of Unicode code points ([N]).
    - The classification of the code points below 128 is written out; the
      classification of the others (CPython's Unicode database) is a
      parameter, the record [unicode_db].
    - A Python [float] is an IEEE-754 binary64 value, [spec_float] with
      [prec = 53] and [emax = 1024].
    - Everything outside the interpreter (the code oracles, the clock, the
      file system, child processes) is a field of the record [env]; the
      state of the outside world is threaded explicitly and every call is
      appended to a trace.  What the program prints on the console is left
      out: no value that it computes depends on it. *)

From Stdlib Require Import ZArith NArith Ascii String SpecFloat.
From stdpp Require Import gmap list.

#[local] Set Warnings "-clear-no-such-hyp".

Local Open Scope N_scope.

(** ** Strings *)

Abbreviation char := N (only parsing).
Abbreviation str := (list N) (only parsing).

(** An ASCII literal as a [str]. *)
Definition lit (s : string) : str := map N_of_ascii (list_ascii_of_string s).

Definition nl : char := 10.
Definition dquote : char := 34.
Definition squote : char := 39.

(** What CPython looks up in its Unicode database for a code point that is
    not ASCII: [str.isspace], the decimal value of a [Nd] digit, and
    [str.isalnum]. *)
Record unicode_db := {
  uni_space : char -> bool;
  uni_decimal : char -> option N;
  uni_alnum : char -> bool
}.

(** The database with no character in any class: every class reduces to its
    ASCII part. *)
Definition ascii_only : unicode_db :=
  {| uni_space := fun _ => false;
     uni_decimal := fun _ => None;
     uni_alnum := fun _ => false |}.

Definition str_eqb (a b : str) : bool := bool_decide (a = b).

Fixpoint startswith (p s : str) : bool :=
  match p, s with
  | [], _ => true
  | _ :: _, [] => false
  | a :: p', b :: s' => (a =? b) && startswith p' s'
  end.

(** [x in s] for a one-character [x]. *)
Fixpoint contains_char (x : char) (s : str) : bool :=
  match s with
  | [] => false
  | c :: s' => (c =? x) || contains_char x s'
  end.

(** [needle in s]. *)
Fixpoint contains (needle s : str) : bool :=
  startswith needle s ||
  match s with
  | [] => false
  | _ :: s' => contains needle s'
  end.

(** [s.split(sep)] for a one-character separator: never the empty list. *)
Fixpoint split (sep : char) (s : str) : list str :=
  match s with
  | [] => [[]]
  | c :: s' =>
      if c =? sep then [] :: split sep s'
      else match split sep s' with
           | [] => [[c]]
           | l :: ls => (c :: l) :: ls
           end
  end.

(** [sep.join(ls)]. *)
Fixpoint join (sep : char) (ls : list str) : str :=
  match ls with
  | [] => []
  | l :: ls' =>
      match ls' with
      | [] => l
      | _ :: _ => l ++ sep :: join sep ls'
      end
  end.

(** The length of the longest prefix of [s] made of characters in [f]. *)
Fixpoint run_length (f : char -> bool) (s : str) : nat :=
  match s with
  | [] => 0%nat
  | c :: s' => if f c then S (run_length f s') else 0%nat
  end.

(** The index of the first [x] in [s]. *)
Fixpoint find_char (x : char) (s : str) : option nat :=
  match s with
  | [] => None
  | c :: s' => if c =? x then Some 0%nat else S <$> find_char x s'
  end.

Section Classes.
Context (U : unicode_db).

(** [str.isspace] on one character: the ASCII ones are TAB..CR, FS..US
    and the space. *)
Definition isspace (c : char) : bool :=
  if c <? 128 then ((9 <=? c) && (c <=? 13)) || ((28 <=? c) && (c <=? 32))
  else uni_space U c.

(** The decimal value of a digit (category Nd). *)
Definition decimal_value (c : char) : option N :=
  if c <? 128 then (if (48 <=? c) && (c <=? 57) then Some (c - 48) else None)
  else uni_decimal U c.

(** The class [\d] of [re] on a [str] pattern. *)
Definition isdecimal (c : char) : bool :=
  match decimal_value c with Some _ => true | None => false end.

(** The class [\w] of [re] on a [str] pattern: alphanumerics and the
    underscore. *)
Definition isword (c : char) : bool :=
  if c <? 128 then
    ((48 <=? c) && (c <=? 57)) || ((65 <=? c) && (c <=? 90)) ||
    (c =? 95) || ((97 <=? c) && (c <=? 122))
  else uni_alnum U c.

Fixpoint lstrip (s : str) : str :=
  match s with
  | [] => []
  | c :: s' => if isspace c then lstrip s' else s
  end.

Fixpoint rstrip (s : str) : str :=
  match s with
  | [] => []
  | c :: s' =>
      match rstrip s' with
      | [] => if isspace c then [] else [c]
      | r => c :: r
      end
  end.

(** [s.strip()]. *)
Definition strip (s : str) : str := rstrip (lstrip s).
End Classes.

(** ** Regular expressions

    The fragment of the syntax of [re] that the patterns of the program
    use: literals, character classes, and the greedy repetitions [*] and
    [+] of a class, in sequence. *)

Inductive regex :=
| Lit (s : str)
| Class (f : char -> bool)
| Star (f : char -> bool)
| Plus (f : char -> bool)
| Seq (r1 r2 : regex).

(** The tries of a greedy repetition: the continuation [k] is tried with
    [n] repetitions, then with [n - 1], and so on down to [low]; the first
    success is the answer. *)
Fixpoint greedy {A : Type} (k : nat -> option A) (low n : nat) : option A :=
  if (n <? low)%nat then None
  else
    match k n with
    | Some a => Some a
    | None =>
        match n with
        | O => None
        | S n' => greedy k low n'
        end
    end.

(** The backtracking matcher: [r] is matched at the head of [s] and the
    continuation [k] is given what is left of [s]; when the continuation
    fails, the repetitions give characters back. *)
Fixpoint backtrack {A : Type} (r : regex) (s : str) (k : str -> option A) :
  option A :=
  match r with
  | Lit l => if startswith l s then k (drop (length l) s) else None
  | Class f =>
      match s with
      | c :: s' => if f c then k s' else None
      | [] => None
      end
  | Star f => greedy (fun i => k (drop i s)) 0 (run_length f s)
  | Plus f => greedy (fun i => k (drop i s)) 1 (run_length f s)
  | Seq r1 r2 => backtrack r1 s (fun s' => backtrack r2 s' k)
  end.

(** [re.match]: the length of the match of [r] at the head of [s]. *)
Definition regex_match (r : regex) (s : str) : option nat :=
  backtrack r s (fun rest => Some (length s - length rest)%nat).

(** The strings that an expression matches. *)
Fixpoint matches (r : regex) (w : str) : Prop :=
  match r with
  | Lit s => w = s
  | Class f => exists c, w = [c] /\ f c = true
  | Star f => Forall (fun c => f c = true) w
  | Plus f => w <> [] /\ Forall (fun c => f c = true) w
  | Seq r1 r2 => exists w1 w2, w = w1 ++ w2 /\ matches r1 w1 /\ matches r2 w2
  end.

(** The prefix of length [n] of [s] matches [r]. *)
Definition is_match (r : regex) (s : str) (n : nat) : Prop :=
  exists m rest, s = m ++ rest /\ length m = n /\ matches r m.

(** The longest prefix of [s] that matches [r] has the length [n]. *)
Definition longest_match (r : regex) (s : str) (n : nat) : Prop :=
  is_match r s n /\ forall k, is_match r s k -> (k <= n)%nat.

(** [re.sub(pattern, repl, s)] replaces the non-overlapping matches of
    [pattern], found from left to right, by [repl].  The matcher gives the
    length of the match of the pattern at the head of its argument; none of
    the patterns of [normalize_error] matches the empty string.  After a
    match of length [n] the scan resumes [n] characters further:
    [re_sub_from skip] drops [skip] characters first. *)
Section ReSub.
Context (matcher : str -> option nat) (repl : str).

Fixpoint re_sub_from (skip : nat) (s : str) : str :=
  match s with
  | [] => []
  | c :: s' =>
      match skip with
      | S k => re_sub_from k s'
      | O =>
          match matcher s with
          | Some n => repl ++ re_sub_from (Nat.pred n) s'
          | None => c :: re_sub_from 0 s'
          end
      end
  end.

Definition re_sub (s : str) : str := re_sub_from 0 s.
End ReSub.

(** ** [normalize_error] of [main.py] *)

Definition LINE_SP : str := Eval cbv in lit "line ".
Definition LINE_X : str := Eval cbv in lit "line X".
Definition FILE_Q : str := Eval cbv in lit "File " ++ [dquote].
Definition FILE_X : str := Eval cbv in lit "File " ++ [dquote] ++ lit "X" ++ [dquote].
Definition TMP : str := Eval cbv in lit "tmp".
Definition DOT_PY : str := Eval cbv in lit ".py".
Definition TMPX_PY : str := Eval cbv in lit "tmpX.py".
Definition FRAME : str := Eval cbv in lit "  File ".

Definition not_dquote (c : char) : bool := negb (c =? dquote).

Section Normalizer.
Context (U : unicode_db).

(** [line \d+]. *)
Definition LINE_NO_RE : regex := Seq (Lit LINE_SP) (Plus (isdecimal U)).

(** [File Q[^Q]*Q], where [Q] is the double quote; the class of the
    characters that are not quotes also takes newlines. *)
Definition FILE_PATH_RE : regex :=
  Seq (Lit FILE_Q) (Seq (Star not_dquote) (Lit [dquote])).

(** [tmp\w+\.py]. *)
Definition TMP_NAME_RE : regex :=
  Seq (Lit TMP) (Seq (Plus (isword U)) (Lit DOT_PY)).

(** The loop over [lines] that fills [core_error]. *)
Fixpoint core_error_of (lines : list str) : list str :=
  match lines with
  | [] => []
  | line :: rest =>
      match strip U line with
      | [] => core_error_of rest
      | _ :: _ =>
          if startswith FRAME line then core_error_of rest
          else strip U line :: core_error_of rest
      end
  end.

Definition normalize_error (error_message : str) : str :=
  match error_message with
  | [] => []
  | _ :: _ =>
      let normalized := re_sub (regex_match LINE_NO_RE) LINE_X error_message in
      let normalized := re_sub (regex_match FILE_PATH_RE) FILE_X normalized in
      let normalized := re_sub (regex_match TMP_NAME_RE) TMPX_PY normalized in
      let lines := split nl normalized in
      join nl (core_error_of lines)
  end.
End Normalizer.

(** ** The matchers in closed form

    What [regex_match] computes on each of the three patterns, without
    backtracking: in [line \d+] the greedy repetition comes last and takes
    the longest run of digits; in the two others a shorter repetition cannot
    be followed by what the pattern asks for next. *)
Section ClosedForms.
Context (U : unicode_db).

Definition match_line_no (s : str) : option nat :=
  if startswith LINE_SP s then
    match run_length (isdecimal U) (drop 5 s) with
    | O => None
    | S k => Some (5 + S k)%nat
    end
  else None.

Definition match_file_path (s : str) : option nat :=
  if startswith FILE_Q s then
    match find_char dquote (drop 6 s) with
    | Some i => Some (6 + i + 1)%nat
    | None => None
    end
  else None.

Definition match_tmp_name (s : str) : option nat :=
  if startswith TMP s then
    match run_length (isword U) (drop 3 s) with
    | O => None
    | S k =>
        if startswith DOT_PY (drop (3 + S k) s) then Some (3 + S k + 3)%nat
        else None
    end
  else None.
End ClosedForms.

(** ** Notions used in the proofs about the normalizer *)

(** A property of every suffix of a string. *)
Fixpoint everywhere (P : str -> Prop) (s : str) : Prop :=
  P s /\ match s with [] => True | _ :: s' => everywhere P s' end.

(** What follows the first line in [sep.join(ls)]. *)
Definition join_tail (sep : char) (ls : list str) : str :=
  match ls with [] => [] | _ :: _ => sep :: join sep ls end.

(** The string is empty or starts with a newline. *)
Definition nl_headed (y : str) : Prop :=
  match y with [] => True | c :: _ => c = nl end.

Section Invariants.
Context (U : unicode_db).

(** No line number is left to replace. *)
Definition clean_line : str -> Prop :=
  everywhere (fun t => match_line_no U t = None).

(** Every quoted path is already the placeholder. *)
Definition clean_file : str -> Prop :=
  everywhere (fun t => match_file_path t <> None ->
                       startswith FILE_X t = true).

(** Every temporary file name is already the placeholder. *)
Definition clean_tmp : str -> Prop :=
  everywhere (fun t => match_tmp_name U t <> None ->
                       startswith TMPX_PY t = true).

(** The string is empty or starts with a whitespace character. *)
Definition ws_headed (y : str) : Prop :=
  match y with [] => True | c :: _ => isspace U c = true end.
End Invariants.

(** ** Floats

    [float] is IEEE-754 binary64.  [float(s)] follows CPython: the
    characters that are not ASCII are first turned into a space, the ASCII
    digit of their decimal value, or a question mark; the ASCII whitespace
    at both ends is dropped; underscores are accepted between two digits;
    what is left is a decimal number, [inf], [infinity] or [nan], with an
    optional sign.  The value is the binary64 number nearest to the decimal
    one, ties to even.  [None] stands for the [ValueError]. *)

Abbreviation float := spec_float (only parsing).

Definition prec : Z := 53.
Definition emax : Z := 1024.

Definition float_sub (x y : float) : float := SFsub prec emax x y.
Definition float_abs (x : float) : float := SFabs x.
Definition float_lt (x y : float) : bool := SFltb x y.

Definition float_is_finite (x : float) : bool :=
  match x with
  | S754_zero _ | S754_finite _ _ _ => true
  | S754_infinity _ | S754_nan => false
  end.

(** The float nearest to [m * 10 ^ e], for [m >= 0], with the sign [neg]. *)
Definition float_of_decimal (neg : bool) (m e : Z) : float :=
  if (m <=? 0)%Z then S754_zero neg
  else if (0 <=? e)%Z then
    binary_round prec emax neg (Z.to_pos (m * 10 ^ e)) 0
  else
    let d := (10 ^ (- e))%Z in
    let k := Z.max 0 (Zdigits2 d - Zdigits2 m + 64) in
    let n := (m * 2 ^ k)%Z in
    let q := (n / d)%Z in
    let r := (n mod d)%Z in
    let l := if (r =? 0)%Z then loc_Exact else loc_Inexact (2 * r ?= d)%Z in
    binary_round_aux prec emax neg q (- k) l.

(** [float(n)] for a small non-negative [int]. *)
Definition float_of_int (n : Z) : float := float_of_decimal false n 0.

(** [Py_ISSPACE] and [Py_TOLOWER]. *)
Definition is_c_space (c : char) : bool :=
  ((9 <=? c) && (c <=? 13)) || (c =? 32).

Definition is_ascii_digit (c : char) : bool := (48 <=? c) && (c <=? 57).

Definition to_lower (c : char) : char :=
  if (65 <=? c) && (c <=? 90) then c + 32 else c.

Fixpoint c_lstrip (s : str) : str :=
  match s with
  | [] => []
  | c :: s' => if is_c_space c then c_lstrip s' else s
  end.

Fixpoint c_rstrip (s : str) : str :=
  match s with
  | [] => []
  | c :: s' =>
      match c_rstrip s' with
      | [] => if is_c_space c then [] else [c]
      | r => c :: r
      end
  end.

(** The check and removal of underscores; [prev] is the previous
    character, NUL at the start.  An embedded NUL is an error. *)
Fixpoint strip_underscores (prev : char) (s : str) : option str :=
  match s with
  | [] => if prev =? 95 then None else Some []
  | c :: s' =>
      if c =? 0 then None
      else if c =? 95 then
        if is_ascii_digit prev then strip_underscores c s' else None
      else if (prev =? 95) && negb (is_ascii_digit c) then None
      else cons c <$> strip_underscores c s'
  end.

Definition parse_sign (s : str) : bool * str :=
  match s with
  | 45 :: r => (true, r)
  | 43 :: r => (false, r)
  | _ => (false, s)
  end.

Fixpoint digits_value (acc : Z) (ds : str) : Z :=
  match ds with
  | [] => acc
  | c :: ds' => digits_value (10 * acc + Z.of_N (c - 48)) ds'
  end.

(** The optional exponent: when [e] or [E] is not followed by digits,
    nothing is consumed. *)
Definition parse_exponent (s : str) : Z * str :=
  match s with
  | c :: r =>
      if (c =? 101) || (c =? 69) then
        let '(neg, r1) := parse_sign r in
        match run_length is_ascii_digit r1 with
        | O => (0%Z, s)
        | S k =>
            let v := digits_value 0 (take (S k) r1) in
            ((if neg then - v else v)%Z, drop (S k) r1)
        end
      else (0%Z, s)
  | [] => (0%Z, s)
  end.

(** [p] is a prefix of [s], letter case apart. *)
Definition startswith_nocase (p s : str) : bool :=
  startswith p (map to_lower s).

Definition parse_inf_or_nan (s : str) : option float :=
  let '(neg, r) := parse_sign s in
  if startswith_nocase (lit "inf") r then
    let r1 := drop 3 r in
    let r2 := if startswith_nocase (lit "inity") r1 then drop 5 r1 else r1 in
    match r2 with [] => Some (S754_infinity neg) | _ :: _ => None end
  else if startswith_nocase (lit "nan") r then
    match drop 3 r with [] => Some S754_nan | _ :: _ => None end
  else None.

Definition parse_float (s : str) : option float :=
  let '(neg, r) := parse_sign s in
  let n1 := run_length is_ascii_digit r in
  let int_part := take n1 r in
  let r1 := drop n1 r in
  let '(frac_part, r2) :=
    match r1 with
    | 46 :: r' =>
        let n2 := run_length is_ascii_digit r' in (take n2 r', drop n2 r')
    | _ => ([], r1)
    end in
  match int_part ++ frac_part with
  | [] => parse_inf_or_nan s
  | ds =>
      let '(e, r3) := parse_exponent r2 in
      match r3 with
      | [] => Some (float_of_decimal neg (digits_value 0 ds)
                      (e - Z.of_nat (length frac_part)))
      | _ :: _ => None
      end
  end.

Section Float.
Context (U : unicode_db).

Definition to_ascii_decimal_space (c : char) : char :=
  if c <? 127 then c
  else if isspace U c then 32
  else match decimal_value U c with
       | Some d => 48 + d
       | None => 63
       end.

(** [float(s)]. *)
Definition float_of_str (s : str) : option float :=
  let a := c_rstrip (c_lstrip (map to_ascii_decimal_space s)) in
  if contains_char 95 a then
    match strip_underscores 0 a with
    | Some a' => parse_float a'
    | None => None
    end
  else parse_float a.
End Float.

(** ** [evaluator.py] *)

(** The literal [1e-6]. *)
Definition TOLERANCE : float := Eval vm_compute in float_of_decimal false 1 (-6).

Section Evaluator.
Context (U : unicode_db).

(** [evaluate_output]: the [ValueError] of either call of [float] leads to
    the comparison of the stripped strings. *)
Definition evaluate_output (actual_output expected_output : str) : bool :=
  match float_of_str U (strip U actual_output) with
  | Some actual =>
      match float_of_str U (strip U expected_output) with
      | Some expected => float_lt (float_abs (float_sub actual expected)) TOLERANCE
      | None => str_eqb (strip U actual_output) (strip U expected_output)
      end
  | None => str_eqb (strip U actual_output) (strip U expected_output)
  end.
End Evaluator.

(** ** The outside world

    What the program calls and does not define: the two code oracles of
    [generator.py] and [debugger.py], the clock, temporary files, child
    processes.  [W] is the state of the outside world; an [env] says, for
    each call, what it returns (or raises) and how the world changes.
    Console output and the log file are not modelled: they decide neither
    the control flow nor a return value. *)

(** The exceptions ([Exception] and its subclasses) that a call may raise,
    with their [str()].  The program distinguishes two classes from the
    rest. *)
Inductive exn :=
| TimeoutExpired (msg : str)
| FileNotFoundError (msg : str)
| OtherException (msg : str).

(** [subprocess.CompletedProcess], with [capture_output] and [text] set. *)
Record CompletedProcess := {
  returncode : Z;
  stdout : str;
  stderr : str
}.

Inductive event :=
| GenerateCode (task language : str)
| DebugCode (task feedback language : str)
| Time
| NamedTemporaryFile
| FileWrite (path content : str)
| FileClose (path : str)
| SubprocessRun (args : list str) (input : option str) (timeout : Z)
| PathExists (path : str)
| OsRemove (path : str).

Record env (W : Type) := {
  generate_code : str -> str -> W -> str * W;
  debug_code : str -> str -> str -> W -> str * W;
  time_time : W -> float * W;
  named_temporary_file : W -> (exn + str) * W;
  file_write : str -> str -> W -> (exn + unit) * W;
  file_close : str -> W -> (exn + unit) * W;
  subprocess_run : list str -> option str -> Z -> W -> (exn + CompletedProcess) * W;
  path_exists : str -> W -> bool * W;
  os_remove : str -> W -> (exn + unit) * W
}.

Arguments generate_code {W}.
Arguments debug_code {W}.
Arguments time_time {W}.
Arguments named_temporary_file {W}.
Arguments file_write {W}.
Arguments file_close {W}.
Arguments subprocess_run {W}.
Arguments path_exists {W}.
Arguments os_remove {W}.

(** The state threaded through the program: the outside world and the trace
    of the calls made so far, oldest first. *)
Record world (W : Type) := {
  outside : W;
  trace : list event
}.

Arguments outside {W}.
Arguments trace {W}.

Definition M (W A : Type) : Type := world W -> A * world W.

Definition ret {W A : Type} (a : A) : M W A := fun w => (a, w).

Definition bind {W A B : Type} (m : M W A) (k : A -> M W B) : M W B :=
  fun w => let '(a, w') := m w in k a w'.

Notation "'let*' x ':=' m 'in' k" := (bind m (fun x => k))
  (at level 10, x pattern, m at level 100, k at level 200).

(** A call to the outside: the answer of the environment, and the event
    added to the trace. *)
Definition call {W A : Type} (ev : event) (f : W -> A * W) : M W A :=
  fun w =>
    let '(a, o) := f (outside w) in
    (a, {| outside := o; trace := trace w ++ [ev] |}).

(** ** [executor.py] *)

Definition INSTALL_TIMEOUT : Z := 30.
Definition EXECUTION_TIMEOUT : Z := 10.

Definition MODULE_NOT_FOUND : str := Eval cbv in lit "ModuleNotFoundError".
Definition NO_MODULE_NAMED : str := Eval cbv in lit "No module named ".

Definition TIMEOUT_MESSAGE : str :=
  Eval cbv in 9200 :: lit " Code execution timed out (10 seconds limit)".

Definition NO_INTERPRETER_MESSAGE : str :=
  Eval cbv in
    10060 :: lit " Python interpreter not found. Please ensure Python is installed and in PATH.".

Definition EXECUTION_FAILED : str :=
  Eval cbv in 10060 :: lit " Execution failed: ".

Definition FAILED_TO_INSTALL : str :=
  Eval cbv in lit "Failed to install required package '".

Definition is_quote (c : char) : bool := (c =? squote) || (c =? dquote).

(** The pattern [No module named Q([^Q]+)Q], where [Q] is a single or a
    double quote. *)
Definition MISSING_MODULE_RE : regex :=
  Seq (Lit NO_MODULE_NAMED)
    (Seq (Class is_quote)
       (Seq (Plus (fun c => negb (is_quote c))) (Class is_quote))).

(** The group of the match at the head of [s]: it starts after the literal
    and the quote, 17 characters, and ends before the last quote. *)
Definition match_missing_module (s : str) : option str :=
  match regex_match MISSING_MODULE_RE s with
  | Some n => Some (take (n - 18) (drop 17 s))
  | None => None
  end.

(** [re.search]: the group of the leftmost match. *)
Fixpoint search_missing_module (s : str) : option str :=
  match match_missing_module s with
  | Some m => Some m
  | None =>
      match s with
      | [] => None
      | _ :: s' => search_missing_module s'
      end
  end.

(** [match_missing_module] without backtracking: the run of characters that
    are not quotes is the longest one, which has to be followed by a
    quote. *)
Definition match_missing_module_scan (s : str) : option str :=
  if startswith NO_MODULE_NAMED s then
    match drop 16 s with
    | q :: r =>
        if is_quote q then
          match run_length (fun c => negb (is_quote c)) r with
          | O => None
          | S k =>
              match drop (S k) r with
              | [] => None
              | _ :: _ => Some (take (S k) r)
              end
          end
        else None
    | [] => None
    end
  else None.

Definition nonempty (s : str) : bool :=
  match s with [] => false | _ :: _ => true end.

Section Executor.
Context {W : Type} (E : env W) (U : unicode_db).

Definition run (args : list str) (input : option str) (timeout : Z) :
  M W (exn + CompletedProcess) :=
  call (SubprocessRun args input timeout) (subprocess_run E args input timeout).

(** [install_package]: true when [pip install] ends with the return code
    0; a timeout or any other exception gives false. *)
Definition install_package (package_name : str) : M W bool :=
  let* r := run [lit "pip"; lit "install"; package_name] None INSTALL_TIMEOUT in
  match r with
  | inr result => ret (returncode result =? 0)%Z
  | inl (TimeoutExpired _) => ret false
  | inl _ => ret false
  end.

Definition run_python (temp_file input_data : str) :
  M W (exn + CompletedProcess) :=
  run [lit "python"; temp_file] (Some input_data) EXECUTION_TIMEOUT.

(** What follows the first [subprocess.run] in the [try] block. *)
Definition after_first_run (temp_file input_data : str)
  (result : CompletedProcess) : M W (exn + str * str) :=
  let out := strip U (stdout result) in
  let err := strip U (stderr result) in
  if nonempty err && contains MODULE_NOT_FOUND err then
    match search_missing_module err with
    | Some missing_module =>
        let* installed := install_package missing_module in
        if installed then
          let* r := run_python temp_file input_data in
          match r with
          | inl e => ret (inl e)
          | inr retry_result =>
              ret (inr (strip U (stdout retry_result),
                        strip U (stderr retry_result)))
          end
        else
          ret (inr ([], FAILED_TO_INSTALL ++ missing_module ++ [squote]))
    | None => ret (inr (out, err))
    end
  else ret (inr (out, err)).

(** The [try] block.  The first component is the local [temp_file] when
    the block is left: it is assigned after [f.write], inside [with]. *)
Definition run_code_try (code input_data : str) :
  M W (option str * (exn + str * str)) :=
  let* f := call NamedTemporaryFile (named_temporary_file E) in
  match f with
  | inl e => ret (None, inl e)
  | inr name =>
      let* written := call (FileWrite name code) (file_write E name code) in
      match written with
      | inl e =>
          let* closed := call (FileClose name) (file_close E name) in
          match closed with
          | inl e' => ret (None, inl e')
          | inr _ => ret (None, inl e)
          end
      | inr _ =>
          let* closed := call (FileClose name) (file_close E name) in
          match closed with
          | inl e => ret (Some name, inl e)
          | inr _ =>
              let* r := run_python name input_data in
              match r with
              | inl e => ret (Some name, inl e)
              | inr result =>
                  let* v := after_first_run name input_data result in
                  ret (Some name, v)
              end
          end
      end
  end.

(** The [except] clauses, in order; the last one takes every exception. *)
Definition run_code_except (e : exn) : exn + str * str :=
  match e with
  | TimeoutExpired _ => inr ([], TIMEOUT_MESSAGE)
  | FileNotFoundError _ => inr ([], NO_INTERPRETER_MESSAGE)
  | OtherException msg => inr ([], EXECUTION_FAILED ++ msg)
  end.

(** The [finally] clause: the exception of [os.remove] is dropped. *)
Definition run_code_finally (temp_file : option str) : M W unit :=
  match temp_file with
  | Some path =>
      if nonempty path then
        let* present := call (PathExists path) (path_exists E path) in
        if present then
          let* _ := call (OsRemove path) (os_remove E path) in ret tt
        else ret tt
      else ret tt
  | None => ret tt
  end.

(** [run_code]: [inl] would be an exception that reaches the caller. *)
Definition run_code (code input_data : str) : M W (exn + str * str) :=
  let* (temp_file, r) := run_code_try code input_data in
  let result := match r with inr v => inr v | inl e => run_code_except e end in
  let* _ := run_code_finally temp_file in
  ret result.
End Executor.

(** ** [solve_task] of [main.py] *)

Definition MAX_ATTEMPTS : nat := 50.
Definition MAX_EXECUTION_TIME : Z := 300.
Definition MAX_DUPLICATE_ERRORS : nat := 2.

Definition PYTHON : str := Eval cbv in lit "python".

Fixpoint str_of_uint (d : Decimal.uint) : str :=
  match d with
  | Decimal.Nil => []
  | Decimal.D0 d => 48 :: str_of_uint d
  | Decimal.D1 d => 49 :: str_of_uint d
  | Decimal.D2 d => 50 :: str_of_uint d
  | Decimal.D3 d => 51 :: str_of_uint d
  | Decimal.D4 d => 52 :: str_of_uint d
  | Decimal.D5 d => 53 :: str_of_uint d
  | Decimal.D6 d => 54 :: str_of_uint d
  | Decimal.D7 d => 55 :: str_of_uint d
  | Decimal.D8 d => 56 :: str_of_uint d
  | Decimal.D9 d => 57 :: str_of_uint d
  end.

(** [str(n)]. *)
Definition str_of_nat (n : nat) : str := str_of_uint (Nat.to_uint n).

(** [enumerate(l, start)]. *)
Fixpoint enumerate {A : Type} (start : nat) (l : list A) : list (nat * A) :=
  match l with
  | [] => []
  | x :: l' => (start, x) :: enumerate (S start) l'
  end.

(** The variables of [solve_task] that the loop reads and assigns. *)
Record loop_state := {
  final_code : option str;
  feedback_summary : str;
  error_history : gmap (list N) nat;
  all_passed : bool;
  current_attempt_errors : list str
}.

(** [error_history.get(err, 0)]. *)
Definition occurrences (ls : loop_state) (err : str) : nat :=
  default 0%nat (error_history ls !! err).

(** The way the loop over the attempts is left. *)
Inductive termination :=
| Success (code : str)
| Exhausted
| TimedOut
| Stuck (repeated_error : str).

Inductive step :=
| Break (t : termination)
| Continue.

Definition initial_state : loop_state :=
  {| final_code := None;
     feedback_summary := [];
     error_history := ∅;
     all_passed := true;
     current_attempt_errors := [] |}.

(** The assignments that open an attempt, after the code was obtained. *)
Definition begin_attempt (ls : loop_state) : loop_state :=
  {| final_code := final_code ls;
     feedback_summary := [];
     error_history := error_history ls;
     all_passed := true;
     current_attempt_errors := [] |}.

Section Orchestrator.
Context {W : Type} (E : env W) (U : unicode_db).
Context (task_description : str) (test_cases : list (str * str)).

(** The branch [if error:] of the loop over the test cases. *)
Definition record_error (idx : nat) (error : str) (ls : loop_state) :
  loop_state :=
  let normalized_error := normalize_error U error in
  {| final_code := final_code ls;
     feedback_summary :=
       feedback_summary ls ++ lit "Test Case " ++ str_of_nat idx ++
       lit ": Execution Error:" ++ [nl] ++ error ++ [nl];
     error_history :=
       match error_history ls !! normalized_error with
       | Some n => <[normalized_error := (n + 1)%nat]> (error_history ls)
       | None => <[normalized_error := 1%nat]> (error_history ls)
       end;
     all_passed := false;
     current_attempt_errors := current_attempt_errors ls ++ [normalized_error] |}.

(** The branch [if not passed:]. *)
Definition record_mismatch (idx : nat) (expected_output output : str)
  (ls : loop_state) : loop_state :=
  {| final_code := final_code ls;
     feedback_summary :=
       feedback_summary ls ++ lit "Test Case " ++ str_of_nat idx ++
       lit ": Expected '" ++ expected_output ++ lit "' but got '" ++
       output ++ [squote; nl];
     error_history := error_history ls;
     all_passed := false;
     current_attempt_errors := current_attempt_errors ls |}.

(** The loop over the test cases; an exception of [run_code] would leave
    [solve_task]. *)
Fixpoint for_tests (code : str) (cases : list (nat * (str * str)))
  (ls : loop_state) : M W (exn + loop_state) :=
  match cases with
  | [] => ret (inr ls)
  | (idx, (input_data, expected_output)) :: rest =>
      let* r := run_code E U code input_data in
      match r with
      | inl e => ret (inl e)
      | inr (output, error) =>
          if nonempty error then ret (inr (record_error idx error ls))
          else if evaluate_output U output expected_output then
            for_tests code rest ls
          else ret (inr (record_mismatch idx expected_output output ls))
      end
  end.

(** The code of an attempt: from the generator at the first one, from the
    debugger, with the feedback of the state, at the others. *)
Definition obtain_code (attempt : nat) (ls : loop_state) : M W str :=
  if (attempt =? 1)%nat then
    call (GenerateCode task_description PYTHON)
      (generate_code E task_description PYTHON)
  else
    call (DebugCode task_description (feedback_summary ls) PYTHON)
      (debug_code E task_description (feedback_summary ls) PYTHON).

Definition repeated_errors (ls : loop_state) : list str :=
  filter (fun err => (MAX_DUPLICATE_ERRORS <= occurrences ls err)%nat)
    (current_attempt_errors ls).

(** What follows the loop over the test cases in an attempt. *)
Definition after_tests (code : str) (ls : loop_state) : step * loop_state :=
  match current_attempt_errors ls, repeated_errors ls with
  | _ :: _, repeated :: _ => (Break (Stuck repeated), ls)
  | _, _ =>
      if all_passed ls then
        (Break (Success code),
         {| final_code := Some code;
            feedback_summary := feedback_summary ls;
            error_history := error_history ls;
            all_passed := all_passed ls;
            current_attempt_errors := current_attempt_errors ls |})
      else (Continue, ls)
  end.

(** The body of the loop over the attempts; on success the clock is read
    once more, for the report. *)
Definition attempt_body (start_time : float) (attempt : nat)
  (ls : loop_state) : M W (exn + step * loop_state) :=
  let* now := call Time (time_time E) in
  let elapsed_time := float_sub now start_time in
  if float_lt (float_of_int MAX_EXECUTION_TIME) elapsed_time then
    ret (inr (Break TimedOut, ls))
  else
    let* code := obtain_code attempt ls in
    let* r := for_tests code (enumerate 1 test_cases) (begin_attempt ls) in
    match r with
    | inl e => ret (inl e)
    | inr ls' =>
        match after_tests code ls' with
        | (Break (Success final), ls'') =>
            let* _ := call Time (time_time E) in
            ret (inr (Break (Success final), ls''))
        | other => ret (inr other)
        end
    end.

(** [for attempt in range(1, MAX_ATTEMPTS + 1)]. *)
Fixpoint for_attempts (start_time : float) (attempts : list nat)
  (ls : loop_state) : M W (exn + termination * loop_state) :=
  match attempts with
  | [] => ret (inr (Exhausted, ls))
  | attempt :: rest =>
      let* r := attempt_body start_time attempt ls in
      match r with
      | inl e => ret (inl e)
      | inr (Break t, ls') => ret (inr (t, ls'))
      | inr (Continue, ls') => for_attempts start_time rest ls'
      end
  end.

(** [solve_task]: the way the loop was left and the value of [final_code],
    which is what the function returns.  After the loop the clock is read
    for the report; the files that the function then writes (the final code
    and the log) are not modelled. *)
Definition solve_task : M W (exn + termination * option str) :=
  let* start_time := call Time (time_time E) in
  let* r := for_attempts start_time (seq 1 MAX_ATTEMPTS) initial_state in
  match r with
  | inl e => ret (inl e)
  | inr (t, ls) =>
      let* _ := call Time (time_time E) in
      ret (inr (t, final_code ls))
  end.
End Orchestrator.

(** ** A scripted environment

    The state of the world is the list of the answers that the successive
    child processes will give; when it is exhausted a child process ends at
    once with nothing written.  The clock does not advance, files can always
    be written and removed, and both oracles return the same program. *)

Definition quiet_process : CompletedProcess :=
  {| returncode := 0; stdout := []; stderr := [] |}.

Definition scripted_env : env (list (exn + CompletedProcess)) :=
  {| generate_code := fun _ _ w => (lit "print(1/0)", w);
     debug_code := fun _ _ _ w => (lit "print(1/0)", w);
     time_time := fun w => (S754_zero false, w);
     named_temporary_file := fun w => (inr (lit "/tmp/tmpk3v9.py"), w);
     file_write := fun _ _ w => (inr tt, w);
     file_close := fun _ w => (inr tt, w);
     subprocess_run := fun _ _ _ w =>
       match w with
       | r :: w' => (r, w')
       | [] => (inr quiet_process, [])
       end;
     path_exists := fun _ w => (true, w);
     os_remove := fun _ w => (inr tt, w) |}.

Definition scripted (answers : list (exn + CompletedProcess)) :
  world (list (exn + CompletedProcess)) :=
  {| outside := answers; trace := [] |}.

(** A child process that ends with a traceback on its standard error. *)
Definition failing_process (line : string) : CompletedProcess :=
  {| returncode := 1;
     stdout := [];
     stderr :=
       lit "Traceback (most recent call last):" ++ [nl] ++
       lit "  File " ++ [dquote] ++ lit "/tmp/tmpk3v9.py" ++ [dquote] ++
       lit ", line " ++ lit line ++ lit ", in <module>" ++ [nl] ++
       lit "ZeroDivisionError: division by zero" ++ [nl] |}.

(** A child process that cannot import the module [foo]. *)
Definition missing_module_process : CompletedProcess :=
  {| returncode := 1;
     stdout := [];
     stderr :=
       lit "ModuleNotFoundError: No module named 'foo'" ++ [nl] |}.

(** A child process that prints 42, with whitespace around it, and writes
    whitespace only on its standard error. *)
Definition padded_process : CompletedProcess :=
  {| returncode := 0;
     stdout := lit " 42" ++ [nl];
     stderr := [32; nl] |}.

(** The name that the scripted environment gives to temporary files. *)
Definition TEMP_NAME : str := Eval cbv in lit "/tmp/tmpk3v9.py".

(** The module [foo] is missing, its installation succeeds, and it is
    missing again at the second run. *)
Definition missing_module_world : world (list (exn + CompletedProcess)) :=
  scripted [inr missing_module_process; inr quiet_process;
            inr missing_module_process].

(** The first child process does not end in time. *)
Definition timeout_world : world (list (exn + CompletedProcess)) :=
  scripted [inl (TimeoutExpired (lit "timed out after 10 seconds"))].

Definition padded_world : world (list (exn + CompletedProcess)) :=
  scripted [inr padded_process].

(** The programs of the first two attempts fail with the same error, at
    two different lines. *)
Definition stuck_world : world (list (exn + CompletedProcess)) :=
  scripted [inr (failing_process "3"); inr (failing_process "14")].

Definition DIVIDE : str := Eval cbv in lit "divide".

Definition one_test : list (str * str) := [(lit "1", lit "1")].

(** The signature of the error of [failing_process]. *)
Definition ZERO_DIVISION : str :=
  Eval cbv in
    lit "Traceback (most recent call last):" ++ [nl] ++
    lit "ZeroDivisionError: division by zero".

(** ** Notions used in the statements *)

(** The calls of [pip install] and the runs of the interpreter in a trace. *)
Definition is_install (ev : event) : bool :=
  match ev with
  | SubprocessRun (program :: command :: _) _ _ =>
      str_eqb program (lit "pip") && str_eqb command (lit "install")
  | _ => false
  end.

Definition is_python_run (ev : event) : bool :=
  match ev with
  | SubprocessRun (program :: _) _ _ => str_eqb program (lit "python")
  | _ => false
  end.

(** The calls of the generator and of the debugger. *)
Definition is_oracle_call (ev : event) : bool :=
  match ev with
  | GenerateCode _ _ | DebugCode _ _ _ => true
  | _ => false
  end.

Definition is_temporary_file (ev : event) : bool :=
  match ev with
  | NamedTemporaryFile => true
  | _ => false
  end.

(** The calls of the [finally] clause of [run_code]. *)
Definition is_cleanup (ev : event) : bool :=
  match ev with
  | PathExists _ | OsRemove _ => true
  | _ => false
  end.

(** Whether a call of [subprocess.run] ended with the return code 0. *)
Definition succeeded (answer : exn + CompletedProcess) : bool :=
  match answer with
  | inr result => (returncode result =? 0)%Z
  | inl _ => false
  end.

(** Every error signature keeps its entry, and its count does not
    decrease. *)
Definition history_grows (h h' : gmap (list N) nat) : Prop :=
  forall sig : str,
    (is_Some (h !! sig) -> is_Some (h' !! sig)) /\
    (default 0%nat (h !! sig) <= default 0%nat (h' !! sig))%nat.

(** The state in which an attempt ended. *)
Definition state_of {W : Type}
  (r : (exn + step * loop_state) * world W) : loop_state :=
  match fst r with
  | inr (_, ls) => ls
  | inl _ => initial_state
  end.

Section Statements.
Context {W : Type} (E : env W) (U : unicode_db).

(** The world after the clock was read. *)
Definition after_clock (w : world W) : world W :=
  {| outside := snd (time_time E (outside w)); trace := trace w ++ [Time] |}.

(** What [solve_task] makes of the result of its loop. *)
Definition finish (r : (exn + termination * loop_state) * world W) :
  (exn + termination * option str) * world W :=
  match fst r with
  | inl e => (inl e, snd r)
  | inr (t, ls) => (inr (t, final_code ls), after_clock (snd r))
  end.

(** From the world [w], [run_code code input_data] gets the temporary file
    [name], writes and closes it, and the first child process ends with
    [result], which leaves the outside world in [o]. *)
Definition first_run (code input_data : str) (w : world W) (name : str)
  (result : CompletedProcess) (o : W) : Prop :=
  exists o1 o2 o3,
    named_temporary_file E (outside w) = (inr name, o1) /\
    file_write E name code o1 = (inr tt, o2) /\
    file_close E name o2 = (inr tt, o3) /\
    subprocess_run E [lit "python"; name] (Some input_data)
      EXECUTION_TIMEOUT o3 = (inr result, o).

(** From the world [w], [run_code code input_data] gets the temporary file
    [name], writes and closes it, and the spawn or the run of the first
    child process raises [e]. *)
Definition first_run_raises (code input_data : str) (w : world W)
  (name : str) (e : exn) : Prop :=
  exists o1 o2 o3 o,
    named_temporary_file E (outside w) = (inr name, o1) /\
    file_write E name code o1 = (inr tt, o2) /\
    file_close E name o2 = (inr tt, o3) /\
    subprocess_run E [lit "python"; name] (Some input_data)
      EXECUTION_TIMEOUT o3 = (inl e, o).

(** The run of the interpreter on the temporary file, and the
    installation of a package, as events. *)
Definition python_event (name input_data : str) : event :=
  SubprocessRun [lit "python"; name] (Some input_data) EXECUTION_TIMEOUT.

Definition install_event (package_name : str) : event :=
  SubprocessRun [lit "pip"; lit "install"; package_name] None INSTALL_TIMEOUT.

(** The events of [run_code] up to the end of the first child process. *)
Definition first_run_events (code input_data name : str) : list event :=
  [NamedTemporaryFile; FileWrite name code; FileClose name;
   python_event name input_data].

(** The answer of the world [o] to the installation of [package_name], and
    its answer to the second run of the interpreter, which comes after. *)
Definition pip_answer (o : W) (package_name : str) :
  (exn + CompletedProcess) * W :=
  subprocess_run E [lit "pip"; lit "install"; package_name] None
    INSTALL_TIMEOUT o.

Definition retry_answer (o : W) (package_name name input_data : str) :
  (exn + CompletedProcess) * W :=
  subprocess_run E [lit "python"; name] (Some input_data) EXECUTION_TIMEOUT
    (snd (pip_answer o package_name)).

(** The standard error of [result], stripped, names a missing module
    [missing_module]: the condition of the recovery path of [run_code]. *)
Definition reports_missing_module (result : CompletedProcess)
  (missing_module : str) : Prop :=
  strip U (stderr result) <> [] /\
  contains MODULE_NOT_FOUND (strip U (stderr result)) = true /\
  search_missing_module (strip U (stderr result)) = Some missing_module.

(** What the specification asks of the events of one call of
    [run_code]: one installation of [package_name], with a timeout below
    the one of the child process. *)
Definition installs_once_with_shorter_timeout (events : list event)
  (package_name : str) : Prop :=
  exists timeout,
    List.filter is_install events =
      [SubprocessRun [lit "pip"; lit "install"; package_name] None timeout] /\
    (timeout < EXECUTION_TIMEOUT)%Z.

Context (task_description : str) (test_cases : list (str * str)).

(** The session started in the world [w0] comes to the start of its attempt
    number [attempt] with the state [ls], in the world [w]; [start_time] is
    the time read at the start of the session. *)
Inductive reaches (w0 : world W) :
  nat -> float -> loop_state -> world W -> Prop :=
| reaches_first (start_time : float) (w1 : world W) :
    call Time (time_time E) w0 = (start_time, w1) ->
    reaches w0 1 start_time initial_state w1
| reaches_next (attempt : nat) (start_time : float) (ls ls' : loop_state)
    (w w' : world W) :
    reaches w0 attempt start_time ls w ->
    attempt_body E U task_description test_cases start_time attempt ls w =
      (inr (Continue, ls'), w') ->
    reaches w0 (S attempt) start_time ls' w'.

(** The feedback that the tests of one attempt produce, from the program
    tested, the test cases and the world in which the tests start. *)
Definition attempt_feedback (code : str) (w : world W) : str :=
  match fst (for_tests E U code (enumerate 1 test_cases) initial_state w) with
  | inr ls => feedback_summary ls
  | inl _ => []
  end.

(** All the test cases of [cases] run, from the world [w] to the world
    [w'], without an error and with the expected output. *)
Inductive tests_pass (code : str) :
  list (nat * (str * str)) -> world W -> world W -> Prop :=
| tests_pass_nil (w : world W) : tests_pass code [] w w
| tests_pass_cons (idx : nat) (input_data expected_output output : str)
    (rest : list (nat * (str * str))) (w w1 w2 : world W) :
    run_code E U code input_data w = (inr (output, []), w1) ->
    evaluate_output U output expected_output = true ->
    tests_pass code rest w1 w2 ->
    tests_pass code ((idx, (input_data, expected_output)) :: rest) w w2.

(** From the world [w] the test cases of [cases] before the one numbered
    [idx] pass, and that one, the first that does not, ends in the world
    [w'] with the output [output] and the error [error]. *)
Definition stops_at (code : str) (cases : list (nat * (str * str)))
  (w w' : world W) (idx : nat) (expected_output output error : str) : Prop :=
  exists pre input_data post w1,
    cases = pre ++ (idx, (input_data, expected_output)) :: post /\
    tests_pass code pre w w1 /\
    run_code E U code input_data w1 = (inr (output, error), w') /\
    (error <> [] \/ evaluate_output U output expected_output = false).
End Statements.

(** The first attempt of the session on [stuck_world], after the clock was
    read at the start of the session. *)
Definition stuck_first_attempt :
  (exn + step * loop_state) * world (list (exn + CompletedProcess)) :=
  attempt_body scripted_env ascii_only DIVIDE one_test (S754_zero false) 1
    initial_state (after_clock scripted_env stuck_world).

(** Its second attempt, which starts in the state and in the world in
    which the first one ended. *)
Definition stuck_second_attempt :
  (exn + step * loop_state) * world (list (exn + CompletedProcess)) :=
  attempt_body scripted_env ascii_only DIVIDE one_test (S754_zero false) 2
    (state_of stuck_first_attempt) (snd stuck_first_attempt).

(** ** Notions used in the further properties of the session *)

(** The calls that [run_code] makes: temporary files and child processes. *)
Definition is_executor_call (ev : event) : bool :=
  match ev with
  | NamedTemporaryFile | FileWrite _ _ | FileClose _
  | SubprocessRun _ _ _ | PathExists _ | OsRemove _ => true
  | GenerateCode _ _ | DebugCode _ _ _ | Time => false
  end.

Definition is_subprocess (ev : event) : bool :=
  match ev with
  | SubprocessRun _ _ _ => true
  | _ => false
  end.

(** The events that were added to the trace of [w0] to get the one of
    [w]. *)
Definition events_since {W : Type} (w0 w : world W) : list event :=
  drop (length (trace w0)) (trace w).

(** The calls of the generator and of the debugger among them. *)
Definition oracle_calls {W : Type} (w0 w : world W) : list event :=
  List.filter is_oracle_call (events_since w0 w).

(** The first call of the oracles is one of the generator, and the others
    are calls of the debugger, for the same task and in Python. *)
Definition generate_then_debug (task_description : str)
  (calls : list event) : Prop :=
  match calls with
  | [] => True
  | first :: others =>
      first = GenerateCode task_description PYTHON /\
      Forall (fun ev => exists feedback,
                ev = DebugCode task_description feedback PYTHON) others
  end.

(** The trace of [w'] is the one of [w] followed by events of the kind
    [P]. *)
Definition extends {W : Type} (P : event -> bool) (w w' : world W) : Prop :=
  exists events, trace w' = trace w ++ events /\ forallb P events = true.

(** Whatever the world, the computation [m] adds events of the kind [P]
    only. *)
Definition emits {W A : Type} (P : event -> bool) (m : M W A) : Prop :=
  forall w, extends P w (snd (m w)).

(** The call of an oracle that an attempt makes. *)
Definition oracle_event_of (task_description : str) (attempt : nat)
  (ls : loop_state) : event :=
  if (attempt =? 1)%nat then GenerateCode task_description PYTHON
  else DebugCode task_description (feedback_summary ls) PYTHON.

(** ** A scripted environment with a clock

    The state of the world is the list of the times that the clock will
    show, with the list of the answers of the child processes; when the
    times are exhausted the clock shows zero. *)
Definition clocked_env : env (list float * list (exn + CompletedProcess)) :=
  {| generate_code := fun _ _ w => (lit "print(1/0)", w);
     debug_code := fun _ _ _ w => (lit "print(1/0)", w);
     time_time := fun w =>
       match fst w with
       | t :: ts => (t, (ts, snd w))
       | [] => (S754_zero false, w)
       end;
     named_temporary_file := fun w => (inr (lit "/tmp/tmpk3v9.py"), w);
     file_write := fun _ _ w => (inr tt, w);
     file_close := fun _ w => (inr tt, w);
     subprocess_run := fun _ _ _ w =>
       match snd w with
       | r :: rs => (r, (fst w, rs))
       | [] => (inr quiet_process, w)
       end;
     path_exists := fun _ w => (true, w);
     os_remove := fun _ w => (inr tt, w) |}.

(** The session starts at the time 0, and 301 seconds have passed when its
    first attempt starts. *)
Definition late_world : world (list float * list (exn + CompletedProcess)) :=
  {| outside := ([S754_zero false; float_of_int 301], []); trace := [] |}.

(** The test case that a child process that prints nothing passes. *)
Definition empty_test : list (str * str) := [(lit "1", [])].

(** The program of the oracles of the scripted environments. *)
Definition DIVISION_BY_ZERO : str := Eval cbv in lit "print(1/0)".

(** ** Notions used in the further properties of the executor *)

(** Whatever the world, the events that the computation [m] adds weigh at
    most [n] together. *)
Definition emits_at_most {W A : Type} (weight : event -> nat) (n : nat)
  (m : M W A) : Prop :=
  forall w, exists events,
    trace (snd (m w)) = trace w ++ events /\
    (sum_list_with weight events <= n)%nat.

(** The weight that counts the events of the kind [f]. *)
Definition counting (f : event -> bool) (ev : event) : nat :=
  if f ev then 1%nat else 0%nat.

(** The seconds that a child process is given. *)
Definition child_seconds (ev : event) : nat :=
  match ev with
  | SubprocessRun _ _ timeout => Z.to_nat timeout
  | _ => 0%nat
  end.

(** The calls of [run_code] before its [finally] clause. *)
Definition is_try_call (ev : event) : bool :=
  is_executor_call ev && negb (is_cleanup ev).

(** ** Letter case

    [str.lower] and [str.capitalize] map the ASCII letters as written
    here.  For a character that is not ASCII CPython looks up its Unicode
    database: [uni_lower s i] stands for the characters that [str.lower]
    puts in the place of the character at the index [i] of [s] (one to
    three of them; for the capital sigma they depend on the characters
    around it), and [uni_title c] for the title case of [c], which
    [str.capitalize] gives to a first character. *)
Record unicode_case := {
  uni_lower : str -> nat -> list char;
  uni_title : char -> list char
}.

(** The database with no letter outside ASCII. *)
Definition ascii_case : unicode_case :=
  {| uni_lower := fun s i => match s !! i with Some c => [c] | None => [] end;
     uni_title := fun c => [c] |}.

Definition to_upper (c : char) : char :=
  if (97 <=? c) && (c <=? 122) then c - 32 else c.

Section Case.
Context (C : unicode_case).

(** The lower case of [rest], which is what is left of [s] from the index
    [i] on. *)
Fixpoint lower_from (s : str) (i : nat) (rest : str) : str :=
  match rest with
  | [] => []
  | c :: rest' =>
      (if c <? 128 then [to_lower c] else uni_lower C s i) ++
      lower_from s (S i) rest'
  end.

(** [s.lower()]. *)
Definition lower (s : str) : str := lower_from s 0 s.

(** [s.capitalize()]. *)
Definition capitalize (s : str) : str :=
  match s with
  | [] => []
  | c :: rest =>
      (if c <? 128 then [to_upper c] else uni_title C c) ++
      lower_from s 1 rest
  end.
End Case.

(** ** More of [str] *)

(** [s.endswith(p)]. *)
Definition endswith (p s : str) : bool := startswith (rev p) (rev s).

(** [s.strip(chars)]. *)
Section StripChars.
Context (chars : str).

Fixpoint lstrip_chars (s : str) : str :=
  match s with
  | [] => []
  | c :: s' => if contains_char c chars then lstrip_chars s' else s
  end.

Fixpoint rstrip_chars (s : str) : str :=
  match s with
  | [] => []
  | c :: s' =>
      match rstrip_chars s' with
      | [] => if contains_char c chars then [] else [c]
      | r => c :: r
      end
  end.

Definition strip_chars (s : str) : str := rstrip_chars (lstrip_chars s).
End StripChars.

(** [s.replace(old, new)], for an [old] that is not empty: the occurrences
    of [old] are found from left to right and do not overlap. *)
Definition replace (old new s : str) : str :=
  re_sub (fun t => if startswith old t then Some (length old) else None)
    new s.

(** [s.split()]: the pieces of [s] between its runs of whitespace; [word]
    is the piece that is being read. *)
Fixpoint split_whitespace_from (U : unicode_db) (word s : str) : list str :=
  match s with
  | [] => if nonempty word then [word] else []
  | c :: s' =>
      if isspace U c then
        if nonempty word then word :: split_whitespace_from U [] s'
        else split_whitespace_from U [] s'
      else split_whitespace_from U (word ++ [c]) s'
  end.

Definition split_whitespace (U : unicode_db) (s : str) : list str :=
  split_whitespace_from U [] s.

(** [l[:n]]: a negative [n] counts from the end. *)
Definition slice_to {A : Type} (n : Z) (l : list A) : list A :=
  if (0 <=? n)%Z then take (Z.to_nat n) l
  else take (Z.to_nat (Z.of_nat (length l) + n)) l.

(** [s[1:-1]]. *)
Definition slice_inner (s : str) : str := removelast (drop 1 s).

(** [str(n)] for an [int]. *)
Definition str_of_Z (n : Z) : str :=
  match n with
  | Z0 => [48]
  | Zpos p => str_of_uint (Pos.to_uint p)
  | Zneg p => 45 :: str_of_uint (Pos.to_uint p)
  end.

(** [any(word in s for word in words)]. *)
Definition any_in (words : list str) (s : str) : bool :=
  existsb (fun word => contains word s) words.

(** ** [utils.py] *)

Definition FENCE : str := Eval cbv in lit "```".
Definition BACKTICK : str := Eval cbv in lit "`".

Definition strip_code_fence (U : unicode_db) (code : str) : str :=
  if startswith FENCE code then
    let code := strip U (strip_chars BACKTICK code) in
    if startswith PYTHON code then strip U (drop (length PYTHON) code)
    else code
  else code.

(** ** The language model

    [model.generate_content(prompt).text]: the text of the answer, or the
    exception that the call or the reading of the answer raises.  The state
    threaded through [generator.py] and [debugger.py] is the one of the
    model, with the prompts sent so far, oldest first. *)
Record api (W : Type) := {
  generate_content : str -> W -> (exn + str) * W
}.

Arguments generate_content {W}.

Record session (W : Type) := {
  model_state : W;
  prompts : list str
}.

Arguments model_state {W}.
Arguments prompts {W}.

Definition ask {W : Type} (A : api W) (prompt : str) (s : session W) :
  (exn + str) * session W :=
  let '(r, o) := generate_content A prompt (model_state s) in
  (r, {| model_state := o; prompts := prompts s ++ [prompt] |}).

(** ** [generator.py] *)

Module generator.

Definition PYTHON_FALLBACK : str :=
  Eval cbv in
  [nl] ++
  lit "def main():" ++ [nl] ++
  lit "    print(" ++ [dquote] ++ lit "Gemini API call failed." ++
  [dquote] ++ lit ")" ++ [nl] ++
  lit "if __name__ == " ++ [dquote] ++ lit "__main__" ++ [dquote] ++
  lit ":" ++ [nl] ++
  lit "    main()" ++ [nl].

Definition JAVA_FALLBACK : str :=
  Eval cbv in
  [nl] ++
  lit "public class Solution {" ++ [nl] ++
  lit "    public static void main(String[] args) {" ++ [nl] ++
  lit "        System.out.println(" ++ [dquote] ++
  lit "Gemini API call failed." ++ [dquote] ++ lit ");" ++ [nl] ++
  lit "    }" ++ [nl] ++
  lit "}" ++ [nl].

Definition DEFAULT_FALLBACK : str := Eval cbv in lit "// Gemini API call failed.".

(** The dictionary of the [except] clause, with its default. *)
Definition fallback (key : str) : str :=
  if str_eqb key (lit "python") then PYTHON_FALLBACK
  else if str_eqb key (lit "java") then JAVA_FALLBACK
  else DEFAULT_FALLBACK.

Definition INPUT_COLON : str := Eval cbv in lit "Input:".
Definition OUTPUT_COLON : str := Eval cbv in lit "Output:".

Definition FALLBACK_CASES : list (str * str) :=
  Eval cbv in
  [([], lit "output1"); ([], lit "output2"); ([], lit "output3")].

Section Generator.
Context {W : Type} (A : api W) (U : unicode_db) (C : unicode_case).

Definition generate_code_prompt (task_prompt language : str) : str :=
  lit "Write complete, executable " ++ capitalize C language ++
  lit " code to solve the following task." ++ [nl] ++
  lit "Use standard input/output with separate input() calls for multiple values." ++
  [nl] ++
  lit "Keep the solution as SIMPLE as possible - avoid complex parsing unless necessary." ++
  [nl] ++
  lit "For basic operations with multiple numbers, use separate input() statements for each number." ++
  [nl] ++
  lit "Only use input().split() or map() if the task explicitly mentions space-separated input." ++
  [nl] ++
  lit "For simple print statements, output EXACTLY what is requested - no modifications." ++
  [nl] ++
  lit "No explanations, no markdown." ++ [nl; nl] ++
  lit "Task: " ++ strip U task_prompt.

(** [generate_code]: every exception of the [try] block leads to the
    fallback program of the language. *)
Definition generate_code (task_prompt language : str) (s : session W) :
  str * session W :=
  let '(r, s') := ask A (generate_code_prompt task_prompt language) s in
  match r with
  | inr text =>
      let raw_code := strip U text in
      (strip_code_fence U raw_code, s')
  | inl _ => (fallback (lower C language), s')
  end.

Definition test_cases_prompt (task_description : str) (num_cases : Z) :
  str :=
  [nl] ++
  lit "Generate " ++ str_of_Z num_cases ++
  lit " test cases for this programming task: " ++ [dquote] ++
  task_description ++ [dquote; nl; nl] ++
  lit "CRITICAL RULES:" ++ [nl] ++
  lit "- For simple print statements, use EXACTLY what the user requested - do not modify capitalization, punctuation, or format" ++
  [nl] ++
  lit "- If user says " ++ [dquote] ++ lit "print hello world" ++ [dquote] ++
  lit ", the expected output should be exactly " ++ [dquote] ++
  lit "hello world" ++ [dquote; nl] ++
  lit "- Do not add punctuation, capitalization, or formatting unless explicitly requested" ++
  [nl] ++
  lit "- Be LITERAL, not " ++ [dquote] ++ lit "helpful" ++ [dquote; nl] ++
  lit "- Use SEPARATE INPUT LINES for multiple values (not space-separated)" ++
  [nl] ++
  lit "- Keep test cases SIMPLE and matching the complexity of the task" ++
  [nl; nl] ++
  lit "Required format for single input:" ++ [nl] ++
  lit "Input: [value]" ++ [nl] ++
  lit "Output: [expected_output]" ++ [nl; nl] ++
  lit "Required format for multiple inputs:" ++ [nl] ++
  lit "Input: [value1]" ++ [nl] ++
  lit "[value2]" ++ [nl] ++
  lit "[value3]" ++ [nl] ++
  lit "Output: [expected_output]" ++ [nl; nl] ++
  lit "Required format for no input (like print statements):" ++ [nl] ++
  lit "Input: " ++ [nl] ++
  lit "Output: [exact_expected_output]" ++ [nl; nl] ++
  lit "Examples of GOOD test cases:" ++ [nl; nl] ++
  lit "Task: " ++ [dquote] ++ lit "print hello world" ++ [dquote; nl] ++
  lit "Input: " ++ [nl] ++
  lit "Output: hello world" ++ [nl; nl] ++
  lit "Task: " ++ [dquote] ++ lit "multiply two numbers" ++ [dquote; nl] ++
  lit "Input: 4" ++ [nl] ++
  lit "5" ++ [nl] ++
  lit "Output: 20" ++ [nl; nl] ++
  lit "Task: " ++ [dquote] ++ lit "check if number is even" ++
  [dquote; nl] ++
  lit "Input: 4" ++ [nl] ++
  lit "Output: True" ++ [nl; nl] ++
  lit "Generate " ++ str_of_Z num_cases ++
  lit " test cases for the given task using these exact formatting rules:" ++
  [nl].

(** The branch of the short [print] tasks: what is to be printed is cut
    out of [task_description] itself, after its first six characters. *)
Definition print_cases (task_description : str) : list (str * str) :=
  let text_to_print := strip U (drop 6 task_description) in
  let text_to_print :=
    if (startswith [dquote] text_to_print &&
        endswith [dquote] text_to_print) ||
       (startswith [squote] text_to_print &&
        endswith [squote] text_to_print)
    then slice_inner text_to_print
    else text_to_print in
  [([], text_to_print); ([], text_to_print); ([], text_to_print)].

(** The test cases of the common problems, by the words of the task. *)
Definition predefined_cases (task_lower : str) : option (list (str * str)) :=
  if any_in [lit "palindrome"] task_lower then
    if any_in [lit "ignore case"; lit "ignore spaces";
               lit "ignore punctuation"; lit "alphanumeric"] task_lower
    then Some [(lit "Racecar", lit "True");
               (lit "A man a plan a canal Panama", lit "True");
               (lit "hello", lit "False")]
    else Some [(lit "racecar", lit "True"); (lit "hello", lit "False");
               (lit "madam", lit "True")]
  else if any_in [lit "add"; lit "sum"; lit "plus"] task_lower &&
          contains (lit "two") task_lower then
    Some [(lit "5" ++ [nl] ++ lit "3", lit "8");
          (lit "0" ++ [nl] ++ lit "0", lit "0");
          (lit "-2" ++ [nl] ++ lit "7", lit "5")]
  else if any_in [lit "multiply"; lit "product"] task_lower &&
          contains (lit "two") task_lower then
    Some [(lit "4" ++ [nl] ++ lit "5", lit "20");
          (lit "0" ++ [nl] ++ lit "10", lit "0");
          (lit "-3" ++ [nl] ++ lit "2", lit "-6")]
  else if any_in [lit "subtract"; lit "difference"] task_lower &&
          contains (lit "two") task_lower then
    Some [(lit "10" ++ [nl] ++ lit "3", lit "7");
          (lit "0" ++ [nl] ++ lit "5", lit "-5");
          (lit "-2" ++ [nl] ++ lit "-7", lit "5")]
  else if any_in [lit "divide"; lit "division"] task_lower &&
          contains (lit "two") task_lower then
    Some [(lit "10" ++ [nl] ++ lit "2", lit "5");
          (lit "15" ++ [nl] ++ lit "3", lit "5");
          (lit "7" ++ [nl] ++ lit "2", lit "3")]
  else if any_in [lit "reverse"] task_lower &&
          contains (lit "string") task_lower then
    Some [(lit "hello", lit "olleh"); (lit "python", lit "nohtyp");
          (lit "a", lit "a")]
  else if any_in [lit "factorial"] task_lower then
    Some [(lit "5", lit "120"); (lit "0", lit "1"); (lit "3", lit "6")]
  else if any_in [lit "fibonacci"] task_lower then
    Some [(lit "0", lit "0"); (lit "1", lit "1"); (lit "5", lit "5")]
  else if any_in [lit "maximum"; lit "max"; lit "largest"] task_lower &&
          any_in [lit "list"; lit "array"; lit "numbers"] task_lower then
    Some [(lit "1" ++ [nl] ++ lit "2" ++ [nl] ++ lit "3" ++ [nl] ++
           lit "4" ++ [nl] ++ lit "5", lit "5");
          (lit "-1" ++ [nl] ++ lit "-5" ++ [nl] ++ lit "-2", lit "-1");
          (lit "10", lit "10")]
  else if any_in [lit "minimum"; lit "min"; lit "smallest"] task_lower &&
          any_in [lit "list"; lit "array"; lit "numbers"] task_lower then
    Some [(lit "1" ++ [nl] ++ lit "2" ++ [nl] ++ lit "3" ++ [nl] ++
           lit "4" ++ [nl] ++ lit "5", lit "1");
          (lit "-1" ++ [nl] ++ lit "-5" ++ [nl] ++ lit "-2", lit "-5");
          (lit "10", lit "10")]
  else if any_in [lit "even"; lit "odd"] task_lower then
    let is_even := contains (lit "even") task_lower in
    Some [(lit "4", if is_even then lit "True" else lit "False");
          (lit "7", if is_even then lit "False" else lit "True");
          (lit "0", if is_even then lit "True" else lit "False")]
  else if any_in [lit "prime"] task_lower then
    Some [(lit "7", lit "True"); (lit "4", lit "False");
          (lit "2", lit "True")]
  else if any_in [lit "count"] task_lower &&
          any_in [lit "character"; lit "letter"; lit "vowel"] task_lower then
    Some [(lit "hello" ++ [nl] ++ lit "l", lit "2");
          (lit "python" ++ [nl] ++ lit "n", lit "1");
          (lit "aaa" ++ [nl] ++ lit "a", lit "3")]
  else if any_in [lit "area"] task_lower &&
          contains (lit "rectangle") task_lower then
    Some [(lit "5" ++ [nl] ++ lit "3", lit "15");
          (lit "10" ++ [nl] ++ lit "2", lit "20");
          (lit "7" ++ [nl] ++ lit "7", lit "49")]
  else if any_in [lit "power"; lit "exponent"] task_lower &&
          contains (lit "two") task_lower then
    Some [(lit "2" ++ [nl] ++ lit "3", lit "8");
          (lit "5" ++ [nl] ++ lit "2", lit "25");
          (lit "10" ++ [nl] ++ lit "0", lit "1")]
  else None.

(** The two nested loops that read the answer of the model, line by line.
    [input_parts] is [None] in the outer loop, which looks for a line that
    starts with [Input:] as long as fewer than [num_cases] test cases were
    read; it holds the lines of the input read so far in the inner loop,
    which goes on to the line that starts with [Output:].  Each line is
    looked at once: where the inner loop comes to the end of the lines, so
    does the outer one. *)
Fixpoint parse_lines (num_cases : Z) (input_parts : option (list str))
  (lines : list str) (test_cases : list (str * str)) : list (str * str) :=
  match lines with
  | [] => test_cases
  | l :: rest =>
      match input_parts with
      | None =>
          if (Z.of_nat (length test_cases) <? num_cases)%Z then
            let line := strip U l in
            if startswith INPUT_COLON line then
              let input_first := strip U (replace INPUT_COLON [] line) in
              parse_lines num_cases
                (Some (if nonempty input_first then [input_first] else []))
                rest test_cases
            else parse_lines num_cases None rest test_cases
          else test_cases
      | Some parts =>
          if startswith OUTPUT_COLON (strip U l) then
            let output_val := strip U (replace OUTPUT_COLON [] (strip U l)) in
            let input_val := join nl parts in
            parse_lines num_cases None rest
              (test_cases ++ [(input_val, output_val)])
          else
            let next_line := strip U l in
            parse_lines num_cases
              (Some (if nonempty next_line &&
                        negb (startswith INPUT_COLON next_line)
                     then parts ++ [next_line] else parts))
              rest test_cases
      end
  end.

(** The test cases read in the text of an answer. *)
Definition parse_response (num_cases : Z) (response_text : str) :
  list (str * str) :=
  parse_lines num_cases None (split nl response_text) [].

(** [generate_test_cases]. *)
Definition generate_test_cases (task_description : str) (num_cases : Z)
  (s : session W) : list (str * str) * session W :=
  let task_lower := strip U (lower C task_description) in
  if startswith (lit "print ") task_lower &&
     (length (split_whitespace U task_lower) <=? 6)%nat
  then (print_cases task_description, s)
  else
    match predefined_cases task_lower with
    | Some cases => (cases, s)
    | None =>
        let '(r, s') := ask A (test_cases_prompt task_description num_cases) s in
        match r with
        | inr text =>
            let test_cases := parse_response num_cases (strip U text) in
            if (2 <=? length test_cases)%nat
            then (slice_to num_cases test_cases, s')
            else (slice_to num_cases FALLBACK_CASES, s')
        | inl _ => (slice_to num_cases FALLBACK_CASES, s')
        end
    end.
End Generator.
End generator.

(** ** [debugger.py] *)

Module debugger.

Definition FALLBACK : str :=
  Eval cbv in
  [nl] ++
  lit "def main():" ++ [nl] ++
  lit "    print(" ++ [dquote] ++ lit "Gemini failed during debug step." ++
  [dquote] ++ lit ")" ++ [nl] ++
  lit "if __name__ == " ++ [dquote] ++ lit "__main__" ++ [dquote] ++
  lit ":" ++ [nl] ++
  lit "    main()" ++ [nl].

Section Debugger.
Context {W : Type} (A : api W) (U : unicode_db) (C : unicode_case).

Definition debug_code_prompt (task_prompt feedback_summary language : str) :
  str :=
  lit "You are a debugging assistant for the " ++ capitalize C language ++
  lit " programming language." ++ [nl] ++
  lit "Regenerate complete " ++ capitalize C language ++
  lit " code to solve the following task." ++ [nl] ++
  lit "Use standard input/output. No markdown, explanation, or comments." ++
  [nl; nl] ++
  lit "Task: " ++ strip U task_prompt ++ [nl; nl] ++
  lit "Here is feedback from the last run:" ++ [nl] ++
  strip U feedback_summary ++ [nl; nl] ++
  lit "Please provide improved complete executable " ++
  capitalize C language ++ lit " code.".

(** [debug_code]: every exception of the [try] block leads to the same
    fallback program, whatever the language. *)
Definition debug_code (task_prompt feedback_summary language : str)
  (s : session W) : str * session W :=
  let '(r, s') :=
    ask A (debug_code_prompt task_prompt feedback_summary language) s in
  match r with
  | inr text =>
      let raw_code := strip U text in
      (strip_code_fence U raw_code, s')
  | inl _ => (FALLBACK, s')
  end.
End Debugger.
End debugger.

(** ** The filter and the categories of [main.py] *)

Definition non_output_keywords : list str :=
  Eval cbv in
  [lit "create file"; lit "write file"; lit "save file"; lit "file in";
   lit "write to file"; lit "read file"; lit "open file"; lit "delete file";
   lit "modify file"; lit "edit file"; lit "directory"; lit "folder";
   lit "path"; lit "mkdir"; lit "rmdir"; lit "database"; lit "sql";
   lit "insert into"; lit "create table"; lit "drop table";
   lit "machine learning"; lit "train model"; lit "save model";
   lit "load model"; lit "neural network"; lit "deep learning";
   lit "tensorflow"; lit "pytorch"; lit "plot"; lit "graph"; lit "chart";
   lit "visualization"; lit "matplotlib"; lit "pyplot"; lit "gui";
   lit "interface"; lit "tkinter"; lit "pyqt"; lit "kivy"; lit "streamlit";
   lit "api"; lit "rest api"; lit "flask"; lit "django"; lit "fastapi";
   lit "server"; lit "client"; lit "socket"; lit "network"; lit "http";
   lit "thread"; lit "process"; lit "multiprocessing"; lit "async";
   lit "install"; lit "pip install"; lit "download"; lit "upload";
   lit "request"; lit "email"; lit "notification"; lit "send message";
   lit "web scraping"; lit "scrape"; lit "beautiful soup"; lit "selenium";
   lit "image processing"; lit "opencv"; lit "pillow"; lit "image";
   lit "audio"; lit "video"; lit "media"; lit "pygame"].

Definition output_keywords : list str :=
  Eval cbv in
  [lit "return"; lit "output"; lit "print"; lit "display"; lit "show";
   lit "calculate"; lit "compute"; lit "find"; lit "determine"; lit "get";
   lit "sum"; lit "add"; lit "subtract"; lit "multiply"; lit "divide";
   lit "average"; lit "mean"; lit "median"; lit "mode"; lit "maximum";
   lit "minimum"; lit "max"; lit "min"; lit "largest"; lit "smallest";
   lit "sort"; lit "arrange"; lit "order"; lit "reverse"; lit "flip";
   lit "count"; lit "search"; lit "lookup"; lit "index"; lit "convert";
   lit "transform"; lit "change"; lit "format"; lit "check"; lit "validate";
   lit "verify"; lit "test"; lit "is"; lit "compare"; lit "match";
   lit "equal"; lit "different"; lit "parse"; lit "extract"; lit "split";
   lit "join"; lit "palindrome"; lit "anagram"; lit "substring";
   lit "factorial"; lit "fibonacci"; lit "prime"; lit "perfect"; lit "even";
   lit "odd"; lit "positive"; lit "negative"; lit "length"; lit "size";
   lit "contains"; lit "startswith"; lit "endswith"].

Definition math_indicators : list str :=
  Eval cbv in
  [lit "formula"; lit "equation"; lit "algorithm"; lit "logic";
   lit "condition"].

Section Filter.
Context (C : unicode_case).

(** [is_output_based_task]: each of the three loops returns at the first
    keyword that it finds in the task. *)
Definition is_output_based_task (task_description : str) : bool :=
  let task_lower := lower C task_description in
  if any_in non_output_keywords task_lower then false
  else if any_in output_keywords task_lower then true
  else if any_in math_indicators task_lower then true
  else false.

Definition get_task_category (task_description : str) : str :=
  let task_lower := lower C task_description in
  if any_in [lit "file"; lit "directory"; lit "folder"; lit "path"]
       task_lower then lit "file_operations"
  else if any_in [lit "database"; lit "sql"; lit "table"] task_lower then
    lit "database"
  else if any_in [lit "machine learning"; lit "model"; lit "neural";
                  lit "tensorflow"; lit "pytorch"] task_lower then
    lit "machine_learning"
  else if any_in [lit "gui"; lit "interface"; lit "tkinter"; lit "window"]
            task_lower then lit "gui"
  else if any_in [lit "api"; lit "server"; lit "client"; lit "flask";
                  lit "django"] task_lower then lit "web_api"
  else if any_in [lit "plot"; lit "graph"; lit "chart"; lit "matplotlib"]
            task_lower then lit "visualization"
  else if any_in [lit "scrape"; lit "scraping"; lit "selenium";
                  lit "requests"] task_lower then lit "web_scraping"
  else if any_in [lit "thread"; lit "process"; lit "async";
                  lit "concurrent"] task_lower then lit "concurrency"
  else lit "general".
End Filter.

(** The keys of the dictionary [category_messages] of [main.py]. *)
Definition category_names : list str :=
  [lit "file_operations"; lit "database"; lit "machine_learning"; lit "gui";
   lit "web_api"; lit "visualization"; lit "web_scraping"; lit "concurrency";
   lit "general"].

(** ** A scripted language model

    The state of the model is the list of the answers that it will give;
    when it is exhausted the call raises. *)
Definition scripted_api : api (list (exn + str)) :=
  {| generate_content := fun _ w =>
       match w with
       | r :: w' => (r, w')
       | [] => (inl (OtherException (lit "no answer")), [])
       end |}.

Definition answering (answers : list (exn + str)) :
  session (list (exn + str)) :=
  {| model_state := answers; prompts := [] |}.

(** ** Notions used in the properties of the generator *)

(** The lines in which the format that [test_cases_prompt] asks for gives
    a test case: the lines of the input, the first one after [Input: ],
    and the expected output after [Output: ]. *)
Definition case_lines (test_case : list str * str) : list str :=
  match fst test_case with
  | [] => [lit "Input: "]
  | first :: others => (lit "Input: " ++ first) :: others
  end ++ [lit "Output: " ++ snd test_case].

(** A line of an input that the parser gives back as it is. *)
Definition plain_line (U : unicode_db) (l : str) : Prop :=
  l <> [] /\ strip U l = l /\ (nl ∉ l) /\
  contains generator.INPUT_COLON l = false /\
  startswith generator.OUTPUT_COLON l = false.

(** An expected output that the parser gives back as it is. *)
Definition plain_output (U : unicode_db) (out : str) : Prop :=
  strip U out = out /\ (nl ∉ out) /\
  contains generator.OUTPUT_COLON out = false.

Definition plain_case (U : unicode_db) (test_case : list str * str) : Prop :=
  Forall (plain_line U) (fst test_case) /\ plain_output U (snd test_case).

(** The test case that the parser makes of the lines of an input and an
    expected output. *)
Definition case_of (test_case : list str * str) : str * str :=
  (join nl (fst test_case), snd test_case).
(** ** Facts on strings *)

Lemma startswith_spec (p s : str) :
  startswith p s = true <-> exists r, s = p ++ r.
Proof.
  revert s. induction p as [|a p IH]; intros s; simpl.
  - split; [eauto | done].
  - destruct s as [|b s]; [split; [done | intros [r Hr]; done] |].
    rewrite andb_true_iff, N.eqb_eq, IH. split.
    + intros [-> [r ->]]. eauto.
    + intros [r Hr]. simplify_eq. eauto.
Qed.

Lemma startswith_app (p s : str) : startswith p (p ++ s) = true.
Proof. apply startswith_spec. eauto. Qed.

Lemma contains_char_spec (x : char) (s : str) :
  contains_char x s = true <-> x ∈ s.
Proof.
  induction s as [|c s IH]; simpl.
  - split; [done | by intros ?%elem_of_nil].
  - rewrite orb_true_iff, N.eqb_eq, IH, elem_of_cons. naive_solver.
Qed.

Lemma find_char_None (x : char) (s : str) : find_char x s = None <-> x ∉ s.
Proof.
  induction s as [|c s IH]; simpl.
  - split; [intros _ ?%elem_of_nil; done | done].
  - rewrite not_elem_of_cons. destruct (N.eqb_spec c x) as [->|Hne].
    + split; [done | naive_solver].
    + destruct (find_char x s); simpl; split; try done.
      * intros [_ H]. by apply IH in H.
      * intros _. split; [done | by apply IH].
Qed.

Lemma find_char_Some (x : char) (s : str) (i : nat) :
  find_char x s = Some i ->
  exists a b, s = a ++ x :: b /\ length a = i /\ x ∉ a.
Proof.
  revert i. induction s as [|c s IH]; intros i; simpl; [done |].
  destruct (N.eqb_spec c x) as [->|Hne].
  - intros [= <-]. exists [], s. split_and!; [done | done | by intros ?%elem_of_nil].
  - destruct (find_char x s) as [j|]; simpl; [|done].
    intros [= <-]. destruct (IH j eq_refl) as (a & b & -> & <- & Hna).
    exists (c :: a), b. split_and!; [done | done |].
    rewrite not_elem_of_cons. done.
Qed.

(** ** Facts on the substitution engine *)

Lemma everywhere_head (P : str -> Prop) (s : str) : everywhere P s -> P s.
Proof. destruct s; simpl; tauto. Qed.

Lemma everywhere_app_r (P : str -> Prop) (a b : str) :
  everywhere P (a ++ b) -> everywhere P b.
Proof. induction a as [|c a IH]; simpl; [done | tauto]. Qed.

Lemma everywhere_drop (P : str -> Prop) (k : nat) (s : str) :
  everywhere P s -> everywhere P (drop k s).
Proof.
  intros H. rewrite <- (take_drop k s) in H. by apply everywhere_app_r in H.
Qed.

Lemma everywhere_impl (P Q : str -> Prop) (s : str) :
  (forall t, P t -> Q t) -> everywhere P s -> everywhere Q s.
Proof. intros HPQ. induction s; simpl; naive_solver. Qed.

Section ReSubFacts.
Context (matcher : str -> option nat) (repl : str).

Local Abbreviation sub := (re_sub matcher repl).

Lemma re_sub_from_drop (k : nat) (s : str) :
  re_sub_from matcher repl k s = sub (drop k s).
Proof.
  revert k. induction s as [|c s IH]; intros [|k]; try done.
  simpl. apply IH.
Qed.

Lemma re_sub_nil : sub [] = [].
Proof. done. Qed.

(** The equation of the scan: at a match, the replacement and the scan of
    what follows the match; otherwise the character and the scan of the
    rest. *)
Lemma re_sub_cons (c : char) (s : str) :
  sub (c :: s) =
  match matcher (c :: s) with
  | Some n => repl ++ sub (drop (Nat.pred n) s)
  | None => c :: sub s
  end.
Proof.
  unfold re_sub at 1. simpl. destruct (matcher (c :: s)); [|done].
  by rewrite re_sub_from_drop.
Qed.

(** Where every match is an occurrence of the replacement itself, the
    substitution changes nothing. *)
Lemma re_sub_fixed (s : str) :
  everywhere (fun t => forall n, matcher t = Some n ->
                                 (0 < n)%nat /\ take n t = repl) s ->
  sub s = s.
Proof.
  remember (length s) as k eqn:Hk.
  revert s Hk. induction (lt_wf k) as [k _ IH]; intros s -> Hs.
  destruct s as [|c s]; [done |].
  rewrite re_sub_cons. destruct (matcher (c :: s)) as [n|] eqn:Hm.
  - destruct Hs as [Hc Hs]. destruct (Hc n Hm) as [Hn Ht].
    destruct n as [|n]; [lia |]. simpl in *.
    rewrite (IH (length (drop n s))); [| rewrite length_drop; lia | done |].
    + rewrite <- Ht. simpl. by rewrite take_drop.
    + by apply everywhere_drop.
  - destruct Hs as [_ Hs]. f_equal. apply (IH (length s)); [simpl; lia | done | done].
Qed.

(** How a property of every suffix is carried to the output. *)
Lemma everywhere_re_sub (P Q : str -> Prop) :
  P [] ->
  (forall c s, matcher (c :: s) = None -> Q (c :: s) -> P (c :: sub s)) ->
  (forall u, everywhere P u -> everywhere P (repl ++ u)) ->
  forall s, everywhere Q s -> everywhere P (sub s).
Proof.
  intros Hnil Hskip Hrepl s.
  remember (length s) as k eqn:Hk.
  revert s Hk. induction (lt_wf k) as [k _ IH]; intros s -> Hs.
  destruct s as [|c s]; [done |].
  rewrite re_sub_cons. destruct (matcher (c :: s)) as [n|] eqn:Hm.
  - apply Hrepl. destruct Hs as [_ Hs].
    apply (IH (length (drop (Nat.pred n) s))); [simpl; rewrite length_drop; lia | done |].
    by apply everywhere_drop.
  - destruct Hs as [Hc Hs]. split.
    + by apply Hskip.
    + apply (IH (length s)); [simpl; lia | done | done].
Qed.

Lemma elem_of_re_sub (x : char) (s : str) :
  x ∈ sub s -> x ∈ repl \/ x ∈ s.
Proof.
  remember (length s) as k eqn:Hk.
  revert s Hk. induction (lt_wf k) as [k _ IH]; intros s ->.
  destruct s as [|c s]; [by intros ?%elem_of_nil |].
  rewrite re_sub_cons. destruct (matcher (c :: s)) as [n|] eqn:Hm.
  - rewrite elem_of_app. intros [?|Hx]; [by left |].
    apply (IH (length (drop (Nat.pred n) s))) in Hx; [| simpl; rewrite length_drop; lia | done].
    destruct Hx as [?|Hx]; [by left | right].
    apply elem_of_cons. right. by eapply subseteq_drop.
  - rewrite !elem_of_cons. intros [->|Hx]; [by right; left |].
    apply (IH (length s)) in Hx; [| simpl; lia | done]. naive_solver.
Qed.

(** The pattern and the replacement start with the same character [h]. *)
Context (h : char) (repl' : str).
Hypothesis matcher_head :
  forall s, matcher s <> None -> exists s', s = h :: s'.
Hypothesis repl_head : repl = h :: repl'.

Lemma re_sub_cons_ne (x : char) (s : str) :
  x <> h -> sub (x :: s) = x :: sub s.
Proof.
  intros Hx. rewrite re_sub_cons.
  destruct (matcher (x :: s)) eqn:Hm; [|done].
  destruct (matcher_head (x :: s)) as [s' Hs']; [by rewrite Hm |]. congruence.
Qed.

Lemma re_sub_app_ne (p s : str) :
  Forall (fun x => x <> h) p -> sub (p ++ s) = p ++ sub s.
Proof.
  induction 1 as [|x p Hx _ IH]; [done |].
  simpl. rewrite re_sub_cons_ne by done. by rewrite IH.
Qed.

Lemma re_sub_inv_head (x : char) (s u : str) :
  sub s = x :: u -> exists s', s = x :: s'.
Proof.
  destruct s as [|c s]; [done |]. rewrite re_sub_cons.
  destruct (matcher (c :: s)) eqn:Hm.
  - destruct (matcher_head (c :: s)) as [s' Hs']; [by rewrite Hm |].
    rewrite repl_head. simpl. intros [= <- _]. simplify_eq. eauto.
  - intros [= <- _]. eauto.
Qed.

Lemma re_sub_inv_ne (x : char) (s u : str) :
  x <> h -> sub s = x :: u -> exists s', s = x :: s' /\ u = sub s'.
Proof.
  intros Hx Hs. destruct (re_sub_inv_head _ _ _ Hs) as [s' ->].
  rewrite re_sub_cons_ne in Hs by done. simplify_eq. eauto.
Qed.

Lemma re_sub_inv_prefix (p s u : str) :
  Forall (fun x => x <> h) p -> sub s = p ++ u ->
  exists s', s = p ++ s' /\ u = sub s'.
Proof.
  intros Hp. revert s. induction Hp as [|x p Hx _ IH]; intros s; simpl.
  - eauto.
  - intros (s1 & -> & Hs1)%re_sub_inv_ne; [|done].
    symmetry in Hs1. destruct (IH _ Hs1) as (s2 & -> & ->). eauto.
Qed.
End ReSubFacts.

Section ReSubElem.
Context (matcher : str -> option nat) (repl : str) (x : char).
Hypothesis matcher_elem : forall s, matcher s <> None -> x ∈ s.

(** A character that every match contains is in the output only if it is
    in the input. *)
Lemma elem_of_re_sub_matched (s : str) :
  x ∈ re_sub matcher repl s -> x ∈ s.
Proof.
  remember (length s) as k eqn:Hk.
  revert s Hk. induction (lt_wf k) as [k _ IH]; intros s ->.
  destruct s as [|c s]; [done |].
  rewrite re_sub_cons. destruct (matcher (c :: s)) as [n|] eqn:Hm.
  - intros _. apply matcher_elem. by rewrite Hm.
  - rewrite !elem_of_cons. intros [->|Hx]; [by left |].
    right. apply (IH (length s)); [simpl; lia | done | done].
Qed.
End ReSubElem.

(** ** The three patterns *)

Lemma run_length_take (f : char -> bool) (s : str) :
  Forall (fun c => f c = true) (take (run_length f s) s).
Proof.
  induction s as [|c s IH]; simpl; [constructor |].
  destruct (f c) eqn:Hc; simpl; [by constructor | constructor].
Qed.

Lemma run_length_stop (f : char -> bool) (w : str) (x : char) (r : str) :
  Forall (fun c => f c = true) w -> f x = false ->
  run_length f (w ++ x :: r) = length w.
Proof.
  intros Hw Hx. induction Hw as [|c w Hc _ IH]; simpl.
  - by rewrite Hx.
  - by rewrite Hc, IH.
Qed.

Section Patterns.
Context (U : unicode_db).

Lemma match_line_no_iff (s : str) :
  match_line_no U s <> None <->
  exists d r, s = LINE_SP ++ d :: r /\ isdecimal U d = true.
Proof.
  unfold match_line_no. split.
  - destruct (startswith LINE_SP s) eqn:Hs; [|done].
    apply startswith_spec in Hs as [r ->].
    change (drop 5 (LINE_SP ++ r)) with r.
    destruct r as [|d r]; simpl; [done |].
    destruct (isdecimal U d) eqn:Hd; [|done]. eauto.
  - intros (d & r & -> & Hd). rewrite startswith_app.
    change (drop 5 (LINE_SP ++ d :: r)) with (d :: r). simpl. by rewrite Hd.
Qed.

Lemma match_file_path_iff (s : str) :
  match_file_path s <> None <-> exists r, s = FILE_Q ++ r /\ dquote ∈ r.
Proof.
  unfold match_file_path. split.
  - destruct (startswith FILE_Q s) eqn:Hs; [|done].
    apply startswith_spec in Hs as [r ->].
    change (drop 6 (FILE_Q ++ r)) with r.
    destruct (find_char dquote r) eqn:Hf; [|done].
    intros _. exists r. split; [done |].
    destruct (decide (dquote ∈ r)) as [|Hn]; [done |].
    apply find_char_None in Hn. congruence.
  - intros (r & -> & Hr). rewrite startswith_app.
    change (drop 6 (FILE_Q ++ r)) with r.
    destruct (find_char dquote r) eqn:Hf; [done |].
    by apply find_char_None in Hf.
Qed.

Lemma match_tmp_name_iff (s : str) :
  match_tmp_name U s <> None <->
  exists w r, s = TMP ++ w ++ DOT_PY ++ r /\ w <> [] /\
              Forall (fun c => isword U c = true) w.
Proof.
  unfold match_tmp_name. split.
  - destruct (startswith TMP s) eqn:Hs; [|done].
    apply startswith_spec in Hs as [r ->].
    change (drop 3 (TMP ++ r)) with r.
    destruct (run_length (isword U) r) as [|k] eqn:Hk; [done |].
    change (drop (3 + S k) (TMP ++ r)) with (drop (S k) r).
    destruct (startswith DOT_PY (drop (S k) r)) eqn:Hd; [|done].
    apply startswith_spec in Hd as [r' Hr']. intros _.
    exists (take (S k) r), r'. split_and!.
    + by rewrite <- Hr', take_drop.
    + destruct r; [done |]. done.
    + rewrite <- Hk. apply run_length_take.
  - intros (w & r & -> & Hw & Hall). rewrite startswith_app.
    change (drop 3 (TMP ++ w ++ DOT_PY ++ r)) with (w ++ 46 :: 112 :: 121 :: r).
    rewrite (run_length_stop _ w 46 _ Hall eq_refl).
    destruct w as [|c w]; [done |]. simpl length. cbv beta iota.
    change (drop (3 + S (length w)) (TMP ++ (c :: w) ++ DOT_PY ++ r))
      with (drop (length (c :: w)) ((c :: w) ++ DOT_PY ++ r)).
    rewrite drop_app_length. done.
Qed.

Lemma match_line_no_head (s : str) :
  match_line_no U s <> None -> exists s', s = 108 :: s'.
Proof. intros (d & r & -> & _)%match_line_no_iff. simpl. eauto. Qed.

Lemma match_file_path_head (s : str) :
  match_file_path s <> None -> exists s', s = 70 :: s'.
Proof. intros (r & -> & _)%match_file_path_iff. simpl. eauto. Qed.

Lemma match_tmp_name_head (s : str) :
  match_tmp_name U s <> None -> exists s', s = 116 :: s'.
Proof. intros (w & r & -> & _)%match_tmp_name_iff. simpl. eauto. Qed.

Lemma isdecimal_not_ascii_letter (d : char) :
  isdecimal U d = true -> 65 <= d < 128 -> False.
Proof.
  unfold isdecimal, decimal_value. intros Hd [H1 H2].
  apply N.ltb_lt in H2. rewrite H2 in Hd.
  destruct (48 <=? d) eqn:Ha, (d <=? 57) eqn:Hb; simpl in Hd; try done.
  apply N.leb_le in Hb. lia.
Qed.

Abbreviation sub_line := (re_sub (match_line_no U) LINE_X) (only parsing).
Abbreviation sub_file := (re_sub (match_file_path) FILE_X) (only parsing).
Abbreviation sub_tmp := (re_sub (match_tmp_name U) TMPX_PY) (only parsing).

Lemma sub_line_fixed (s : str) : clean_line U s -> sub_line s = s.
Proof.
  intros H. apply re_sub_fixed. revert H. apply everywhere_impl.
  intros t Ht n Hn. congruence.
Qed.

Lemma sub_file_fixed (s : str) : clean_file s -> sub_file s = s.
Proof.
  intros H. apply re_sub_fixed. revert H. apply everywhere_impl.
  intros t Ht n Hn. apply startswith_spec in Ht as [r ->]; [|congruence].
  cbv in Hn. simplify_eq. split; [lia | done].
Qed.

Lemma sub_tmp_fixed (s : str) : clean_tmp U s -> sub_tmp s = s.
Proof.
  intros H. apply re_sub_fixed. revert H. apply everywhere_impl.
  intros t Ht n Hn. apply startswith_spec in Ht as [r ->]; [|congruence].
  cbv in Hn. simplify_eq. split; [lia | done].
Qed.
End Patterns.

(** ** Runs of a character class *)

Lemma run_length_le (f : char -> bool) (s : str) :
  (run_length f s <= length s)%nat.
Proof.
  induction s as [|c s IH]; simpl; [done |]. destruct (f c); simpl; lia.
Qed.

Lemma run_length_app_ge (f : char -> bool) (w r : str) :
  Forall (fun c => f c = true) w -> (length w <= run_length f (w ++ r))%nat.
Proof.
  induction 1 as [|c w Hc _ IH]; simpl; [lia |]. rewrite Hc. lia.
Qed.

Lemma run_length_drop (f : char -> bool) (s : str) (c : char) (r : str) :
  drop (run_length f s) s = c :: r -> f c = false.
Proof.
  induction s as [|a s IH]; simpl; [done |].
  destruct (f a) eqn:Ha; simpl; [done |]. by intros [= <- _].
Qed.

Lemma first_occurrence_unique (x : char) (a b a' b' : str) :
  x ∉ a -> x ∉ a' -> a ++ x :: b = a' ++ x :: b' -> a = a'.
Proof.
  revert a'. induction a as [|c a IH]; intros [|c' a'] Ha Ha'; simpl.
  - done.
  - intros [= <- _]. apply not_elem_of_cons in Ha' as [? _]. done.
  - intros [= -> _]. apply not_elem_of_cons in Ha as [? _]. done.
  - apply not_elem_of_cons in Ha as [_ Ha].
    apply not_elem_of_cons in Ha' as [_ Ha'].
    intros [= -> Heq]. f_equal. by eapply IH.
Qed.

Lemma longest_match_unique (r : regex) (s : str) (n n' : nat) :
  longest_match r s n -> longest_match r s n' -> n = n'.
Proof.
  intros [Hn Hmax] [Hn' Hmax']. apply Hmax in Hn'. apply Hmax' in Hn. lia.
Qed.

(** A matcher that returns only longest matches, and returns one whenever
    there is a match, returns exactly the longest matches. *)
Lemma longest_match_iff (matcher : str -> option nat) (r : regex) :
  (forall s n, matcher s = Some n -> longest_match r s n) ->
  (forall s k, is_match r s k -> matcher s <> None) ->
  forall s n, matcher s = Some n <-> longest_match r s n.
Proof.
  intros Hsound Hcomplete s n. split; [apply Hsound |].
  intros Hlong. destruct (matcher s) as [n'|] eqn:Hm.
  - f_equal. eapply longest_match_unique; [by apply Hsound | done].
  - destruct Hlong as [Hn _]. by apply Hcomplete in Hn.
Qed.

(** ** The backtracking matcher on the patterns of the program *)

Lemma re_sub_from_ext (m1 m2 : str -> option nat) (repl : str) :
  (forall s, m1 s = m2 s) ->
  forall s k, re_sub_from m1 repl k s = re_sub_from m2 repl k s.
Proof.
  intros Hm s. induction s as [|c s IH]; intros k; [done |].
  simpl. destruct k as [|k]; [|apply IH].
  rewrite Hm. destruct (m2 (c :: s)) as [n|]; by rewrite IH.
Qed.

(** The substitution depends on the matcher only through its answers. *)
Lemma re_sub_ext (m1 m2 : str -> option nat) (repl : str) (s : str) :
  (forall t, m1 t = m2 t) -> re_sub m1 repl s = re_sub m2 repl s.
Proof. intros Hm. by apply re_sub_from_ext. Qed.

Lemma greedy_below {A : Type} (k : nat -> option A) (low n : nat) :
  (n < low)%nat -> greedy k low n = None.
Proof.
  intros Hn. destruct n; simpl; by rewrite (proj2 (Nat.ltb_lt _ _) Hn).
Qed.

Lemma greedy_top {A : Type} (k : nat -> option A) (low n : nat) (a : A) :
  (low <= n)%nat -> k n = Some a -> greedy k low n = Some a.
Proof.
  intros Hn Hk.
  destruct n; simpl; rewrite (proj2 (Nat.ltb_ge _ _) Hn), Hk; done.
Qed.

Lemma greedy_next {A : Type} (k : nat -> option A) (low n : nat) :
  k (S n) = None -> greedy k low (S n) = greedy k low n.
Proof.
  intros Hk. simpl. rewrite Hk.
  destruct (Nat.ltb_spec (S n) low) as [Hlt|Hge]; [|done].
  symmetry. apply greedy_below. lia.
Qed.

(** The continuation fails at every number of repetitions below [n]:
    the answer is the one of the first try. *)
Lemma greedy_first {A : Type} (k : nat -> option A) (low n : nat) :
  (forall i, (i < n)%nat -> k i = None) ->
  greedy k low n = if (n <? low)%nat then None else k n.
Proof.
  intros Hk. destruct (Nat.ltb_spec n low) as [Hlt|Hge].
  - by apply greedy_below.
  - destruct (k n) as [a|] eqn:Hn; [by apply greedy_top |].
    clear Hge. induction n as [|n IH].
    + simpl. rewrite Hn. by destruct (0 <? low)%nat.
    + rewrite greedy_next by done. destruct (Nat.ltb_spec n low) as [Hlt|Hge].
      * by apply greedy_below.
      * apply IH; [intros i Hi; apply Hk; lia | apply Hk; lia].
Qed.

Lemma run_length_lt (f : char -> bool) (s : str) (i : nat) :
  (i < run_length f s)%nat -> exists c r, drop i s = c :: r /\ f c = true.
Proof.
  revert i. induction s as [|a s IH]; intros i; simpl; [lia |].
  destruct (f a) eqn:Ha; [|lia]. destruct i as [|i].
  - intros _. eauto.
  - intros Hi. apply IH. lia.
Qed.

(** A greedy repetition of a class, followed by something that no
    character of the class can start: only the longest run is tried with
    success. *)
Lemma greedy_run {A : Type} (f : char -> bool) (k : str -> option A)
    (low : nat) (s : str) :
  (forall c r, f c = true -> k (c :: r) = None) ->
  greedy (fun i => k (drop i s)) low (run_length f s) =
  if (run_length f s <? low)%nat then None else k (drop (run_length f s) s).
Proof.
  intros Hk. apply (greedy_first (fun i => k (drop i s))). intros i Hi.
  apply run_length_lt in Hi as (c & r & -> & Hc). by apply Hk.
Qed.

Lemma find_char_run_length (s : str) :
  find_char dquote s =
  match drop (run_length not_dquote s) s with
  | [] => None
  | _ :: _ => Some (run_length not_dquote s)
  end.
Proof.
  induction s as [|c s IH]; [done |]. unfold not_dquote at 1 2. simpl.
  destruct (c =? dquote) eqn:Hc; simpl; [done |].
  rewrite IH. fold not_dquote. by destruct (drop (run_length not_dquote s) s).
Qed.

Lemma length_drop_sub (s : str) (n : nat) :
  (n <= length s)%nat -> (length s - length (drop n s) = n)%nat.
Proof. intros Hn. rewrite length_drop. lia. Qed.

Section BacktrackClosedForms.
Context (U : unicode_db).

(** On [line \d+] the backtracking matcher computes [match_line_no]. *)
Lemma regex_match_line_no (s : str) :
  regex_match (LINE_NO_RE U) s = match_line_no U s.
Proof.
  unfold regex_match, match_line_no, LINE_NO_RE. cbn [backtrack].
  destruct (startswith LINE_SP s) eqn:Hs; [|done].
  apply startswith_spec in Hs as [r ->].
  change (length LINE_SP) with 5%nat.
  change (drop 5 (LINE_SP ++ r)) with r.
  pose proof (run_length_le (isdecimal U) r) as Hle.
  destruct (run_length (isdecimal U) r) as [|n] eqn:Hn; [done |].
  rewrite (greedy_top _ 1 (S n) (5 + S n)%nat); [done | lia |].
  f_equal. rewrite length_app, length_drop.
  change (length LINE_SP) with 5%nat. lia.
Qed.

(** On the pattern for quoted paths it computes [match_file_path]. *)
Lemma regex_match_file_path (s : str) :
  regex_match FILE_PATH_RE s = match_file_path s.
Proof.
  unfold regex_match, match_file_path, FILE_PATH_RE. cbn [backtrack].
  destruct (startswith FILE_Q s) eqn:Hs; [|done].
  apply startswith_spec in Hs as [r ->].
  change (length FILE_Q) with 6%nat.
  change (drop 6 (FILE_Q ++ r)) with r.
  rewrite (greedy_run not_dquote
             (fun s' => if startswith [dquote] s'
                        then Some (length (FILE_Q ++ r) -
                                   length (drop (length [dquote]) s'))%nat
                        else None)).
  2:{ intros c r' Hc. cbn [startswith].
      by destruct (N.eqb_spec dquote c) as [<-|]. }
  rewrite find_char_run_length.
  pose proof (run_length_le not_dquote r) as Hle.
  destruct (drop (run_length not_dquote r) r) as [|c r'] eqn:Hd; [done |].
  pose proof (run_length_drop _ _ _ _ Hd) as Hc. cbn [startswith].
  destruct (N.eqb_spec dquote c) as [<-|Hne].
  2:{ unfold not_dquote in Hc. destruct (N.eqb_spec c dquote); [congruence | done]. }
  cbn [andb length]. change (drop 1 (dquote :: r')) with r'. f_equal. apply (f_equal length) in Hd. rewrite length_drop in Hd.
  simpl in Hd. rewrite length_app. change (length FILE_Q) with 6%nat. lia.
Qed.

Lemma isword_not_dot (c : char) : isword U c = true -> c <> 46.
Proof. intros Hc ->. done. Qed.

(** On the pattern for temporary files it computes [match_tmp_name]. *)
Lemma regex_match_tmp_name (s : str) :
  regex_match (TMP_NAME_RE U) s = match_tmp_name U s.
Proof.
  unfold regex_match, match_tmp_name, TMP_NAME_RE. cbn [backtrack].
  destruct (startswith TMP s) eqn:Hs; [|done].
  apply startswith_spec in Hs as [r ->].
  change (length TMP) with 3%nat.
  change (drop 3 (TMP ++ r)) with r.
  rewrite (greedy_run (isword U)
             (fun s' => if startswith DOT_PY s'
                        then Some (length (TMP ++ r) -
                                   length (drop (length DOT_PY) s'))%nat
                        else None)).
  2:{ intros c r' Hc%isword_not_dot. unfold DOT_PY. cbn [startswith].
      destruct (N.eqb_spec 46 c); [congruence | done]. }
  pose proof (run_length_le (isword U) r) as Hle.
  destruct (run_length (isword U) r) as [|n] eqn:Hn; [done |].
  change (drop (3 + S n) (TMP ++ r)) with (drop (S n) r).
  change (S n <? 1)%nat with false. cbv beta iota.
  destruct (startswith DOT_PY (drop (S n) r)) eqn:Hd; [|done].
  apply startswith_spec in Hd as [r' Hr']. f_equal.
  rewrite Hr'. change (drop (length DOT_PY) (DOT_PY ++ r')) with r'.
  apply (f_equal length) in Hr'. rewrite length_drop, length_app in Hr'.
  rewrite length_app. change (length TMP) with 3%nat.
  change (length DOT_PY) with 3%nat in Hr'. lia.
Qed.
End BacktrackClosedForms.

(** On the pattern for missing modules the group of the backtracking
    matcher is the one of [match_missing_module_scan]. *)
Lemma match_missing_module_scan_eq (s : str) :
  match_missing_module s = match_missing_module_scan s.
Proof.
  unfold match_missing_module, match_missing_module_scan, regex_match,
    MISSING_MODULE_RE.
  cbn [backtrack].
  destruct (startswith NO_MODULE_NAMED s) eqn:Hs; [|done].
  apply startswith_spec in Hs as [r0 ->].
  change (length NO_MODULE_NAMED) with 16%nat.
  change (drop 16 (NO_MODULE_NAMED ++ r0)) with r0.
  destruct r0 as [|q r]; [done |].
  destruct (is_quote q) eqn:Hq; [|done].
  change (drop 17 (NO_MODULE_NAMED ++ q :: r)) with r.
  rewrite (greedy_run (fun c => negb (is_quote c))
             (fun s' => match s' with
                        | [] => None
                        | c :: s'' =>
                            if is_quote c
                            then Some (length (NO_MODULE_NAMED ++ q :: r) -
                                       length s'')%nat
                            else None
                        end)).
  2:{ intros c r' Hc. by destruct (is_quote c). }
  pose proof (run_length_le (fun c => negb (is_quote c)) r) as Hle.
  destruct (run_length (fun c => negb (is_quote c)) r) as [|n] eqn:Hn; [done |].
  change (S n <? 1)%nat with false. cbv beta iota.
  destruct (drop (S n) r) as [|c r'] eqn:Hd; [done |].
  rewrite <- Hn in Hd. pose proof (run_length_drop _ _ _ _ Hd) as Hc.
  rewrite Hn in Hd. cbv beta in Hc. destruct (is_quote c); [|done].
  apply (f_equal length) in Hd. rewrite length_drop in Hd. simpl in Hd.
  do 2 f_equal. rewrite length_app. change (length NO_MODULE_NAMED) with 16%nat.
  simpl. lia.
Qed.

(** ** The closed forms and the strings that the patterns match *)

Section RegexAgreement.
Context (U : unicode_db).

(** [match_line_no] gives the longest match of [line \d+]. *)
Lemma match_line_no_regex (s : str) (n : nat) :
  match_line_no U s = Some n <-> longest_match (LINE_NO_RE U) s n.
Proof.
  revert s n. apply longest_match_iff.
  - intros s n. unfold match_line_no.
    destruct (startswith LINE_SP s) eqn:Hs; [|done].
    apply startswith_spec in Hs as [r0 ->].
    change (drop 5 (LINE_SP ++ r0)) with r0.
    destruct (run_length (isdecimal U) r0) as [|k] eqn:Hk; [done |].
    intros [= <-]. pose proof (run_length_le (isdecimal U) r0) as Hle.
    rewrite Hk in Hle. split.
    + exists (LINE_SP ++ take (S k) r0), (drop (S k) r0). split_and!.
      * by rewrite <- app_assoc, take_drop.
      * rewrite length_app, length_take.
        change (length LINE_SP) with 5%nat. lia.
      * exists LINE_SP, (take (S k) r0). split_and!; [done | done |].
        split; [by destruct r0 |]. rewrite <- Hk. apply run_length_take.
    + intros k' (m & rest & Heq & <- & w1 & w2 & -> & -> & _ & Hall).
      rewrite <- app_assoc in Heq. apply app_inv_head in Heq as ->.
      pose proof (run_length_app_ge _ _ rest Hall). rewrite length_app.
      simpl. lia.
  - intros s k (m & rest & -> & _ & w1 & w2 & -> & -> & Hne & Hall).
    apply match_line_no_iff. destruct w2 as [|d w2]; [done |].
    apply Forall_cons in Hall as [Hd _].
    exists d, (w2 ++ rest). by rewrite <- app_assoc.
Qed.

Lemma not_dquote_elem (a : str) :
  Forall (fun c => not_dquote c = true) a <-> dquote ∉ a.
Proof.
  induction a as [|c a IH]; [split; [by intros _ ?%elem_of_nil | done] |].
  rewrite Forall_cons, not_elem_of_cons, IH. unfold not_dquote.
  destruct (N.eqb_spec c dquote); naive_solver.
Qed.

(** [match_file_path] gives the match of the pattern for quoted paths,
    which is the only one at its position. *)
Lemma match_file_path_regex (s : str) (n : nat) :
  match_file_path s = Some n <-> longest_match FILE_PATH_RE s n.
Proof.
  revert s n. apply longest_match_iff.
  - intros s n. unfold match_file_path.
    destruct (startswith FILE_Q s) eqn:Hs; [|done].
    apply startswith_spec in Hs as [r0 ->].
    change (drop 6 (FILE_Q ++ r0)) with r0.
    destruct (find_char dquote r0) as [i|] eqn:Hi; [|done].
    intros [= <-]. apply find_char_Some in Hi as (a & b & -> & <- & Ha).
    split.
    + exists (FILE_Q ++ a ++ [dquote]), b. split_and!.
      * by rewrite <- !app_assoc.
      * rewrite !length_app. simpl. lia.
      * exists FILE_Q, (a ++ [dquote]). split_and!; [done | done |].
        exists a, [dquote]. split_and!; [done | | done].
        by apply not_dquote_elem.
    + intros k' (m & rest & Heq & <- & w1 & w2 & -> & -> & a' & q & -> &
                 Ha' & ->).
      rewrite <- !app_assoc in Heq. apply app_inv_head in Heq.
      apply not_dquote_elem in Ha'.
      apply first_occurrence_unique in Heq as ->; [| done | done].
      rewrite !length_app. simpl. lia.
  - intros s k (m & rest & -> & _ & w1 & w2 & -> & -> & a & q & -> & _ & ->).
    apply match_file_path_iff. exists ((a ++ [dquote]) ++ rest).
    split; [by rewrite <- !app_assoc |].
    rewrite !elem_of_app, list_elem_of_singleton. auto.
Qed.

(** [match_tmp_name] gives the match of the pattern for temporary files,
    which is the only one at its position. *)
Lemma match_tmp_name_regex (s : str) (n : nat) :
  match_tmp_name U s = Some n <-> longest_match (TMP_NAME_RE U) s n.
Proof.
  revert s n. apply longest_match_iff.
  - intros s n. unfold match_tmp_name.
    destruct (startswith TMP s) eqn:Hs; [|done].
    apply startswith_spec in Hs as [r0 ->].
    change (drop 3 (TMP ++ r0)) with r0.
    destruct (run_length (isword U) r0) as [|k] eqn:Hk; [done |].
    change (drop (3 + S k) (TMP ++ r0)) with (drop (S k) r0).
    destruct (startswith DOT_PY (drop (S k) r0)) eqn:Hd; [|done].
    apply startswith_spec in Hd as [rest Hrest]. intros [= <-].
    pose proof (run_length_le (isword U) r0) as Hle. rewrite Hk in Hle.
    assert (r0 = take (S k) r0 ++ DOT_PY ++ rest) as Hr0
      by (by rewrite <- Hrest, take_drop).
    split.
    + exists (TMP ++ take (S k) r0 ++ DOT_PY), rest. split_and!.
      * rewrite <- !app_assoc. by rewrite <- Hr0.
      * rewrite !length_app, length_take.
        change (length TMP) with 3%nat. change (length DOT_PY) with 3%nat.
        lia.
      * exists TMP, (take (S k) r0 ++ DOT_PY). split_and!; [done | done |].
        exists (take (S k) r0), DOT_PY. split_and!; [done | | done].
        split; [by destruct r0 |]. rewrite <- Hk. apply run_length_take.
    + intros k' (m & rest' & Heq & <- & w1 & w2 & -> & -> & w & q & -> &
                 [Hne Hall] & ->).
      rewrite <- !app_assoc in Heq. apply app_inv_head in Heq.
      rewrite Heq in Hk.
      change (w ++ DOT_PY ++ rest') with (w ++ 46 :: [112; 121] ++ rest') in Hk.
      rewrite (run_length_stop _ w 46 _ Hall eq_refl) in Hk.
      rewrite !length_app. simpl. lia.
  - intros s k (m & rest & -> & _ & w1 & w2 & -> & -> & w & q & -> &
                [Hne Hall] & ->).
    apply match_tmp_name_iff. exists w, rest. by rewrite <- !app_assoc.
Qed.
End RegexAgreement.

(** [match_missing_module] gives the group of the match of the pattern for
    missing modules, which is the only one at its position: a quote, the
    group, made of one character or more that are not quotes, and a
    quote. *)
Lemma match_missing_module_regex (s g : str) :
  match_missing_module s = Some g <->
  exists q q' rest,
    s = NO_MODULE_NAMED ++ q :: g ++ q' :: rest /\
    matches MISSING_MODULE_RE (NO_MODULE_NAMED ++ q :: g ++ [q']).
Proof.
  rewrite match_missing_module_scan_eq. unfold match_missing_module_scan.
  split.
  - destruct (startswith NO_MODULE_NAMED s) eqn:Hs; [|done].
    apply startswith_spec in Hs as [r0 ->].
    change (drop 16 (NO_MODULE_NAMED ++ r0)) with r0.
    destruct r0 as [|q r]; [done |].
    destruct (is_quote q) eqn:Hq; [|done].
    destruct (run_length (fun c => negb (is_quote c)) r) as [|k] eqn:Hk;
      [done |].
    destruct (drop (S k) r) as [|q' rest] eqn:Hdrop; [done |].
    intros [= <-]. exists q, q', rest. split.
    + by rewrite <- Hdrop, take_drop.
    + exists NO_MODULE_NAMED, (q :: take (S k) r ++ [q']).
      split_and!; [done | done |].
      exists [q], (take (S k) r ++ [q']). split_and!; [done | by exists q |].
      exists (take (S k) r), [q']. split_and!; [done | | ].
      * split; [by destruct r |]. rewrite <- Hk. apply run_length_take.
      * exists q'. split; [done |]. rewrite <- Hk in Hdrop.
        apply run_length_drop in Hdrop. by destruct (is_quote q').
  - intros (q & q' & rest & -> & w1 & w2 & Heq & -> & w3 & w4 & -> &
            (c & -> & Hq) & w5 & w6 & -> & [Hne Hall] & (c' & -> & Hq')).
    apply app_inv_head in Heq. injection Heq as -> Heq.
    apply app_inj_tail in Heq as [-> ->].
    rewrite startswith_app.
    change (drop 16 (NO_MODULE_NAMED ++ c :: w5 ++ c' :: rest))
      with (c :: w5 ++ c' :: rest).
    cbv beta iota.
    rewrite Hq, (run_length_stop _ w5 c' rest Hall) by (by rewrite Hq').
    destruct w5 as [|a w5]; [done |]. cbn [length]. cbv beta iota.
    change (S (length w5)) with (length (a :: w5)).
    by rewrite drop_app_length, take_app_length.
Qed.

(** ** What each substitution leaves behind, and what the later ones keep *)

Section LineNumbers.
Context (U : unicode_db).
Context (matcher : str -> option nat) (repl repl' : str) (h : char).
Hypothesis matcher_head :
  forall s, matcher s <> None -> exists s', s = h :: s'.
Hypothesis repl_head : repl = h :: repl'.
Hypothesis h_letter : h = 108 \/ h = 70 \/ h = 116.

(** A substitution whose pattern starts with [l], [F] or [t] creates no
    line number at a place it leaves alone. *)
Lemma match_line_no_skip (c : char) (s : str) :
  match_line_no U (c :: s) = None ->
  match_line_no U (c :: re_sub matcher repl s) = None.
Proof.
  intros Hnone.
  destruct (match_line_no U (c :: re_sub matcher repl s)) eqn:Hm; [|done].
  exfalso.
  assert (Hm' : match_line_no U (c :: re_sub matcher repl s) <> None)
    by congruence.
  apply match_line_no_iff in Hm' as (d & r & Heq & Hd).
  simpl in Heq. injection Heq as -> Hsub.
  apply (re_sub_inv_prefix matcher repl h repl' matcher_head repl_head
           [105; 110; 101; 32; d]) in Hsub as (s' & -> & _).
  - assert (match_line_no U (108 :: [105; 110; 101; 32; d] ++ s') <> None)
      as Hc; [|done].
    apply match_line_no_iff. exists d, s'. done.
  - assert (d <> h).
    { intros ->. apply (isdecimal_not_ascii_letter U h Hd). lia. }
    repeat constructor; first [done | lia].
Qed.
End LineNumbers.

Section Preservation.
Context (U : unicode_db).

Local Abbreviation sub_line := (re_sub (match_line_no U) LINE_X).
Local Abbreviation sub_file := (re_sub match_file_path FILE_X).
Local Abbreviation sub_tmp := (re_sub (match_tmp_name U) TMPX_PY).

Local Ltac no_match :=
  match goal with
  | |- _ = None => reflexivity
  | |- _ <> None -> _ => let H := fresh in intros H; exfalso; apply H; reflexivity
  end.

Lemma clean_line_sub_line (s : str) : clean_line U (sub_line s).
Proof.
  apply (everywhere_re_sub _ _ _ (fun _ => True)).
  - done.
  - intros c t Hm _.
    by apply (match_line_no_skip U _ _ (drop 1 LINE_X) 108
                (match_line_no_head U)); [| left |].
  - intros u Hu. simpl. repeat split; first [no_match | done].
  - clear. induction s; simpl; auto.
Qed.

Lemma clean_line_sub_file (s : str) :
  clean_line U s -> clean_line U (sub_file s).
Proof.
  apply (everywhere_re_sub _ _ _ (fun t => match_line_no U t = None)).
  - done.
  - intros c t _ Hm.
    by apply (match_line_no_skip U _ _ (drop 1 FILE_X) 70
                match_file_path_head); [| right; left |].
  - intros u Hu. simpl. repeat split; first [no_match | done].
Qed.

Lemma clean_line_sub_tmp (s : str) :
  clean_line U s -> clean_line U (sub_tmp s).
Proof.
  apply (everywhere_re_sub _ _ _ (fun t => match_line_no U t = None)).
  - done.
  - intros c t _ Hm.
    by apply (match_line_no_skip U _ _ (drop 1 TMPX_PY) 116
                (match_tmp_name_head U)); [| right; right |].
  - intros u Hu. simpl. repeat split; first [no_match | done].
Qed.

Lemma dquote_sub_file (s : str) : dquote ∈ sub_file s -> dquote ∈ s.
Proof.
  apply elem_of_re_sub_matched.
  intros t (r & -> & Hr)%match_file_path_iff. apply elem_of_app. by right.
Qed.

Lemma dquote_sub_tmp (s : str) : dquote ∈ sub_tmp s -> dquote ∈ s.
Proof.
  intros [H|H]%elem_of_re_sub; [|done].
  by apply contains_char_spec in H.
Qed.

Lemma clean_file_sub_file (s : str) : clean_file (sub_file s).
Proof.
  apply (everywhere_re_sub _ _ _ (fun _ => True)).
  - no_match.
  - intros c t Hm _ (r & Heq & Hr)%match_file_path_iff. exfalso.
    simpl in Heq. injection Heq as -> Hsub.
    apply (re_sub_inv_prefix _ _ 70 (drop 1 FILE_X) match_file_path_head
             eq_refl [105; 108; 101; 32; 34]) in Hsub as (t' & -> & ->);
      [| by repeat constructor].
    apply dquote_sub_file in Hr.
    assert (match_file_path (FILE_Q ++ t') <> None) as Hc; [|done].
    apply match_file_path_iff. eauto.
  - intros u Hu. simpl. repeat split; first [no_match | done].
  - clear. induction s; simpl; auto.
Qed.

Lemma clean_file_sub_tmp (s : str) :
  clean_file s -> clean_file (sub_tmp s).
Proof.
  apply (everywhere_re_sub _ _ _
           (fun t => match_file_path t <> None -> startswith FILE_X t = true)).
  - no_match.
  - intros c t _ Hq (r & Heq & Hr)%match_file_path_iff.
    simpl in Heq. injection Heq as -> Hsub.
    apply (re_sub_inv_prefix _ _ 116 (drop 1 TMPX_PY) (match_tmp_name_head U)
             eq_refl [105; 108; 101; 32; 34]) in Hsub as (t' & -> & ->);
      [| by repeat constructor].
    apply dquote_sub_tmp in Hr.
    assert (match_file_path (FILE_Q ++ t') <> None) as Hc
      by (apply match_file_path_iff; eauto).
    apply Hq, startswith_spec in Hc as [r Heq].
    simpl in Heq. injection Heq as ->.
    change (startswith FILE_X (FILE_Q ++ sub_tmp ([88; 34] ++ r)) = true).
    rewrite (re_sub_app_ne _ _ 116 (match_tmp_name_head U));
      [done | by repeat constructor].
  - intros u Hu. simpl. repeat split; first [no_match | done].
Qed.

(** A run of word characters before a dot in the output comes from one in
    the input, and a [py] after the dot from one in the input. *)
Lemma sub_tmp_word_run (s w r : str) :
  w <> [] -> Forall (fun c => isword U c = true) w ->
  sub_tmp s = w ++ 46 :: r ->
  exists w' r', s = w' ++ 46 :: r' /\ w' <> [] /\
                Forall (fun c => isword U c = true) w' /\
                (startswith [112; 121] r = true ->
                 startswith [112; 121] r' = true).
Proof.
  remember (length s) as k eqn:Hk.
  revert s w Hk. induction (lt_wf k) as [k _ IH]; intros s w -> Hw Hall.
  destruct s as [|c s]; [by destruct w |].
  rewrite re_sub_cons. destruct (match_tmp_name U (c :: s)) as [n|] eqn:Hm.
  - intros _.
    assert (match_tmp_name U (c :: s) <> None) as Hm' by congruence.
    apply match_tmp_name_iff in Hm' as (w0 & r0 & -> & Hw0 & Hall0).
    exists (TMP ++ w0), ([112; 121] ++ r0). split_and!.
    + by rewrite <- app_assoc.
    + done.
    + apply Forall_app. split; [by repeat constructor | done].
    + done.
  - destruct w as [|c' w]; [done |].
    intros Hsub. simpl in Hsub. injection Hsub as <- Hsub.
    apply Forall_cons in Hall as [Hc Hall].
    destruct w as [|c'' w].
    + simpl in Hsub.
      apply (re_sub_inv_ne _ _ 116 (drop 1 TMPX_PY) (match_tmp_name_head U)
               eq_refl) in Hsub as (s2 & -> & ->); [|done].
      exists [c], s2. split_and!; [done | done | by repeat constructor |].
      intros [r' Hr']%startswith_spec.
      apply (re_sub_inv_prefix _ _ 116 (drop 1 TMPX_PY)
               (match_tmp_name_head U) eq_refl [112; 121])
        in Hr' as (s3 & -> & _); [done | by repeat constructor].
    + apply (IH (length s)) in Hsub as (w' & r' & -> & Hw' & Hall' & Hpy);
        [| simpl; lia | done | done | done].
      exists (c :: w'), r'. split_and!; [done | done | by constructor | done].
Qed.

Lemma clean_tmp_sub_tmp (s : str) : clean_tmp U (sub_tmp s).
Proof.
  apply (everywhere_re_sub _ _ _ (fun _ => True)).
  - no_match.
  - intros c t Hm _ (w & r & Heq & Hw & Hall)%match_tmp_name_iff. exfalso.
    simpl in Heq. injection Heq as -> Hsub.
    apply (re_sub_inv_prefix _ _ 116 (drop 1 TMPX_PY) (match_tmp_name_head U)
             eq_refl [109; 112]) in Hsub as (t' & -> & Hsub);
      [| by repeat constructor].
    symmetry in Hsub.
    apply (sub_tmp_word_run _ w ([112; 121] ++ r)) in Hsub
      as (w' & r' & -> & Hw' & Hall' & Hpy); [| done | done].
    specialize (Hpy eq_refl). apply startswith_spec in Hpy as [r'' ->].
    assert (match_tmp_name U (TMP ++ w' ++ DOT_PY ++ r'') <> None) as Hc;
      [|done].
    apply match_tmp_name_iff. eauto.
  - intros u Hu. simpl. repeat split; first [no_match | done].
  - clear. induction s; simpl; auto.
Qed.
End Preservation.

(** ** Lines: [split], [strip] and [join] *)

Lemma join_cons (sep : char) (l : str) (ls : list str) :
  join sep (l :: ls) = l ++ join_tail sep ls.
Proof. destruct ls; simpl; [by rewrite app_nil_r | done]. Qed.

Lemma split_not_nil (sep : char) (s : str) : split sep s <> [].
Proof.
  destruct s as [|c s]; simpl; [done |].
  destruct (c =? sep); [done |]. by destruct (split sep s).
Qed.

Lemma join_split (sep : char) (s : str) : join sep (split sep s) = s.
Proof.
  induction s as [|c s IH]; [done |]. simpl split.
  destruct (N.eqb_spec c sep) as [->|Hne].
  - rewrite join_cons. pose proof (split_not_nil sep s).
    unfold join_tail. destruct (split sep s); [done |]. by rewrite IH.
  - destruct (split sep s) as [|l ls] eqn:Hs; [by destruct (split_not_nil sep s) |].
    rewrite join_cons in IH |- *. simpl. by rewrite IH.
Qed.

Lemma split_sep_free (sep : char) (s : str) :
  Forall (fun l => sep ∉ l) (split sep s).
Proof.
  induction s as [|c s IH]; simpl.
  - repeat constructor. by intros ?%elem_of_nil.
  - destruct (N.eqb_spec c sep) as [->|Hne].
    + constructor; [by intros ?%elem_of_nil | done].
    + destruct (split sep s) as [|l ls] eqn:Hs; [by destruct (split_not_nil sep s) |].
      apply Forall_cons in IH as [Hl Hls]. constructor; [|done].
      rewrite not_elem_of_cons. done.
Qed.

Lemma split_sep_free_line (sep : char) (l : str) :
  sep ∉ l -> split sep l = [l].
Proof.
  induction l as [|c l IH]; [done |].
  rewrite not_elem_of_cons. intros [Hc Hl]. simpl.
  destruct (N.eqb_spec c sep) as [->|_]; [done |]. by rewrite IH.
Qed.

Lemma split_app_sep (sep : char) (l r : str) :
  sep ∉ l -> split sep (l ++ sep :: r) = l :: split sep r.
Proof.
  induction l as [|c l IH]; simpl.
  - intros _. by rewrite N.eqb_refl.
  - rewrite not_elem_of_cons. intros [Hc Hl].
    destruct (N.eqb_spec c sep) as [->|_]; [done |]. by rewrite IH.
Qed.

Lemma split_join (sep : char) (ls : list str) :
  ls <> [] -> Forall (fun l => sep ∉ l) ls -> split sep (join sep ls) = ls.
Proof.
  intros Hne Hall. induction Hall as [|l ls Hl Hls IH]; [done |].
  destruct ls as [|l' ls].
  - by apply split_sep_free_line.
  - change (join sep (l :: l' :: ls)) with (l ++ sep :: join sep (l' :: ls)).
    rewrite split_app_sep by done. by rewrite IH.
Qed.

Section Strip.
Context (U : unicode_db).

Local Abbreviation spaces := (Forall (fun c => isspace U c = true)).

Lemma lstrip_spec (s : str) :
  exists w, s = w ++ lstrip U s /\ spaces w.
Proof.
  induction s as [|c s (w & Hw & Hall)]; simpl.
  - exists []. by split.
  - destruct (isspace U c) eqn:Hc.
    + exists (c :: w). split; [simpl; congruence | by constructor].
    + exists []. by split.
Qed.

Lemma lstrip_head (s : str) (c : char) (r : str) :
  lstrip U s = c :: r -> isspace U c = false.
Proof.
  induction s as [|a s IH]; simpl; [done |].
  destruct (isspace U a) eqn:Ha; [done |]. by intros [= <- _].
Qed.

Lemma lstrip_fixed (c : char) (r : str) :
  isspace U c = false -> lstrip U (c :: r) = c :: r.
Proof. intros Hc. simpl. by rewrite Hc. Qed.

Lemma rstrip_spec (s : str) :
  exists w, s = rstrip U s ++ w /\ spaces w.
Proof.
  induction s as [|c s (w & Hw & Hall)]; simpl.
  - exists []. by split.
  - destruct (rstrip U s) as [|a r] eqn:Hr.
    + simpl in Hw. subst w. destruct (isspace U c) eqn:Hc.
      * exists (c :: s). split; [done | by constructor].
      * exists s. by split.
    + exists w. split; [simpl; f_equal; exact Hw | done].
Qed.

Lemma rstrip_idemp (s : str) : rstrip U (rstrip U s) = rstrip U s.
Proof.
  induction s as [|c s IH]; simpl; [done |].
  destruct (rstrip U s) as [|a r] eqn:Hr.
  - destruct (isspace U c) eqn:Hc; simpl; [done | by rewrite Hc].
  - simpl in IH |- *. by rewrite IH.
Qed.

Lemma rstrip_head (s : str) (c : char) (r : str) :
  rstrip U s = c :: r -> exists r', s = c :: r'.
Proof.
  destruct (rstrip_spec s) as (w & Hw & _). intros Hr.
  rewrite Hr in Hw. simpl in Hw. eauto.
Qed.

Lemma strip_spec (s : str) :
  exists w1 w2, s = w1 ++ strip U s ++ w2 /\ spaces w1 /\ spaces w2.
Proof.
  destruct (lstrip_spec s) as (w1 & H1 & Hw1).
  destruct (rstrip_spec (lstrip U s)) as (w2 & H2 & Hw2).
  exists w1, w2. unfold strip. by rewrite <- H2.
Qed.

Lemma strip_head (s : str) (c : char) (r : str) :
  strip U s = c :: r -> isspace U c = false.
Proof.
  unfold strip. intros [r' Hr']%rstrip_head. by eapply lstrip_head.
Qed.

Lemma strip_idemp (s : str) : strip U (strip U s) = strip U s.
Proof.
  destruct (strip U s) as [|c r] eqn:Hs; [done |].
  unfold strip. rewrite lstrip_fixed by (by eapply strip_head).
  rewrite <- Hs. unfold strip. apply rstrip_idemp.
Qed.

Lemma strip_sep_free (x : char) (s : str) : x ∉ s -> x ∉ strip U s.
Proof.
  destruct (strip_spec s) as (w1 & w2 & Hs & _). intros Hx Hin.
  apply Hx. rewrite Hs, !elem_of_app. auto.
Qed.
End Strip.

Lemma everywhere_app_intro (P : str -> Prop) (a b : str) :
  (forall a1 a2, a = a1 ++ a2 -> a2 <> [] -> P (a2 ++ b)) ->
  everywhere P b -> everywhere P (a ++ b).
Proof.
  intros Ha Hb. induction a as [|c a IH]; [done |]. split.
  - by apply (Ha [] (c :: a)).
  - apply IH. intros a1 a2 -> Hne. by apply (Ha (c :: a1) a2).
Qed.

Lemma startswith_app_long (q p a b : str) :
  (length q <= length p)%nat -> startswith q (p ++ a) = startswith q (p ++ b).
Proof.
  revert p. induction q as [|x q IH]; intros p Hlen; [done |].
  destruct p as [|c p]; simpl in *; [lia |].
  f_equal. apply IH. lia.
Qed.

Lemma app_prefix_nl (p r t y : str) :
  p ++ r = t ++ y -> nl_headed y -> nl ∉ p -> exists r0, t = p ++ r0.
Proof.
  revert t. induction p as [|a p IH]; intros t Heq Hy Hp; [by exists t |].
  apply not_elem_of_cons in Hp as [Ha Hp].
  destruct t as [|b t]; simpl in Heq.
  - destruct y as [|c y]; [done |]. simpl in Hy. simplify_eq.
  - injection Heq as -> Heq. destruct (IH t Heq Hy Hp) as [r0 ->]. by exists r0.
Qed.

Section CoreLines.
Context (U : unicode_db).

Lemma core_error_of_cons (l : str) (ls : list str) :
  core_error_of U (l :: ls) =
  match strip U l with
  | [] => core_error_of U ls
  | _ :: _ =>
      if startswith FRAME l then core_error_of U ls
      else strip U l :: core_error_of U ls
  end.
Proof. reflexivity. Qed.

Lemma startswith_frame_nonspace (a : char) (r : str) :
  isspace U a = false -> startswith FRAME (a :: r) = false.
Proof.
  intros Ha.
  change (startswith FRAME (a :: r))
    with ((32 =? a) && startswith (drop 1 FRAME) r).
  by destruct (N.eqb_spec 32 a) as [<-|_].
Qed.

Lemma elem_join_tail_core (x : char) (ls : list str) :
  x ∈ join_tail nl (core_error_of U ls) -> x ∈ join_tail nl ls.
Proof.
  induction ls as [|l ls IH]; [done |].
  change (join_tail nl (l :: ls)) with (nl :: join nl (l :: ls)).
  rewrite join_cons, elem_of_cons, elem_of_app, core_error_of_cons.
  destruct (strip U l) as [|c r] eqn:Hs; [by auto |].
  destruct (startswith FRAME l); [by auto |].
  change (join_tail nl ((c :: r) :: core_error_of U ls))
    with (nl :: join nl ((c :: r) :: core_error_of U ls)).
  rewrite join_cons, elem_of_cons, elem_of_app.
  intros [?|[Hx|?]]; [by left | | by auto].
  right; left. destruct (strip_spec U l) as (w1 & w2 & -> & _).
  rewrite Hs, !elem_of_app. auto.
Qed.

(** A property of every suffix that survives the removal of whole lines
    and of the whitespace around the others. *)
Lemma core_error_everywhere (P : str -> Prop) :
  P [] ->
  (forall u, P (nl :: u)) ->
  (forall t y y', ws_headed U y -> nl_headed y' ->
                  (dquote ∈ y' -> dquote ∈ y) -> P (t ++ y) -> P (t ++ y')) ->
  forall ls, everywhere P (join nl ls) ->
             everywhere P (join nl (core_error_of U ls)).
Proof.
  intros Hnil Hnl Hmove ls. induction ls as [|l ls IH]; [done |].
  rewrite join_cons. intros Hl.
  assert (everywhere P (join nl ls)) as Hls.
  { apply everywhere_app_r in Hl. destruct ls; [done |]. apply Hl. }
  specialize (IH Hls). rewrite core_error_of_cons.
  destruct (strip U l) as [|c r] eqn:Hs; [done |].
  destruct (startswith FRAME l); [done |].
  rewrite join_cons. apply everywhere_app_intro.
  - intros a1 a2 Heq _.
    destruct (strip_spec U l) as (w1 & w2 & Hw & _ & Hw2).
    rewrite Hs, Heq in Hw. rewrite Hw, <- !app_assoc in Hl.
    do 2 apply everywhere_app_r in Hl. apply everywhere_head in Hl.
    revert Hl. apply Hmove.
    + destruct Hw2 as [|x w2 Hx _]; [|done].
      destruct ls; [done | reflexivity].
    + by destruct (core_error_of U ls).
    + intros Hq%elem_join_tail_core. apply elem_of_app. by right.
  - destruct (core_error_of U ls); [done |]. split; [apply Hnl | done].
Qed.

Lemma isdecimal_nl : isdecimal U nl = false.
Proof. reflexivity. Qed.

Lemma clean_line_core (ls : list str) :
  clean_line U (join nl ls) -> clean_line U (join nl (core_error_of U ls)).
Proof.
  apply core_error_everywhere; [done | done |].
  intros t y y' _ Hy' _ Hnone.
  destruct (match_line_no U (t ++ y')) eqn:Hm; [exfalso | done].
  assert (match_line_no U (t ++ y') <> None) as Hm' by congruence.
  apply match_line_no_iff in Hm' as (d & r & Heq & Hd). symmetry in Heq.
  apply (app_prefix_nl [108; 105; 110; 101; 32; d] r) in Heq as [r0 ->];
    [| done |].
  - assert (match_line_no U (([108; 105; 110; 101; 32; d] ++ r0) ++ y) <> None)
      as Hc; [|done].
    apply match_line_no_iff. exists d, (r0 ++ y). done.
  - rewrite !not_elem_of_cons. split_and!; try done.
    + intros <-. by rewrite isdecimal_nl in Hd.
    + by intros ?%elem_of_nil.
Qed.

Lemma clean_tmp_core (ls : list str) :
  clean_tmp U (join nl ls) -> clean_tmp U (join nl (core_error_of U ls)).
Proof.
  apply core_error_everywhere.
  - intros H. by destruct H.
  - intros u H. by destruct H.
  - intros t y y' _ Hy' _ Hp (w & r & Heq & Hw & Hall)%match_tmp_name_iff.
    rewrite !app_assoc in Heq. symmetry in Heq.
    apply app_prefix_nl in Heq as [r0 ->]; [| done |].
    + rewrite <- (startswith_app_long _ _ y).
      * apply Hp, match_tmp_name_iff. exists w, (r0 ++ y).
        by rewrite <- !app_assoc.
      * destruct w; [done |]. rewrite !length_app. simpl. lia.
    + rewrite !not_elem_of_app. split_and!; [by compute; set_solver | |
        by compute; set_solver].
      intros Hin. rewrite Forall_forall in Hall. by apply Hall in Hin.
Qed.

Lemma clean_file_core (ls : list str) :
  clean_file (join nl ls) -> clean_file (join nl (core_error_of U ls)).
Proof.
  apply core_error_everywhere.
  - intros H. by destruct H.
  - intros u H. by destruct H.
  - intros t y y' Hy Hy' Hq Hp (r & Heq & Hr)%match_file_path_iff.
    pose proof (eq_sym Heq) as Heq'.
    apply app_prefix_nl in Heq' as [t' ->]; [| done | by compute; set_solver].
    rewrite <- app_assoc in Heq. apply app_inv_head in Heq as <-.
    assert (match_file_path ((FILE_Q ++ t') ++ y) <> None) as Hm.
    { apply match_file_path_iff. exists (t' ++ y).
      split; [by rewrite <- app_assoc |].
      apply elem_of_app in Hr as [?|?]; apply elem_of_app; auto. }
    apply Hp, startswith_spec in Hm as [r' Heq].
    rewrite <- app_assoc in Heq. simpl in Heq. injection Heq as Heq.
    destruct t' as [|a [|b t']]; simpl in Heq.
    + subst y. done.
    + injection Heq as -> ->. done.
    + injection Heq as -> -> _. done.
Qed.

Lemma core_error_of_stripped (ls : list str) :
  Forall (fun l => nl ∉ l) ls ->
  Forall (fun c => c <> [] /\ strip U c = c /\ nl ∉ c) (core_error_of U ls).
Proof.
  induction 1 as [|l ls Hl _ IH]; [done |]. rewrite core_error_of_cons.
  destruct (strip U l) as [|c r] eqn:Hs; [done |].
  destruct (startswith FRAME l); [done |].
  constructor; [|done]. rewrite <- Hs. split_and!.
  - by rewrite Hs.
  - apply strip_idemp.
  - by apply strip_sep_free.
Qed.

Lemma core_error_of_fixed (cs : list str) :
  Forall (fun c => c <> [] /\ strip U c = c /\ nl ∉ c) cs ->
  core_error_of U cs = cs.
Proof.
  induction 1 as [|c cs (Hne & Hs & _) _ IH]; [done |].
  rewrite core_error_of_cons, Hs. destruct c as [|a r]; [done |].
  apply strip_head in Hs. by rewrite startswith_frame_nonspace, IH.
Qed.

Lemma normalize_error_cons (c : char) (x : str) :
  normalize_error U (c :: x) =
  join nl (core_error_of U (split nl
    (re_sub (match_tmp_name U) TMPX_PY
       (re_sub match_file_path FILE_X
          (re_sub (match_line_no U) LINE_X (c :: x)))))).
Proof.
  unfold normalize_error.
  rewrite (re_sub_ext _ _ _ _ (regex_match_line_no U)).
  rewrite (re_sub_ext _ _ _ _ regex_match_file_path).
  by rewrite (re_sub_ext _ _ _ _ (regex_match_tmp_name U)).
Qed.

(** C8.  The error normalizer is idempotent: normalizing a normalized
    error message gives it back unchanged. *)
Theorem normalize_error_idempotent (x : str) :
  normalize_error U (normalize_error U x) = normalize_error U x.
Proof.
  destruct x as [|c x]; [done |]. rewrite normalize_error_cons.
  set (n := re_sub (match_tmp_name U) TMPX_PY _).
  assert (clean_line U n /\ clean_file n /\ clean_tmp U n) as (H1 & H2 & H3).
  { split_and!.
    - apply clean_line_sub_tmp, clean_line_sub_file, clean_line_sub_line.
    - apply clean_file_sub_tmp, clean_file_sub_file.
    - apply clean_tmp_sub_tmp. }
  rewrite <- (join_split nl n) in H1, H2, H3.
  apply clean_line_core in H1. apply clean_file_core in H2.
  apply clean_tmp_core in H3.
  pose proof (core_error_of_stripped _ (split_sep_free nl n)) as Hcs.
  destruct (core_error_of U (split nl n)) as [|l cs] eqn:Hcore; [done |].
  destruct (join nl (l :: cs)) as [|a out] eqn:Hout.
  { apply Forall_cons in Hcs as [(Hne & _) _]. rewrite join_cons in Hout.
    by destruct l. }
  rewrite normalize_error_cons.
  rewrite sub_line_fixed, sub_file_fixed, sub_tmp_fixed by done.
  rewrite <- Hout, split_join.
  - by rewrite core_error_of_fixed.
  - done.
  - eapply Forall_impl; [exact Hcs | by intros ? (_ & _ & ?)].
Qed.
End CoreLines.

(** ** The evaluator *)

Lemma str_eqb_true (a b : str) : str_eqb a b = true <-> a = b.
Proof. unfold str_eqb. apply bool_decide_eq_true. Qed.

(** C1.  When both outputs, stripped, are read by [float], the outputs are
    equivalent exactly when the absolute value of the difference of the two
    floats is below [1e-6]; when [float] rejects one of them, they are
    equivalent exactly when the stripped strings are equal (the whitespace
    inside the strings counts). *)
Theorem evaluate_output_spec (U : unicode_db)
  (actual_output expected_output : str) :
  (forall actual expected,
     float_of_str U (strip U actual_output) = Some actual ->
     float_of_str U (strip U expected_output) = Some expected ->
     (evaluate_output U actual_output expected_output = true <->
      float_lt (float_abs (float_sub actual expected)) TOLERANCE = true)) /\
  (float_of_str U (strip U actual_output) = None \/
   float_of_str U (strip U expected_output) = None ->
   (evaluate_output U actual_output expected_output = true <->
    strip U actual_output = strip U expected_output)).
Proof.
  unfold evaluate_output. split.
  - intros actual expected -> ->. done.
  - intros [->| ->]; [apply str_eqb_true |].
    destruct (float_of_str U (strip U actual_output)); apply str_eqb_true.
Qed.

Lemma evaluate_output_spec_witness :
  evaluate_output ascii_only (lit "3.0000001") (lit "3.0") = true /\
  ~ evaluate_output ascii_only (lit "3.01") (lit "3.0") = true /\
  evaluate_output ascii_only (lit " hi ") (lit "hi") = true /\
  ~ evaluate_output ascii_only (lit "Hi") (lit "hi") = true.
Proof.
  assert (float_of_str ascii_only (strip ascii_only (lit "3.0")) =
          Some (float_of_decimal false 3 0)) as H30
    by (vm_compute; reflexivity).
  assert (float_of_str ascii_only (strip ascii_only (lit "3.0000001")) =
          Some (float_of_decimal false 30000001 (-7))) as Hnear
    by (vm_compute; reflexivity).
  assert (float_of_str ascii_only (strip ascii_only (lit "3.01")) =
          Some (float_of_decimal false 301 (-2))) as Hfar
    by (vm_compute; reflexivity).
  assert (float_of_str ascii_only (strip ascii_only (lit " hi ")) = None)
    as Hhi by (vm_compute; reflexivity).
  assert (float_of_str ascii_only (strip ascii_only (lit "Hi")) = None)
    as HHi by (vm_compute; reflexivity).
  split_and!.
  - apply (proj1 (evaluate_output_spec ascii_only _ _) _ _ Hnear H30).
    vm_compute. reflexivity.
  - intros H.
    apply (proj1 (evaluate_output_spec ascii_only _ _) _ _ Hfar H30) in H.
    vm_compute in H. discriminate.
  - apply (proj2 (evaluate_output_spec ascii_only _ _) (or_introl Hhi)).
    vm_compute. reflexivity.
  - intros H.
    apply (proj2 (evaluate_output_spec ascii_only _ _) (or_introl HHi)) in H.
    vm_compute in H. discriminate.
Defined.

(** C9.  The evaluator is not reflexive: a string that [float] reads as an
    infinity or as a NaN is not equivalent to itself, since the numeric
    branch is taken and the difference is a NaN, which is below nothing. *)
Theorem evaluate_output_not_reflexive (U : unicode_db) (s : str) (x : float) :
  float_of_str U (strip U s) = Some x ->
  float_is_finite x = false ->
  evaluate_output U s s = false.
Proof.
  intros Hx Hfin. unfold evaluate_output. rewrite Hx.
  destruct x as [| [|] | |]; try discriminate; reflexivity.
Qed.

Lemma evaluate_output_not_reflexive_witness :
  evaluate_output ascii_only (lit "nan") (lit "nan") = false /\
  evaluate_output ascii_only (lit "inf") (lit "inf") = false.
Proof.
  split.
  - apply (evaluate_output_not_reflexive ascii_only (lit "nan") S754_nan);
      vm_compute; reflexivity.
  - apply (evaluate_output_not_reflexive ascii_only (lit "inf")
             (S754_infinity false)); vm_compute; reflexivity.
Defined.

(** ** The executor *)

Section ExecutorFacts.
Context {W : Type} (E : env W) (U : unicode_db).

Lemma run_code_unfold (code input_data : str) (w : world W) :
  run_code E U code input_data w =
  (match snd (fst (run_code_try E U code input_data w)) with
   | inr v => inr v
   | inl e => run_code_except e
   end,
   snd (run_code_finally E (fst (fst (run_code_try E U code input_data w)))
          (snd (run_code_try E U code input_data w)))).
Proof.
  unfold run_code, bind, ret.
  destruct (run_code_try E U code input_data w) as [[temp_file r] w1]. simpl.
  by destruct (run_code_finally E temp_file w1).
Qed.

Lemma run_code_except_inr (e : exn) :
  exists err, err <> [] /\ run_code_except e = inr ([], err).
Proof. destruct e; simpl; eexists; (split; [|reflexivity]); done. Qed.

Lemma run_code_inr (code input_data : str) (w : world W) :
  exists output error w',
    run_code E U code input_data w = (inr (output, error), w').
Proof.
  rewrite run_code_unfold.
  destruct (snd (fst (run_code_try E U code input_data w))) as [e|[out err]].
  - destruct (run_code_except_inr e) as (err & _ & ->). eauto.
  - eauto.
Qed.

(** The events that [call] adds. *)
Lemma call_eq {A : Type} (ev : event) (f : W -> A * W) (w : world W) :
  call ev f w =
  (fst (f (outside w)),
   {| outside := snd (f (outside w)); trace := trace w ++ [ev] |}).
Proof. unfold call. by destruct (f (outside w)). Qed.

Lemma run_code_try_first_run (code input_data : str) (w : world W)
  (name : str) (result : CompletedProcess) (o : W) :
  first_run E code input_data w name result o ->
  run_code_try E U code input_data w =
  (let r := after_first_run E U name input_data result
              {| outside := o;
                 trace := trace w ++ first_run_events code input_data name |}
   in ((Some name, fst r), snd r)).
Proof.
  intros (o1 & o2 & o3 & H1 & H2 & H3 & H4).
  unfold run_code_try, run_python, run, bind, ret.
  unfold first_run_events, python_event.
  rewrite call_eq, H1. cbn [fst snd outside trace]. rewrite call_eq.
  cbn [fst snd outside trace]. rewrite H2. cbn [fst snd]. rewrite call_eq.
  cbn [fst snd outside trace]. rewrite H3. cbn [fst snd]. rewrite call_eq.
  cbn [fst snd outside trace]. rewrite H4. cbn [fst snd].
  rewrite <- !app_assoc. cbn [app].
  by destruct (after_first_run E U name input_data result _).
Qed.

Lemma run_code_finally_cleanup (temp_file : option str) (w : world W) :
  exists cleanup,
    trace (snd (run_code_finally E temp_file w)) = trace w ++ cleanup /\
    forallb is_cleanup cleanup = true.
Proof.
  destruct temp_file as [path|]; simpl; [| exists []; by rewrite app_nil_r].
  destruct (nonempty path); [| exists []; by rewrite app_nil_r].
  unfold bind, ret. rewrite call_eq.
  destruct (path_exists E path (outside w)) as [[|] o]; simpl.
  - rewrite call_eq. destruct (os_remove E path o) as [r o']. simpl.
    exists [PathExists path; OsRemove path]. by rewrite <- app_assoc.
  - by exists [PathExists path].
Qed.

Lemma after_first_run_plain (name input_data : str)
  (result : CompletedProcess) (w : world W) :
  (forall m, ~ reports_missing_module U result m) ->
  after_first_run E U name input_data result w =
  (inr (strip U (stdout result), strip U (stderr result)), w).
Proof.
  intros Hno. unfold after_first_run.
  destruct (strip U (stderr result)) as [|c err] eqn:Herr; [done |].
  simpl nonempty. rewrite andb_true_l.
  destruct (contains MODULE_NOT_FOUND (c :: err)) eqn:Hc; [|done].
  destruct (search_missing_module (c :: err)) as [m|] eqn:Hs; [|done].
  destruct (Hno m). unfold reports_missing_module. by rewrite Herr.
Qed.

Lemma after_first_run_missing (name input_data : str)
  (result : CompletedProcess) (m : str) (w : world W) :
  reports_missing_module U result m ->
  after_first_run E U name input_data result w =
  if succeeded (fst (pip_answer E (outside w) m)) then
    (match fst (retry_answer E (outside w) m name input_data) with
     | inl e => inl e
     | inr retry_result =>
         inr (strip U (stdout retry_result), strip U (stderr retry_result))
     end,
     {| outside := snd (retry_answer E (outside w) m name input_data);
        trace := trace w ++ [install_event m; python_event name input_data] |})
  else
    (inr ([], FAILED_TO_INSTALL ++ m ++ [squote]),
     {| outside := snd (pip_answer E (outside w) m);
        trace := trace w ++ [install_event m] |}).
Proof.
  intros (Hne & Hc & Hs). unfold after_first_run, retry_answer, pip_answer.
  rewrite Hc, Hs. destruct (strip U (stderr result)) as [|c err]; [done |].
  cbn [nonempty andb].
  unfold install_package, run_python, run, bind, ret. rewrite call_eq.
  destruct (subprocess_run E [lit "pip"; lit "install"; m] None
              INSTALL_TIMEOUT (outside w)) as [[e|done_] o]; cbn [fst snd succeeded].
  - by destruct e.
  - destruct (returncode done_ =? 0)%Z; [|done].
    rewrite call_eq. cbn [outside trace]. rewrite <- app_assoc.
    by destruct (subprocess_run E _ _ _ o) as [[e|r2] o'].
Qed.

(** The whole of [run_code] on its recovery path. *)
Lemma run_code_missing_module (code input_data : str) (w : world W)
  (name : str) (result : CompletedProcess) (o : W) (m : str) :
  first_run E code input_data w name result o ->
  reports_missing_module U result m ->
  exists cleanup,
    forallb is_cleanup cleanup = true /\
    fst (run_code E U code input_data w) =
    (if succeeded (fst (pip_answer E o m)) then
       match fst (retry_answer E o m name input_data) with
       | inl e => run_code_except e
       | inr retry_result =>
           inr (strip U (stdout retry_result), strip U (stderr retry_result))
       end
     else inr ([], FAILED_TO_INSTALL ++ m ++ [squote])) /\
    trace (snd (run_code E U code input_data w)) =
    trace w ++ first_run_events code input_data name ++
    (if succeeded (fst (pip_answer E o m))
     then [install_event m; python_event name input_data]
     else [install_event m]) ++ cleanup.
Proof.
  intros Hfirst Hmiss.
  rewrite run_code_unfold, (run_code_try_first_run _ _ _ _ _ _ Hfirst).
  cbv zeta. cbn [fst snd].
  rewrite (after_first_run_missing _ _ _ _ _ Hmiss). cbn [outside trace].
  match goal with |- context [run_code_finally E ?t ?x] =>
    destruct (run_code_finally_cleanup t x) as (cleanup & Htr & Hcl) end.
  exists cleanup. split; [done |]. rewrite Htr.
  destruct (succeeded (fst (pip_answer E o m))); cbn [fst snd trace].
  - split; [| by rewrite <- !app_assoc].
    by destruct (fst (retry_answer E o m name input_data)).
  - split; [done | by rewrite <- !app_assoc].
Qed.

Lemma rstrip_fixed (s : str) (d : char) :
  isspace U d = false -> rstrip U (s ++ [d]) = s ++ [d].
Proof.
  intros Hd. induction s as [|c s IH]; simpl; [by rewrite Hd |].
  rewrite IH. by destruct (s ++ [d]) eqn:Hs; [destruct s |].
Qed.

Lemma strip_fixed (c : char) (s : str) (d : char) :
  isspace U c = false -> isspace U d = false ->
  strip U (c :: s ++ [d]) = c :: s ++ [d].
Proof.
  intros Hc Hd. unfold strip. rewrite lstrip_fixed by done.
  apply (rstrip_fixed (c :: s) d Hd).
Qed.

(** The [try] block ends with an exception or with what
    [after_first_run] returns. *)
Lemma run_code_try_cases (code input_data : str) (w : world W) :
  (exists e, snd (fst (run_code_try E U code input_data w)) = inl e) \/
  (exists name result w1,
     snd (fst (run_code_try E U code input_data w)) =
     fst (after_first_run E U name input_data result w1)).
Proof.
  unfold run_code_try, run_python, run, bind, ret. rewrite call_eq.
  destruct (named_temporary_file E (outside w)) as [[e|name] o1];
    cbn [fst snd]; [by eauto |].
  rewrite call_eq. cbn [fst snd outside trace].
  destruct (file_write E name code o1) as [[e|[]] o2]; cbn [fst snd].
  { rewrite call_eq. cbn [fst snd outside trace].
    destruct (file_close E name o2) as [[e'|[]] o3]; cbn [fst snd]; eauto. }
  rewrite call_eq. cbn [fst snd outside trace].
  destruct (file_close E name o2) as [[e|[]] o3]; cbn [fst snd];
    [by eauto |].
  rewrite call_eq. cbn [fst snd outside trace].
  destruct (subprocess_run E _ _ _ o3) as [[e|result] o4]; cbn [fst snd];
    [by eauto |].
  match goal with
  | |- context [after_first_run E U name input_data result ?x] =>
      set (w1 := x)
  end.
  right. exists name, result, w1.
  by destruct (after_first_run E U name input_data result w1).
Qed.

Lemma after_first_run_stripped (name input_data : str)
  (result : CompletedProcess) (w : world W) (out err : str) :
  fst (after_first_run E U name input_data result w) = inr (out, err) ->
  strip U out = out /\ strip U err = err.
Proof.
  unfold after_first_run.
  destruct (nonempty (strip U (stderr result)) &&
            contains MODULE_NOT_FOUND (strip U (stderr result))).
  2: { cbn. intros [= <- <-]. by rewrite !strip_idemp. }
  destruct (search_missing_module (strip U (stderr result))) as [m|].
  2: { cbn. intros [= <- <-]. by rewrite !strip_idemp. }
  unfold install_package, run_python, run, bind, ret. rewrite call_eq.
  assert (strip U (FAILED_TO_INSTALL ++ m ++ [squote]) =
          FAILED_TO_INSTALL ++ m ++ [squote]) as Hmsg.
  { apply (strip_fixed 70 (drop 1 FAILED_TO_INSTALL ++ m) squote);
      reflexivity. }
  destruct (subprocess_run E _ None _ (outside w)) as [[e|done_] o5];
    cbn [fst snd].
  - destruct e; cbn [ret fst]; by intros [= <- <-].
  - destruct (returncode done_ =? 0)%Z.
    + rewrite call_eq. cbn [fst snd outside trace].
      destruct (subprocess_run E _ _ _ o5) as [[e|r2] o6]; cbn [fst snd];
        [done |].
      intros [= <- <-]. by rewrite !strip_idemp.
    + cbn [ret fst]. by intros [= <- <-].
Qed.

(** Whatever the [try] block returns is stripped. *)
Lemma run_code_try_stripped (code input_data : str) (w : world W)
  (out err : str) :
  snd (fst (run_code_try E U code input_data w)) = inr (out, err) ->
  strip U out = out /\ strip U err = err.
Proof.
  destruct (run_code_try_cases code input_data w)
    as [[e ->]|(name & result & w1 & ->)]; [done |].
  apply after_first_run_stripped.
Qed.

Lemma is_cleanup_not_run (cleanup : list event) (f : event -> bool) :
  (forall ev, is_cleanup ev = true -> f ev = false) ->
  forallb is_cleanup cleanup = true -> List.filter f cleanup = [].
Proof.
  intros Hf. induction cleanup as [|ev evs IH]; [done |].
  cbn [forallb List.filter]. intros [Hev Hevs]%andb_true_iff.
  by rewrite (Hf ev Hev), IH.
Qed.

Lemma is_cleanup_not_install (ev : event) :
  is_cleanup ev = true -> is_install ev = false.
Proof. by destruct ev. Qed.

Lemma is_cleanup_not_python_run (ev : event) :
  is_cleanup ev = true -> is_python_run ev = false.
Proof. by destruct ev. Qed.
End ExecutorFacts.

Section ExecutorProperties.
Context {W : Type} (E : env W) (U : unicode_db).

Lemma run_code_try_first_run_raises (code input_data : str) (w : world W)
  (name : str) (e : exn) :
  first_run_raises E code input_data w name e ->
  snd (fst (run_code_try E U code input_data w)) = inl e.
Proof.
  intros (o1 & o2 & o3 & o & H1 & H2 & H3 & H4).
  unfold run_code_try, run_python, run, bind, ret.
  rewrite call_eq, H1. cbn [fst snd outside trace]. rewrite call_eq.
  cbn [fst snd outside trace]. rewrite H2. cbn [fst snd]. rewrite call_eq.
  cbn [fst snd outside trace]. rewrite H3. cbn [fst snd]. rewrite call_eq.
  cbn [fst snd outside trace]. by rewrite H4.
Qed.

(** C7.  [run_code] always returns a pair and never raises: in no world does
    an exception reach the caller.  An exception raised inside the [try]
    block gives an empty output and a message that is not empty; when the
    first child process times out the message is the timeout message. *)
Theorem run_code_never_raises (code input_data : str) (w : world W) :
  (exists output error,
     fst (run_code E U code input_data w) = inr (output, error)) /\
  (forall e,
     snd (fst (run_code_try E U code input_data w)) = inl e ->
     exists error,
       error <> [] /\ fst (run_code E U code input_data w) = inr ([], error)) /\
  (forall name msg,
     first_run_raises E code input_data w name (TimeoutExpired msg) ->
     fst (run_code E U code input_data w) = inr ([], TIMEOUT_MESSAGE)).
Proof.
  split_and!.
  - destruct (run_code_inr E U code input_data w) as (out & err & w' & ->).
    eauto.
  - intros e He. rewrite run_code_unfold. cbn [fst]. rewrite He.
    destruct (run_code_except_inr e) as (err & Hne & ->). eauto.
  - intros name msg He%(run_code_try_first_run_raises _ _ _ _ _).
    rewrite run_code_unfold. cbn [fst]. by rewrite He.
Qed.

(** C3, as the program has it.  When the standard error of the first child
    process names a missing module, [run_code] runs [pip install] for that
    module exactly once, with a timeout of 30 seconds, which is longer than
    the 10 seconds given to the child process. *)
Theorem install_once_with_longer_timeout (code input_data : str)
  (w : world W) (name : str) (result : CompletedProcess) (o : W) (m : str) :
  first_run E code input_data w name result o ->
  reports_missing_module U result m ->
  exists events,
    trace (snd (run_code E U code input_data w)) = trace w ++ events /\
    List.filter is_install events =
      [SubprocessRun [lit "pip"; lit "install"; m] None INSTALL_TIMEOUT] /\
    (EXECUTION_TIMEOUT < INSTALL_TIMEOUT)%Z.
Proof.
  intros Hfirst Hmiss.
  destruct (run_code_missing_module E U _ _ _ _ _ _ _ Hfirst Hmiss)
    as (cleanup & Hcl & _ & Htr).
  eexists. split; [exact Htr |]. split; [|done].
  rewrite !List.filter_app.
  rewrite (is_cleanup_not_run _ _ is_cleanup_not_install Hcl), app_nil_r.
  by destruct (succeeded (fst (pip_answer E o m))).
Qed.

(** C6.  On the recovery path: when the installation succeeds the child
    process is run once more, on the same file with the same input, and the
    stripped output and error of that second run are returned, whatever they
    are, with no other installation (an exception of the second run is
    handled as one of the first); when the installation fails the result is
    an empty output and the message that names the module, and the child
    process is not run again. *)
Theorem recovery_runs_once_more (code input_data : str) (w : world W)
  (name : str) (result : CompletedProcess) (o : W) (m : str) :
  first_run E code input_data w name result o ->
  reports_missing_module U result m ->
  exists cleanup,
    forallb is_cleanup cleanup = true /\
    (succeeded (fst (pip_answer E o m)) = true ->
     trace (snd (run_code E U code input_data w)) =
       trace w ++ first_run_events code input_data name ++
       [install_event m; python_event name input_data] ++ cleanup /\
     (forall retry_result,
        fst (retry_answer E o m name input_data) = inr retry_result ->
        fst (run_code E U code input_data w) =
        inr (strip U (stdout retry_result), strip U (stderr retry_result))) /\
     (forall e,
        fst (retry_answer E o m name input_data) = inl e ->
        fst (run_code E U code input_data w) = run_code_except e)) /\
    (succeeded (fst (pip_answer E o m)) = false ->
     trace (snd (run_code E U code input_data w)) =
       trace w ++ first_run_events code input_data name ++
       [install_event m] ++ cleanup /\
     fst (run_code E U code input_data w) =
       inr ([], FAILED_TO_INSTALL ++ m ++ [squote])).
Proof.
  intros Hfirst Hmiss.
  destruct (run_code_missing_module E U _ _ _ _ _ _ _ Hfirst Hmiss)
    as (cleanup & Hcl & Hres & Htr).
  exists cleanup. split; [done |]. split; intros Hpip; rewrite Hpip in *.
  - split; [done |]. split; intros r Hr; by rewrite Hr in Hres.
  - done.
Qed.

(** C10.  [run_code] strips what it returns from the child process: every
    pair that the [try] block returns is stripped; outside the recovery
    path the pair is the stripped output and the stripped error of the first
    child process, so that two programs whose outputs differ by the
    whitespace around them give the same result; and a standard error made
    of whitespace only is no execution error for the loop over the test
    cases, which records no error signature. *)
Theorem run_code_strips_streams (code input_data : str) (w : world W)
  (name : str) (result : CompletedProcess) (o : W) :
  first_run E code input_data w name result o ->
  (forall output error,
     snd (fst (run_code_try E U code input_data w)) = inr (output, error) ->
     strip U output = output /\ strip U error = error) /\
  ((forall m, ~ reports_missing_module U result m) ->
   fst (run_code E U code input_data w) =
     inr (strip U (stdout result), strip U (stderr result)) /\
   forall code' w' name' result' o',
     first_run E code' input_data w' name' result' o' ->
     (forall m, ~ reports_missing_module U result' m) ->
     strip U (stdout result') = strip U (stdout result) ->
     strip U (stderr result') = strip U (stderr result) ->
     fst (run_code E U code' input_data w') =
     fst (run_code E U code input_data w)) /\
  (strip U (stderr result) = [] ->
   fst (run_code E U code input_data w) = inr (strip U (stdout result), []) /\
   forall idx expected_output ls,
     exists ls' w',
       for_tests E U code [(idx, (input_data, expected_output))] ls w =
         (inr ls', w') /\
       current_attempt_errors ls' = current_attempt_errors ls /\
       error_history ls' = error_history ls).
Proof.
  intros Hfirst.
  assert (forall code' w' name' result' o',
            first_run E code' input_data w' name' result' o' ->
            (forall m, ~ reports_missing_module U result' m) ->
            fst (run_code E U code' input_data w') =
            inr (strip U (stdout result'), strip U (stderr result')))
    as Hplain.
  { intros code' w' name' result' o' Hfirst' Hno.
    rewrite run_code_unfold, (run_code_try_first_run _ _ _ _ _ _ _ _ Hfirst').
    cbv zeta. cbn [fst snd]. by rewrite after_first_run_plain. }
  split_and!.
  - apply run_code_try_stripped.
  - intros Hno. split; [by eapply Hplain |].
    intros code' w' name' result' o' Hfirst' Hno' Hout Herr.
    rewrite (Hplain _ _ _ _ _ Hfirst' Hno'), (Hplain _ _ _ _ _ Hfirst Hno).
    by rewrite Hout, Herr.
  - intros Herr.
    assert (forall m, ~ reports_missing_module U result m) as Hno.
    { intros m (Hne & _). done. }
    pose proof (Hplain _ _ _ _ _ Hfirst Hno) as Hres. rewrite Herr in Hres.
    split; [done |]. intros idx expected_output ls.
    unfold for_tests, bind, ret.
    destruct (run_code E U code input_data w) as [r w'].
    cbn [fst] in Hres. subst r. cbn [nonempty].
    destruct (evaluate_output U (strip U (stdout result)) expected_output);
      eauto.
Qed.
End ExecutorProperties.

(** ** The loop over the test cases *)

Section TestLoop.
Context {W : Type} (E : env W) (U : unicode_db).

Lemma for_tests_cons (code : str) (idx : nat)
  (input_data expected_output : str) (rest : list (nat * (str * str)))
  (ls : loop_state) (w : world W) :
  for_tests E U code ((idx, (input_data, expected_output)) :: rest) ls w =
  match fst (run_code E U code input_data w) with
  | inl e => (inl e, snd (run_code E U code input_data w))
  | inr (output, error) =>
      if nonempty error then
        (inr (record_error U idx error ls),
         snd (run_code E U code input_data w))
      else if evaluate_output U output expected_output then
        for_tests E U code rest ls (snd (run_code E U code input_data w))
      else
        (inr (record_mismatch idx expected_output output ls),
         snd (run_code E U code input_data w))
  end.
Proof.
  cbn [for_tests]. unfold bind, ret.
  destruct (run_code E U code input_data w) as [[e|[output error]] w'];
    cbn [fst snd]; [done |].
  by destruct (nonempty error), (evaluate_output U output expected_output).
Qed.

(** The loop ends in one of three ways: every test case passed, or the
    test cases before some test case passed and that one ended with an
    error, or with an output that is not the expected one.  In the last two
    cases the loop ends in the world in which that test case ended. *)
Lemma for_tests_inv (code : str) (cases : list (nat * (str * str)))
  (ls : loop_state) (w : world W) :
  (exists w', tests_pass E U code cases w w' /\
              for_tests E U code cases ls w = (inr ls, w')) \/
  (exists pre idx input_data expected_output post w1 output error w',
     cases = pre ++ (idx, (input_data, expected_output)) :: post /\
     tests_pass E U code pre w w1 /\
     run_code E U code input_data w1 = (inr (output, error), w') /\
     ((error <> [] /\
       for_tests E U code cases ls w =
         (inr (record_error U idx error ls), w')) \/
      (error = [] /\
       evaluate_output U output expected_output = false /\
       for_tests E U code cases ls w =
         (inr (record_mismatch idx expected_output output ls), w')))).
Proof.
  revert w. induction cases as [|[idx [input_data expected_output]] rest IH];
    intros w.
  { left. exists w. split; [constructor | done]. }
  rewrite for_tests_cons.
  destruct (run_code_inr E U code input_data w) as (output & error & w1 & Hrun).
  rewrite Hrun. cbn [fst snd].
  destruct error as [|c error]; cbn [nonempty].
  - destruct (evaluate_output U output expected_output) eqn:Hev.
    + destruct (IH w1) as [(w' & Hpass & Heq)|
        (pre & idx' & inp' & exp' & post & w2 & out' & err' & w' &
         -> & Hpass & Hrun' & Hend)].
      * left. exists w'. split; [|done]. by econstructor.
      * right.
        exists ((idx, (input_data, expected_output)) :: pre), idx', inp', exp',
          post, w2, out', err', w'.
        split_and!; [done | by econstructor | done | done].
    + right. exists [], idx, input_data, expected_output, rest, w, output, [], w1.
      split_and!; [done | constructor | done |]. right. done.
  - right.
    exists [], idx, input_data, expected_output, rest, w, output, (c :: error), w1.
    split_and!; [done | constructor | done |]. left. done.
Qed.

(** [run_code] never raises, so neither does the loop over the test
    cases. *)
Lemma for_tests_inr (code : str) (cases : list (nat * (str * str)))
  (ls : loop_state) (w : world W) :
  exists ls' w', for_tests E U code cases ls w = (inr ls', w').
Proof.
  destruct (for_tests_inv code cases ls w) as [(w' & _ & ->)|
    (pre & idx & inp & exp & post & w1 & out & err & w' & _ & _ & _ &
     [(_ & ->)|(_ & _ & ->)])]; eauto.
Qed.

Lemma occurrences_record_error (idx : nat) (error : str) (ls : loop_state) :
  error_history (record_error U idx error ls) =
  <[normalize_error U error :=
      S (occurrences ls (normalize_error U error))]> (error_history ls).
Proof.
  unfold record_error, occurrences. cbn [error_history].
  destruct (error_history ls !! normalize_error U error) as [n|]; [|done].
  cbn [default]. by rewrite Nat.add_1_r.
Qed.

Lemma occurrences_insert_le (ls : loop_state) (sig sig' : str) :
  (occurrences ls sig' <=
   default 0%nat
     (<[sig := S (occurrences ls sig)]> (error_history ls) !! sig'))%nat.
Proof.
  unfold occurrences. destruct (decide (sig = sig')) as [->|Hne].
  - rewrite lookup_insert_eq. simpl. lia.
  - by rewrite lookup_insert_ne.
Qed.

(** The feedback of the loop continues the feedback it starts with, and
    what it adds does not depend on the rest of the state. *)
Lemma for_tests_feedback (code : str) (cases : list (nat * (str * str)))
  (ls1 ls2 : loop_state) (w : world W) :
  exists ls1' ls2' w' added,
    for_tests E U code cases ls1 w = (inr ls1', w') /\
    for_tests E U code cases ls2 w = (inr ls2', w') /\
    feedback_summary ls1' = feedback_summary ls1 ++ added /\
    feedback_summary ls2' = feedback_summary ls2 ++ added.
Proof.
  revert w. induction cases as [|[idx [input_data expected_output]] rest IH];
    intros w.
  { exists ls1, ls2, w, []. by rewrite !app_nil_r. }
  rewrite !for_tests_cons.
  destruct (run_code_inr E U code input_data w) as (output & error & w1 & Hrun).
  rewrite Hrun. cbn [fst snd].
  destruct (nonempty error).
  { eexists _, _, _, _. split_and!; reflexivity. }
  destruct (evaluate_output U output expected_output); [apply IH |].
  eexists _, _, _, _. split_and!; reflexivity.
Qed.
End TestLoop.

(** ** The loop over the attempts *)

Section Session.
Context {W : Type} (E : env W) (U : unicode_db).
Context (task_description : str) (test_cases : list (str * str)).

Local Abbreviation attempt_body' :=
  (attempt_body E U task_description test_cases).
Local Abbreviation for_attempts' :=
  (for_attempts E U task_description test_cases).
Local Abbreviation obtain_code' := (obtain_code E task_description).
Local Abbreviation tests := (enumerate 1 test_cases).

Local Abbreviation after_clock' := (after_clock E).

Lemma attempt_body_unfold (start_time : float) (attempt : nat)
  (ls : loop_state) (w : world W) :
  attempt_body' start_time attempt ls w =
  if float_lt (float_of_int MAX_EXECUTION_TIME)
       (float_sub (fst (time_time E (outside w))) start_time)
  then (inr (Break TimedOut, ls), after_clock' w)
  else
    let code := fst (obtain_code' attempt ls (after_clock' w)) in
    let w1 := snd (obtain_code' attempt ls (after_clock' w)) in
    match fst (for_tests E U code tests (begin_attempt ls) w1) with
    | inl e => (inl e, snd (for_tests E U code tests (begin_attempt ls) w1))
    | inr ls' =>
        (inr (after_tests code ls'),
         match fst (after_tests code ls') with
         | Break (Success _) =>
             after_clock' (snd (for_tests E U code tests (begin_attempt ls) w1))
         | _ => snd (for_tests E U code tests (begin_attempt ls) w1)
         end)
    end.
Proof.
  unfold attempt_body, bind, ret, after_clock. rewrite call_eq.
  destruct (float_lt _ _); [done |].
  destruct (obtain_code' attempt ls _) as [code w1]. cbv zeta. cbn [fst snd].
  destruct (for_tests E U code tests (begin_attempt ls) w1) as [[e|ls'] w2];
    cbn [fst snd]; [done |].
  destruct (after_tests code ls') as [[[final| | |]|] ls'']; cbn [fst];
    [by rewrite call_eq | done..].
Qed.

Lemma after_tests_continue (code : str) (ls ls' : loop_state) :
  after_tests code ls = (Continue, ls') -> ls' = ls /\ all_passed ls = false.
Proof.
  unfold after_tests.
  destruct (current_attempt_errors ls), (repeated_errors ls),
    (all_passed ls); intros [= <-] || intros [=]; done.
Qed.

Lemma after_tests_stuck (code : str) (ls : loop_state) (sig : str) :
  current_attempt_errors ls = [sig] ->
  (MAX_DUPLICATE_ERRORS <= occurrences ls sig)%nat ->
  after_tests code ls = (Break (Stuck sig), ls).
Proof.
  intros Hcur Hocc. unfold after_tests, repeated_errors. rewrite Hcur.
  rewrite filter_cons_True by done. done.
Qed.

Lemma after_tests_state (code : str) (ls : loop_state) :
  error_history (snd (after_tests code ls)) = error_history ls /\
  current_attempt_errors (snd (after_tests code ls)) =
    current_attempt_errors ls /\
  feedback_summary (snd (after_tests code ls)) = feedback_summary ls.
Proof.
  unfold after_tests.
  destruct (current_attempt_errors ls) eqn:Hcur, (repeated_errors ls),
    (all_passed ls); cbn [snd error_history current_attempt_errors
                          feedback_summary]; by rewrite ?Hcur.
Qed.

(** What an attempt that is not the last one went through. *)
Lemma attempt_body_continue (start_time : float) (attempt : nat)
  (ls ls' : loop_state) (w w' : world W) :
  attempt_body' start_time attempt ls w = (inr (Continue, ls'), w') ->
  exists code w1,
    obtain_code' attempt ls (after_clock' w) = (code, w1) /\
    for_tests E U code tests (begin_attempt ls) w1 = (inr ls', w') /\
    all_passed ls' = false.
Proof.
  rewrite attempt_body_unfold. destruct (float_lt _ _); [done |].
  destruct (obtain_code' attempt ls (after_clock' w)) as [code w1].
  cbv zeta. cbn [fst snd].
  destruct (for_tests E U code tests (begin_attempt ls) w1) as [[e|ls1] w2]
    eqn:Htests; cbn [fst snd]; [done |].
  intros [= Hafter Hw]. rewrite Hafter in Hw. cbn [fst] in Hw. subst w'.
  apply after_tests_continue in Hafter as [-> ?]. eauto.
Qed.

(** The tests of an attempt record at most one error signature, and add
    one to its count. *)
Lemma for_tests_attempt (code : str) (ls ls' : loop_state) (w w' : world W) :
  for_tests E U code tests (begin_attempt ls) w = (inr ls', w') ->
  (current_attempt_errors ls' = [] /\ error_history ls' = error_history ls) \/
  (exists sig,
     current_attempt_errors ls' = [sig] /\
     error_history ls' =
       <[sig := S (occurrences ls sig)]> (error_history ls)).
Proof.
  destruct (for_tests_inv E U code tests (begin_attempt ls) w)
    as [(w1 & _ & ->)|
        (pre & idx & inp & exp & post & w1 & out & err & w2 & _ & _ & _ &
         [(_ & ->)|(_ & _ & ->)])]; intros [= <- <-].
  - by left.
  - right. exists (normalize_error U err). split; [done |].
    exact (occurrences_record_error U idx err (begin_attempt ls)).
  - by left.
Qed.

Lemma attempt_body_history (start_time : float) (attempt : nat)
  (ls ls' : loop_state) (r : step) (w w' : world W) :
  attempt_body' start_time attempt ls w = (inr (r, ls'), w') ->
  error_history ls' = error_history ls \/
  (exists sig,
     current_attempt_errors ls' = [sig] /\
     error_history ls' =
       <[sig := S (occurrences ls sig)]> (error_history ls)).
Proof.
  rewrite attempt_body_unfold. destruct (float_lt _ _).
  { intros [= _ <- _]. by left. }
  destruct (obtain_code' attempt ls (after_clock' w)) as [code w1].
  cbv zeta. cbn [fst snd].
  destruct (for_tests E U code tests (begin_attempt ls) w1) as [[e|ls1] w2]
    eqn:Htests; cbn [fst snd]; [done |].
  intros [= Hafter _].
  destruct (after_tests_state code ls1) as (Hh & Hc & _).
  rewrite Hafter in Hh, Hc. cbn [snd] in Hh, Hc. rewrite Hh, Hc.
  destruct (for_tests_attempt _ _ _ _ _ Htests) as [[_ ?]|?]; auto.
Qed.

Lemma history_grows_refl (h : gmap (list N) nat) : history_grows h h.
Proof. by intros sig. Qed.

Lemma history_grows_trans (h1 h2 h3 : gmap (list N) nat) :
  history_grows h1 h2 -> history_grows h2 h3 -> history_grows h1 h3.
Proof.
  intros H12 H23 sig. destruct (H12 sig) as [Ha Hb], (H23 sig) as [Hc Hd].
  split; [auto | lia].
Qed.

Lemma history_grows_insert (h : gmap (list N) nat) (sig : str) :
  history_grows h (<[sig := S (default 0%nat (h !! sig))]> h).
Proof.
  intros sig'. destruct (decide (sig = sig')) as [->|Hne].
  - rewrite lookup_insert_eq. split; [eauto | simpl; lia].
  - by rewrite lookup_insert_ne.
Qed.

Lemma attempt_body_history_grows (start_time : float) (attempt : nat)
  (ls ls' : loop_state) (r : step) (w w' : world W) :
  attempt_body' start_time attempt ls w = (inr (r, ls'), w') ->
  history_grows (error_history ls) (error_history ls').
Proof.
  intros [Hh|(sig' & _ & Hh)]%attempt_body_history; rewrite Hh.
  - apply history_grows_refl.
  - apply history_grows_insert.
Qed.

Lemma for_attempts_history_grows (start_time : float) (attempts : list nat)
  (ls ls' : loop_state) (t : termination) (w w' : world W) :
  for_attempts' start_time attempts ls w = (inr (t, ls'), w') ->
  history_grows (error_history ls) (error_history ls').
Proof.
  revert ls w. induction attempts as [|attempt rest IH]; intros ls w.
  { intros [= _ <- _]. apply history_grows_refl. }
  cbn [for_attempts]. unfold bind, ret.
  destruct (attempt_body' start_time attempt ls w) as [[e|[[t'|] ls1]] w1]
    eqn:Hbody; [done | |].
  - intros [= _ <- _]. by eapply attempt_body_history_grows.
  - intros Hrest%IH.
    eapply history_grows_trans; [by eapply attempt_body_history_grows | done].
Qed.

(** A session that has come to an attempt goes on from there. *)
Lemma reaches_solve_task (w0 : world W) (attempt : nat) (start_time : float)
  (ls : loop_state) (w : world W) :
  reaches E U task_description test_cases w0 attempt start_time ls w ->
  (attempt <= MAX_ATTEMPTS)%nat ->
  solve_task E U task_description test_cases w0 =
  finish E (for_attempts' start_time
              (seq attempt (S MAX_ATTEMPTS - attempt)) ls w).
Proof.
  induction 1 as [start_time w1 Hclock|
                  attempt start_time ls ls' w w' _ IH Hbody]; intros Hle.
  - unfold solve_task, bind, ret, finish, after_clock. rewrite Hclock.
    change (S MAX_ATTEMPTS - 1)%nat with MAX_ATTEMPTS.
    destruct (for_attempts' start_time (seq 1 MAX_ATTEMPTS) initial_state w1)
      as [[e|[t ls]] w2]; cbn [fst snd]; [done |].
    by rewrite call_eq.
  - rewrite IH by lia.
    replace (S MAX_ATTEMPTS - attempt)%nat
      with (S (S MAX_ATTEMPTS - S attempt)) by lia.
    cbn [seq for_attempts]. unfold bind, ret. by rewrite Hbody.
Qed.
(** The loop over the test cases ends with every test case passed and the
    state as it was, or in the world in which the first test case that did
    not pass ended, with the error or the mismatch of that one recorded. *)
Lemma for_tests_stops (code : str) (cases : list (nat * (str * str)))
  (ls : loop_state) (w : world W) :
  exists ls' w',
    for_tests E U code cases ls w = (inr ls', w') /\
    ((tests_pass E U code cases w w' /\ ls' = ls) \/
     (exists idx expected_output output error,
        stops_at E U code cases w w' idx expected_output output error /\
        ((error <> [] /\ ls' = record_error U idx error ls) \/
         (error = [] /\
          ls' = record_mismatch idx expected_output output ls)))).
Proof.
  destruct (for_tests_inv E U code cases ls w)
    as [(w' & Hpass & Heq)|
        (pre & idx & inp & exp & post & w1 & out & err & w' & Hcases &
         Hpass & Hrun & [(Hne & Heq)|(Hnil & Hev & Heq)])];
    rewrite Heq; eexists _, _; (split; [reflexivity |]).
  - by left.
  - right. exists idx, exp, out, err. split; [| by left].
    exists pre, inp, post, w1. split_and!; [done | done | done | by left].
  - right. exists idx, exp, out, err. split; [| by right].
    exists pre, inp, post, w1. split_and!; [done | done | done | by right].
Qed.

(** C5.  In a session the count of an error signature only increases and no
    entry of the table is removed.  Within an attempt the loop over the
    test cases stops at the first test case that does not pass, in the world
    in which the run of that test case ended: nothing is recorded in the
    table exactly when no test case that ran ended with an error (all of
    them passed, or the loop stopped at a wrong output), and otherwise the
    signature of the first error, and only this one, is recorded and one is
    added to its count. *)
Theorem error_history_only_grows :
  (forall code cases ls w,
     exists ls' w',
       for_tests E U code cases ls w = (inr ls', w') /\
       history_grows (error_history ls) (error_history ls') /\
       ((tests_pass E U code cases w w' /\ ls' = ls) \/
        (exists idx expected_output output error,
           stops_at E U code cases w w' idx expected_output output error /\
           ((error <> [] /\
             ls' = record_error U idx error ls /\
             current_attempt_errors ls' =
               current_attempt_errors ls ++ [normalize_error U error] /\
             error_history ls' =
               <[normalize_error U error :=
                   S (occurrences ls (normalize_error U error))]>
                 (error_history ls)) \/
            (error = [] /\
             ls' = record_mismatch idx expected_output output ls /\
             current_attempt_errors ls' = current_attempt_errors ls /\
             error_history ls' = error_history ls))))) /\
  (forall start_time attempt ls w r ls' w',
     attempt_body' start_time attempt ls w = (inr (r, ls'), w') ->
     (r = Break TimedOut /\ ls' = ls) \/
     (exists code w1 w2,
        obtain_code' attempt ls (after_clock' w) = (code, w1) /\
        ((tests_pass E U code tests w1 w2 /\
          current_attempt_errors ls' = [] /\
          error_history ls' = error_history ls) \/
         (exists idx expected_output output error,
            stops_at E U code tests w1 w2 idx expected_output output error /\
            ((error <> [] /\
              current_attempt_errors ls' = [normalize_error U error] /\
              error_history ls' =
                <[normalize_error U error :=
                    S (occurrences ls (normalize_error U error))]>
                  (error_history ls)) \/
             (error = [] /\
              current_attempt_errors ls' = [] /\
              error_history ls' = error_history ls)))))) /\
  (forall start_time attempts ls w t ls' w',
     for_attempts' start_time attempts ls w = (inr (t, ls'), w') ->
     history_grows (error_history ls) (error_history ls')).
Proof.
  split_and!.
  - intros code cases ls w.
    destruct (for_tests_stops code cases ls w)
      as (ls' & w' & Heq & [[Hpass ->]|
            (idx & exp & out & err & Hstop & [[Hne ->]|[-> ->]])]);
      eexists _, w'; (split; [exact Heq |]).
    + split; [apply history_grows_refl | by left].
    + rewrite occurrences_record_error.
      split; [apply history_grows_insert |]. right.
      exists idx, exp, out, err. split; [done |]. left.
      split_and!; done.
    + split; [apply history_grows_refl |]. right.
      exists idx, exp, out, []. split; [done |]. by right.
  - intros start_time attempt ls w r ls' w'.
    rewrite attempt_body_unfold. destruct (float_lt _ _).
    { intros [= <- <- _]. by left. }
    destruct (obtain_code' attempt ls (after_clock' w)) as [code w1].
    cbv zeta. cbn [fst snd].
    destruct (for_tests_stops code tests (begin_attempt ls) w1)
      as (ls1 & w2 & Htests & Hcases).
    rewrite Htests. cbn [fst snd]. intros [= Hafter _]. right.
    exists code, w1, w2. split; [done |].
    destruct (after_tests_state code ls1) as (Hh & Hc & _).
    rewrite Hafter in Hh, Hc. cbn [snd] in Hh, Hc. rewrite Hh, Hc.
    destruct Hcases as [[Hpass ->]|
      (idx & exp & out & err & Hstop & [[Hne ->]|[-> ->]])].
    + by left.
    + right. exists idx, exp, out, err. split; [done |]. left.
      split_and!; [done | done |].
      exact (occurrences_record_error U idx err (begin_attempt ls)).
    + right. exists idx, exp, out, []. split; [done |]. by right.
  - intros start_time attempts ls w t ls' w'. apply for_attempts_history_grows.
Qed.

(** The feedback at the end of an attempt that is followed by another. *)
Lemma continue_feedback (start_time : float)
  (attempt : nat) (ls ls' : loop_state) (w w' : world W) :
  attempt_body' start_time attempt ls w = (inr (Continue, ls'), w') ->
  exists code w1,
    obtain_code' attempt ls (after_clock' w) = (code, w1) /\
    for_tests E U code tests (begin_attempt ls) w1 = (inr ls', w') /\
    feedback_summary ls' = attempt_feedback E U test_cases code w1 /\
    ((exists idx error,
        error <> [] /\
        feedback_summary ls' =
          lit "Test Case " ++ str_of_nat idx ++ lit ": Execution Error:" ++
          [nl] ++ error ++ [nl]) \/
     (exists idx expected_output output,
        feedback_summary ls' =
          lit "Test Case " ++ str_of_nat idx ++ lit ": Expected '" ++
          expected_output ++ lit "' but got '" ++ output ++ [squote; nl])).
Proof.
  intros (code & w1 & Hcode & Htests & Hfailed)%attempt_body_continue.
  exists code, w1. split; [done |]. split; [done |]. split.
  - unfold attempt_feedback.
    destruct (for_tests_feedback E U code tests (begin_attempt ls)
                initial_state w1)
      as (ls1 & ls2 & w2 & added & H1 & H2 & Hf1 & Hf2).
    rewrite H2. rewrite H1 in Htests. injection Htests as <- <-.
    cbn [fst]. by rewrite Hf1, Hf2.
  - destruct (for_tests_inv E U code tests (begin_attempt ls) w1)
      as [(w2 & _ & Heq)|
          (pre & idx & inp & exp & post & w2 & out & err & w3 & _ & _ & _ &
           [(Hne & Heq)|(_ & _ & Heq)])];
      rewrite Heq in Htests; injection Htests as <- <-.
    + done.
    + left. by exists idx, err.
    + right. by exists idx, exp, out.
Qed.

(** C4.  When a session comes to an attempt after the first, the feedback
    that this attempt passes to the debugger is the feedback of the attempt
    just before: the summary was emptied when that attempt started, so that
    it is one entry, about the test case that failed in that attempt, and is
    the same whatever the state that attempt started with.  Nothing of the
    attempts before is in it. *)
Theorem debugger_feedback_is_of_last_attempt (w0 : world W) (attempt : nat)
  (start_time : float) (ls : loop_state) (w : world W) :
  reaches E U task_description test_cases w0 attempt start_time ls w ->
  (2 <= attempt)%nat ->
  exists ls0 w_start code w1,
    reaches E U task_description test_cases w0 (attempt - 1) start_time
      ls0 w_start /\
    obtain_code' (attempt - 1) ls0 (after_clock' w_start) = (code, w1) /\
    for_tests E U code tests (begin_attempt ls0) w1 = (inr ls, w) /\
    feedback_summary ls = attempt_feedback E U test_cases code w1 /\
    ((exists idx error,
        error <> [] /\
        feedback_summary ls =
          lit "Test Case " ++ str_of_nat idx ++ lit ": Execution Error:" ++
          [nl] ++ error ++ [nl]) \/
     (exists idx expected_output output,
        feedback_summary ls =
          lit "Test Case " ++ str_of_nat idx ++ lit ": Expected '" ++
          expected_output ++ lit "' but got '" ++ output ++ [squote; nl])) /\
    obtain_code' attempt ls (after_clock' w) =
      call (DebugCode task_description
              (attempt_feedback E U test_cases code w1) PYTHON)
        (debug_code E task_description
           (attempt_feedback E U test_cases code w1) PYTHON)
        (after_clock' w).
Proof.
  intros Hreach Hle.
  destruct Hreach as [start_time w1 Hclock|
                      attempt start_time ls0 ls w_start w Hprev Hbody];
    [lia |].
  destruct (continue_feedback _ _ _ _ _ _ Hbody)
    as (code & w1 & Hcode & Htests & Hfb & Hshape).
  exists ls0, w_start, code, w1.
  replace (S attempt - 1)%nat with attempt by lia.
  split_and!; try done.
  unfold obtain_code. destruct (Nat.eqb_spec (S attempt) 1); [lia |].
  by rewrite Hfb.
Qed.

(** C2.  In a session that comes to an attempt whose tests record an error
    signature that has been met [MAX_DUPLICATE_ERRORS] times or more, the
    loop is left at the end of that attempt as stuck on this signature: the
    session ends in the world in which the tests of the attempt ended, but
    for a last reading of the clock, so that neither the generator nor the
    debugger is called again. *)
Theorem repeated_error_ends_session (w0 : world W) (attempt : nat)
  (start_time : float) (ls : loop_state) (w : world W) (code : str)
  (w1 : world W) (ls' : loop_state) (w2 : world W) (sig : str) :
  reaches E U task_description test_cases w0 attempt start_time ls w ->
  (attempt <= MAX_ATTEMPTS)%nat ->
  float_lt (float_of_int MAX_EXECUTION_TIME)
    (float_sub (fst (time_time E (outside w))) start_time) = false ->
  obtain_code' attempt ls (after_clock' w) = (code, w1) ->
  for_tests E U code tests (begin_attempt ls) w1 = (inr ls', w2) ->
  sig ∈ current_attempt_errors ls' ->
  (MAX_DUPLICATE_ERRORS <= occurrences ls' sig)%nat ->
  solve_task E U task_description test_cases w0 =
    (inr (Stuck sig, final_code ls'), after_clock' w2) /\
  List.filter is_oracle_call
    (trace (snd (solve_task E U task_description test_cases w0))) =
  List.filter is_oracle_call (trace w2).
Proof.
  intros Hreach Hle Htime Hcode Htests Hsig Hocc.
  assert (solve_task E U task_description test_cases w0 =
          (inr (Stuck sig, final_code ls'), after_clock' w2)) as Hsolve.
  { rewrite (reaches_solve_task _ _ _ _ _ Hreach Hle).
    replace (S MAX_ATTEMPTS - attempt)%nat
      with (S (MAX_ATTEMPTS - attempt)) by lia.
    cbn [seq for_attempts]. unfold bind, ret.
    rewrite attempt_body_unfold, Htime, Hcode. cbv zeta. cbn [fst snd].
    rewrite Htests. cbn [fst snd].
    assert (current_attempt_errors ls' = [sig]) as Hcur.
    { destruct (for_tests_attempt _ _ _ _ _ Htests)
        as [[Hnone _]|(sig' & Hone & _)].
      - rewrite Hnone in Hsig. by apply elem_of_nil in Hsig.
      - rewrite Hone in Hsig |- *. by apply list_elem_of_singleton in Hsig as ->. }
    by rewrite (after_tests_stuck code ls' sig Hcur Hocc). }
  split; [done |]. rewrite Hsolve. cbn [snd after_clock trace].
  by rewrite List.filter_app, app_nil_r.
Qed.

End Session.

(** ** Instances on the scripted environment *)

Lemma scripted_first_run (code input_data : str) (result : CompletedProcess)
  (rest : list (exn + CompletedProcess)) :
  first_run scripted_env code input_data (scripted (inr result :: rest))
    TEMP_NAME result rest.
Proof. exists (inr result :: rest), (inr result :: rest), (inr result :: rest). done. Qed.

Lemma missing_module_reported :
  reports_missing_module ascii_only missing_module_process (lit "foo").
Proof. split_and!; by vm_compute. Qed.

(** C3, as the specification states it, fails: on [missing_module_world] the standard
    error of the first child process names the missing module [foo], and
    the only installation is given 30 seconds, which is not less than the
    10 seconds of the child process. *)
Lemma install_timeout_is_not_shorter :
  first_run scripted_env (lit "import foo") [] missing_module_world
    TEMP_NAME missing_module_process
    [inr quiet_process; inr missing_module_process] /\
  reports_missing_module ascii_only missing_module_process (lit "foo") /\
  ~ installs_once_with_shorter_timeout
      (trace (snd (run_code scripted_env ascii_only (lit "import foo") []
                     missing_module_world)))
      (lit "foo").
Proof.
  split; [apply scripted_first_run |]. split; [apply missing_module_reported |].
  intros (timeout & Hone & Hshort). vm_compute in Hone.
  injection Hone as <-. by vm_compute in Hshort.
Qed.

Lemma install_once_with_longer_timeout_witness :
  exists events,
    trace (snd (run_code scripted_env ascii_only (lit "import foo") []
                  missing_module_world)) =
      trace missing_module_world ++ events /\
    List.filter is_install events =
      [SubprocessRun [lit "pip"; lit "install"; lit "foo"] None
         INSTALL_TIMEOUT] /\
    (EXECUTION_TIMEOUT < INSTALL_TIMEOUT)%Z.
Proof.
  apply (install_once_with_longer_timeout scripted_env ascii_only
           (lit "import foo") [] missing_module_world TEMP_NAME
           missing_module_process
           [inr quiet_process; inr missing_module_process] (lit "foo")).
  - exists (outside missing_module_world), (outside missing_module_world),
      (outside missing_module_world). split_and!; reflexivity.
  - split_and!; by vm_compute.
Defined.

Lemma recovery_runs_once_more_witness :
  fst (run_code scripted_env ascii_only (lit "import foo") []
         missing_module_world) =
  inr ([], lit "ModuleNotFoundError: No module named 'foo'").
Proof.
  destruct (recovery_runs_once_more scripted_env ascii_only
              (lit "import foo") [] missing_module_world TEMP_NAME
              missing_module_process
              [inr quiet_process; inr missing_module_process] (lit "foo"))
    as (cleanup & _ & Hinstalled & _).
  - exists (outside missing_module_world), (outside missing_module_world),
      (outside missing_module_world). split_and!; reflexivity.
  - split_and!; by vm_compute.
  - destruct (Hinstalled eq_refl) as (_ & Hresult & _).
    exact (Hresult missing_module_process eq_refl).
Defined.

Lemma run_code_never_raises_witness :
  fst (run_code scripted_env ascii_only (lit "while True: pass") []
         timeout_world) =
  inr ([], TIMEOUT_MESSAGE).
Proof.
  apply (proj2 (proj2 (run_code_never_raises scripted_env ascii_only
                         (lit "while True: pass") [] timeout_world))
           TEMP_NAME (lit "timed out after 10 seconds")).
  exists (outside timeout_world), (outside timeout_world),
    (outside timeout_world), []. split_and!; reflexivity.
Defined.

Lemma run_code_strips_streams_witness :
  fst (run_code scripted_env ascii_only (lit "print(42)") [] padded_world) =
  inr (lit "42", []).
Proof.
  destruct (run_code_strips_streams scripted_env ascii_only (lit "print(42)")
              [] padded_world TEMP_NAME padded_process [])
    as (_ & _ & Hblank).
  - exists (outside padded_world), (outside padded_world),
      (outside padded_world). split_and!; reflexivity.
  - exact (proj1 (Hblank eq_refl)).
Defined.

Lemma stuck_first_attempt_continues :
  stuck_first_attempt =
  (inr (Continue, state_of stuck_first_attempt), snd stuck_first_attempt).
Proof. vm_compute. reflexivity. Qed.

Lemma stuck_second_attempt_stuck :
  stuck_second_attempt =
  (inr (Break (Stuck ZERO_DIVISION), state_of stuck_second_attempt),
   snd stuck_second_attempt).
Proof. vm_compute. reflexivity. Qed.

Lemma error_history_only_grows_witness :
  let ls1 := state_of stuck_first_attempt in
  let ls2 := state_of stuck_second_attempt in
  occurrences ls1 ZERO_DIVISION = 1%nat /\
  history_grows (error_history ls1) (error_history ls2) /\
  exists error,
    error <> [] /\
    current_attempt_errors ls2 = [normalize_error ascii_only error] /\
    error_history ls2 =
      <[normalize_error ascii_only error :=
          S (occurrences ls1 (normalize_error ascii_only error))]>
        (error_history ls1).
Proof.
  cbv zeta.
  destruct (error_history_only_grows scripted_env ascii_only DIVIDE one_test)
    as (_ & Hattempt & Hsession).
  split; [vm_compute; reflexivity |]. split.
  - apply (Hsession (S754_zero false) [2%nat] (state_of stuck_first_attempt)
             (snd stuck_first_attempt) (Stuck ZERO_DIVISION) _
             (snd stuck_second_attempt)).
    cbn [for_attempts]. unfold bind, ret.
    fold stuck_second_attempt. rewrite stuck_second_attempt_stuck.
    reflexivity.
  - destruct (Hattempt (S754_zero false) 2%nat (state_of stuck_first_attempt)
                (snd stuck_first_attempt) (Break (Stuck ZERO_DIVISION))
                (state_of stuck_second_attempt) (snd stuck_second_attempt)
                stuck_second_attempt_stuck)
      as [[Hr _]|(code & w1 & w2 & _ &
            [(_ & Hnone & _)|
             (idx & exp & out & err & _ &
              [(Hne & Hone & Hh)|(_ & Hnone & _)])])].
    + discriminate Hr.
    + vm_compute in Hnone. discriminate Hnone.
    + by exists err.
    + vm_compute in Hnone. discriminate Hnone.
Defined.

Lemma stuck_second_attempt_reached :
  reaches scripted_env ascii_only DIVIDE one_test stuck_world 2
    (S754_zero false) (state_of stuck_first_attempt)
    (snd stuck_first_attempt).
Proof.
  apply (reaches_next _ _ _ _ _ 1 _ initial_state _
           (after_clock scripted_env stuck_world)).
  - by apply reaches_first.
  - apply stuck_first_attempt_continues.
Qed.

Lemma debugger_feedback_is_of_last_attempt_witness :
  exists code w1,
    feedback_summary (state_of stuck_first_attempt) =
      attempt_feedback scripted_env ascii_only one_test code w1 /\
    obtain_code scripted_env DIVIDE 2 (state_of stuck_first_attempt)
      (after_clock scripted_env (snd stuck_first_attempt)) =
    call (DebugCode DIVIDE
            (attempt_feedback scripted_env ascii_only one_test code w1)
            PYTHON)
      (debug_code scripted_env DIVIDE
         (attempt_feedback scripted_env ascii_only one_test code w1) PYTHON)
      (after_clock scripted_env (snd stuck_first_attempt)).
Proof.
  destruct (debugger_feedback_is_of_last_attempt scripted_env ascii_only
              DIVIDE one_test stuck_world 2 (S754_zero false)
              (state_of stuck_first_attempt) (snd stuck_first_attempt)
              stuck_second_attempt_reached (le_n 2))
    as (ls0 & w_start & code & w1 & _ & _ & _ & Hfeedback & _ & Hdebug).
  by exists code, w1.
Defined.

Lemma repeated_error_ends_session_witness :
  fst (solve_task scripted_env ascii_only DIVIDE one_test stuck_world) =
  inr (Stuck ZERO_DIVISION, None).
Proof.
  pose proof (repeated_error_ends_session scripted_env ascii_only DIVIDE
                one_test stuck_world 2 (S754_zero false)
                (state_of stuck_first_attempt) (snd stuck_first_attempt))
    as Hstuck.
  edestruct Hstuck as [Hsolve _].
  - apply stuck_second_attempt_reached.
  - vm_compute. lia.
  - vm_compute. reflexivity.
  - vm_compute. reflexivity.
  - vm_compute. reflexivity.
  - apply list_elem_of_here.
  - vm_compute. lia.
  - rewrite Hsolve. reflexivity.
Defined.

(** ** The events of a computation *)

Section Traces.
Context {W : Type}.

Lemma extends_refl (P : event -> bool) (w : world W) : extends P w w.
Proof. exists []. by rewrite app_nil_r. Qed.

Lemma extends_trans (P : event -> bool) (w1 w2 w3 : world W) :
  extends P w1 w2 -> extends P w2 w3 -> extends P w1 w3.
Proof.
  intros (e1 & H1 & P1) (e2 & H2 & P2). exists (e1 ++ e2).
  rewrite H2, H1, app_assoc. split; [done |].
  by rewrite forallb_app, P1, P2.
Qed.

Lemma extends_impl (P Q : event -> bool) (w w' : world W) :
  (forall ev, P ev = true -> Q ev = true) -> extends P w w' -> extends Q w w'.
Proof.
  intros HPQ (evs & Htr & HP). exists evs. split; [done |].
  apply forallb_forall. intros ev Hev.
  apply HPQ. by eapply (proj1 (forallb_forall _ _) HP).
Qed.

Lemma extends_events_since (P : event -> bool) (w w' : world W) :
  extends P w w' ->
  trace w' = trace w ++ events_since w w' /\
  forallb P (events_since w w') = true.
Proof.
  intros (evs & Htr & HP). unfold events_since.
  by rewrite Htr, drop_app_length.
Qed.

Lemma events_since_app (w0 w : world W) (events : list event) :
  trace w = trace w0 ++ events -> events_since w0 w = events.
Proof. intros Htr. unfold events_since. by rewrite Htr, drop_app_length. Qed.

Lemma emits_ret {A : Type} (P : event -> bool) (a : A) :
  emits (W := W) P (ret a).
Proof. intros w. apply extends_refl. Qed.

Lemma emits_bind {A B : Type} (P : event -> bool) (m : M W A)
  (k : A -> M W B) :
  emits P m -> (forall a, emits P (k a)) -> emits P (bind m k).
Proof.
  intros Hm Hk w. unfold bind. specialize (Hm w).
  destruct (m w) as [a w1]. cbn [snd] in Hm.
  eapply extends_trans; [exact Hm | apply Hk].
Qed.

Lemma emits_call {A : Type} (P : event -> bool) (ev : event)
  (f : W -> A * W) :
  P ev = true -> emits P (call ev f).
Proof.
  intros Hev w. rewrite call_eq. exists [ev]. cbn. by rewrite Hev.
Qed.
End Traces.

(** One step of the proof that a computation emits events of one kind. *)
Ltac emits_step :=
  first
    [ apply emits_ret
    | apply emits_call; reflexivity
    | apply emits_bind; [| intros ?]
    | match goal with
      | |- emits _ (match ?x with _ => _ end) => destruct x
      end ].

Section ExecutorTrace.
Context {W : Type} (E : env W) (U : unicode_db).

Lemma install_package_emits (package_name : str) :
  emits is_executor_call (install_package E package_name).
Proof. unfold install_package, run. repeat emits_step. Qed.

Lemma install_package_try (package_name : str) :
  emits is_try_call (install_package E package_name).
Proof. unfold install_package, run. repeat emits_step. Qed.

(** The [try] block makes none of the calls of the [finally] clause. *)
Lemma run_code_try_emits_try (code input_data : str) :
  emits is_try_call (run_code_try E U code input_data).
Proof.
  unfold run_code_try, after_first_run, run_python, run.
  repeat first [apply install_package_try | emits_step].
Qed.

Lemma run_code_try_emits (code input_data : str) :
  emits is_executor_call (run_code_try E U code input_data).
Proof.
  intros w. eapply extends_impl; [| apply run_code_try_emits_try].
  by intros ev [? _]%andb_true_iff.
Qed.

Lemma run_code_finally_emits (temp_file : option str) :
  emits is_executor_call (run_code_finally E temp_file).
Proof. unfold run_code_finally. repeat emits_step. Qed.

(** [run_code] calls neither the oracles nor the clock. *)
Lemma run_code_emits (code input_data : str) :
  emits is_executor_call (run_code E U code input_data).
Proof.
  unfold run_code.
  repeat first [apply run_code_try_emits | apply run_code_finally_emits
               | emits_step].
Qed.

Lemma for_tests_emits (code : str) (cases : list (nat * (str * str)))
  (ls : loop_state) :
  emits is_executor_call (for_tests E U code cases ls).
Proof.
  revert ls. induction cases as [|[idx [input_data expected_output]] rest IH];
    intros ls; cbn [for_tests].
  - apply emits_ret.
  - repeat first [apply run_code_emits | apply IH | emits_step].
Qed.
End ExecutorTrace.

(** ** The child processes and the temporary file of [run_code] *)

Section Counting.
Context {W : Type}.

Lemma emits_at_most_ret {A : Type} (weight : event -> nat) (n : nat)
  (a : A) :
  emits_at_most (W := W) weight n (ret a).
Proof. intros w. exists []. rewrite app_nil_r. split; [done | simpl; lia]. Qed.

Lemma emits_at_most_call {A : Type} (weight : event -> nat) (n : nat)
  (ev : event) (g : W -> A * W) :
  (weight ev <= n)%nat -> emits_at_most weight n (call ev g).
Proof.
  intros Hn w. rewrite call_eq. exists [ev]. split; [done |]. simpl. lia.
Qed.

Lemma emits_at_most_bind {A B : Type} (weight : event -> nat)
  (n1 n2 n : nat) (m : M W A) (k : A -> M W B) :
  (n1 + n2 <= n)%nat ->
  emits_at_most weight n1 m -> (forall a, emits_at_most weight n2 (k a)) ->
  emits_at_most weight n (bind m k).
Proof.
  intros Hn Hm Hk w. unfold bind. destruct (Hm w) as (e1 & H1 & L1).
  destruct (m w) as [a w1]. cbn [snd] in H1.
  destruct (Hk a w1) as (e2 & H2 & L2).
  exists (e1 ++ e2). rewrite H2, H1, app_assoc. split; [done |].
  rewrite sum_list_with_app. lia.
Qed.

(** A computation that emits events of a kind [P] only, which weigh
    nothing, emits nothing that weighs. *)
Lemma emits_at_most_none {A : Type} (P : event -> bool)
  (weight : event -> nat) (n : nat) (m : M W A) :
  (forall ev, P ev = true -> weight ev = 0%nat) ->
  emits P m -> emits_at_most weight n m.
Proof.
  intros HPf Hm w. destruct (Hm w) as (evs & Htr & HP).
  exists evs. split; [done |].
  assert (sum_list_with weight evs = 0%nat) as ->; [|lia].
  clear Htr. induction evs as [|ev evs IH]; [done |].
  cbn [forallb sum_list_with] in *. apply andb_true_iff in HP as [Hev HP].
  by rewrite (HPf ev Hev), IH.
Qed.

Lemma emits_at_most_events_since {A : Type} (weight : event -> nat)
  (n : nat) (m : M W A) (w : world W) :
  emits_at_most weight n m ->
  trace (snd (m w)) = trace w ++ events_since w (snd (m w)) /\
  (sum_list_with weight (events_since w (snd (m w))) <= n)%nat.
Proof.
  intros Hm. destruct (Hm w) as (evs & Htr & Hlen).
  unfold events_since. by rewrite Htr, drop_app_length.
Qed.

Lemma sum_counting (f : event -> bool) (events : list event) :
  sum_list_with (counting f) events = length (List.filter f events).
Proof.
  induction events as [|ev events IH]; [done |].
  cbn [sum_list_with List.filter]. unfold counting at 1.
  destruct (f ev); simpl; lia.
Qed.
End Counting.

Section ExecutorBounds.
Context {W : Type} (E : env W) (U : unicode_db).

Lemma run_code_finally_emits_cleanup (temp_file : option str) :
  emits is_cleanup (run_code_finally E temp_file).
Proof. unfold run_code_finally. repeat emits_step. Qed.

Section Weights.
Context (weight : event -> nat) (p q : nat).
Hypothesis weight_python :
  forall name input_data, (weight (python_event name input_data) <= p)%nat.
Hypothesis weight_install :
  forall package_name, (weight (install_event package_name) <= q)%nat.
Hypothesis weight_file :
  forall ev, is_subprocess ev = false -> weight ev = 0%nat.

Lemma install_package_weight (package_name : str) :
  emits_at_most weight q (install_package E package_name).
Proof.
  unfold install_package, run.
  apply (emits_at_most_bind _ q 0); [lia | |].
  - apply emits_at_most_call. apply weight_install.
  - intros [[| |]|]; apply emits_at_most_ret.
Qed.

Lemma run_python_weight (temp_file input_data : str) :
  emits_at_most weight p (run_python E temp_file input_data).
Proof. apply emits_at_most_call. apply weight_python. Qed.

Lemma after_first_run_weight (temp_file input_data : str)
  (result : CompletedProcess) :
  emits_at_most weight (q + p)
    (after_first_run E U temp_file input_data result).
Proof.
  unfold after_first_run.
  destruct (nonempty _ && contains _ _); [| apply emits_at_most_ret].
  destruct (search_missing_module _); [| apply emits_at_most_ret].
  apply (emits_at_most_bind _ q p); [lia | apply install_package_weight |].
  intros [|]; [| apply emits_at_most_ret].
  apply (emits_at_most_bind _ p 0); [lia | apply run_python_weight |].
  intros [|]; apply emits_at_most_ret.
Qed.

Lemma run_code_try_weight (code input_data : str) :
  emits_at_most weight (p + (q + p)) (run_code_try E U code input_data).
Proof.
  unfold run_code_try.
  apply (emits_at_most_bind _ 0 (p + (q + p))); [lia | |].
  { apply emits_at_most_call. by rewrite weight_file. }
  intros [e|name]; [apply emits_at_most_ret |].
  apply (emits_at_most_bind _ 0 (p + (q + p))); [lia | |].
  { apply emits_at_most_call. by rewrite weight_file. }
  intros [e|[]].
  - apply (emits_at_most_bind _ 0 0); [lia | |].
    { apply emits_at_most_call. by rewrite weight_file. }
    intros [|]; apply emits_at_most_ret.
  - apply (emits_at_most_bind _ 0 (p + (q + p))); [lia | |].
    { apply emits_at_most_call. by rewrite weight_file. }
    intros [e|[]]; [apply emits_at_most_ret |].
    apply (emits_at_most_bind _ p (q + p)); [lia | apply run_python_weight |].
    intros [e|result]; [apply emits_at_most_ret |].
    apply (emits_at_most_bind _ (q + p) 0);
      [lia | apply after_first_run_weight |].
    intros v. apply emits_at_most_ret.
Qed.

Lemma run_code_weight (code input_data : str) :
  emits_at_most weight (p + (q + p)) (run_code E U code input_data).
Proof.
  unfold run_code.
  apply (emits_at_most_bind _ (p + (q + p)) 0);
    [lia | apply run_code_try_weight |].
  intros [temp_file r].
  apply (emits_at_most_bind _ 0 0); [lia | |].
  - apply (emits_at_most_none is_cleanup);
      [| apply run_code_finally_emits_cleanup].
    intros ev Hev. apply weight_file. by destruct ev.
  - intros _. apply emits_at_most_ret.
Qed.
End Weights.

(** X7.  Whatever happens, one call of [run_code] starts the interpreter at
    most twice and [pip] at most once, and the timeouts of these child
    processes add up to 50 seconds at most. *)
Theorem run_code_child_processes (code input_data : str) (w : world W) :
  let events := events_since w (snd (run_code E U code input_data w)) in
  trace (snd (run_code E U code input_data w)) = trace w ++ events /\
  (length (List.filter is_python_run events) <= 2)%nat /\
  (length (List.filter is_install events) <= 1)%nat /\
  (length (List.filter is_subprocess events) <= 3)%nat /\
  (sum_list_with child_seconds events <= 50)%nat.
Proof.
  cbv zeta.
  assert (forall ev, is_subprocess ev = false -> is_python_run ev = false)
    as Hpython by (by intros []).
  assert (forall ev, is_subprocess ev = false -> is_install ev = false)
    as Hinstall by (by intros []).
  split_and!.
  - apply (emits_at_most_events_since child_seconds 50).
    apply (run_code_weight child_seconds 10 30); [done | done |].
    by intros [].
  - rewrite <- sum_counting.
    apply (emits_at_most_events_since (counting is_python_run) 2).
    apply (run_code_weight (counting is_python_run) 1 0).
    + intros name inp. unfold counting. destruct (is_python_run _); lia.
    + intros m. vm_compute. lia.
    + intros ev Hev. unfold counting. by rewrite Hpython.
  - rewrite <- sum_counting.
    apply (emits_at_most_events_since (counting is_install) 1).
    apply (run_code_weight (counting is_install) 0 1).
    + intros name inp. vm_compute. lia.
    + intros m. unfold counting. destruct (is_install _); lia.
    + intros ev Hev. unfold counting. by rewrite Hinstall.
  - rewrite <- sum_counting.
    apply (emits_at_most_events_since (counting is_subprocess) 3).
    apply (run_code_weight (counting is_subprocess) 1 1); try done.
    intros ev Hev. unfold counting. by rewrite Hev.
  - apply (emits_at_most_events_since child_seconds 50).
    apply (run_code_weight child_seconds 10 30); [done | done |].
    by intros [].
Qed.

(** The local [temp_file] at the end of the [try] block: it is set only
    when the program was written to the temporary file. *)
Lemma run_code_try_temp_file (code input_data : str) (w : world W)
  (name : str) (o1 : W) :
  named_temporary_file E (outside w) = (inr name, o1) ->
  fst (fst (run_code_try E U code input_data w)) =
  match fst (file_write E name code o1) with
  | inr _ => Some name
  | inl _ => None
  end.
Proof.
  intros Htemp. unfold run_code_try, bind, ret. rewrite call_eq, Htemp.
  cbn [fst snd outside trace]. rewrite call_eq. cbn [fst snd outside trace].
  destruct (file_write E name code o1) as [[e|[]] o2]; cbn [fst snd].
  - rewrite call_eq. cbn [fst snd outside trace].
    by destruct (file_close E name o2) as [[e'|[]] o3].
  - rewrite call_eq. cbn [fst snd outside trace].
    destruct (file_close E name o2) as [[e|[]] o3]; cbn [fst snd]; [done |].
    unfold run_python, run. rewrite call_eq. cbn [fst snd outside trace].
    destruct (subprocess_run E _ _ _ o3) as [[e|result] o4]; cbn [fst snd];
      [done |].
    by destruct (after_first_run E U name input_data result _).
Qed.

Lemma filter_cleanup_try (events : list event) :
  forallb is_try_call events = true -> List.filter is_cleanup events = [].
Proof.
  induction events as [|ev events IH]; [done |]. cbn [forallb List.filter].
  intros [[_ Hev]%andb_true_iff Hevs]%andb_true_iff. rewrite IH by done.
  by destruct (is_cleanup ev).
Qed.

(** X8.  Once the program was written to the temporary file, the file is
    looked for and, if it is there, removed at the end of [run_code],
    whatever happened in between; but when writing the program raises, the
    name of the file is not known to the [finally] clause, which then
    removes nothing. *)
Theorem temporary_file_cleanup (code input_data : str) (w : world W)
  (name : str) (o1 : W) :
  named_temporary_file E (outside w) = (inr name, o1) ->
  name <> [] ->
  match fst (file_write E name code o1) with
  | inr _ =>
      exists events w1,
        trace w1 = trace w ++ events /\
        List.filter is_cleanup events = [] /\
        trace (snd (run_code E U code input_data w)) =
          trace w1 ++
          PathExists name ::
          (if fst (path_exists E name (outside w1)) then [OsRemove name]
           else [])
  | inl _ =>
      List.filter is_cleanup
        (events_since w (snd (run_code E U code input_data w))) = []
  end.
Proof.
  intros Htemp Hname.
  pose proof (run_code_try_temp_file code input_data w name o1 Htemp) as Hfile.
  destruct (run_code_try_emits_try E U code input_data w)
    as (events & Htr & Htry%filter_cleanup_try).
  rewrite run_code_unfold. cbn [snd].
  destruct (fst (file_write E name code o1)) as [e|[]]; rewrite Hfile.
  - cbn [run_code_finally]. unfold ret. cbn [snd].
    by rewrite (events_since_app _ _ _ Htr).
  - exists events, (snd (run_code_try E U code input_data w)).
    split; [done |]. split; [done |].
    cbn [run_code_finally]. destruct name as [|c name]; [done |].
    cbn [nonempty]. unfold bind, ret. rewrite call_eq. cbn [fst snd].
    destruct (path_exists E (c :: name) _) as [[|] o]; cbn [fst snd].
    + rewrite call_eq. cbn [snd trace]. by rewrite <- app_assoc.
    + done.
Qed.

Lemma match_missing_module_None (s : str) :
  startswith NO_MODULE_NAMED s = false -> match_missing_module s = None.
Proof.
  intros Hs. rewrite match_missing_module_scan_eq.
  unfold match_missing_module_scan. by rewrite Hs.
Qed.

(** The module that [re.search] finds is the one named at the first place
    where the literal of the pattern occurs, when quotes follow it. *)
Lemma search_missing_module_first (pre : str) (q : char) (m : str)
  (q' : char) (post : str) :
  contains NO_MODULE_NAMED (pre ++ removelast NO_MODULE_NAMED) = false ->
  is_quote q = true -> is_quote q' = true -> m <> [] ->
  Forall (fun c => is_quote c = false) m ->
  search_missing_module (pre ++ NO_MODULE_NAMED ++ q :: m ++ q' :: post) =
  Some m.
Proof.
  intros Hpre Hq Hq' Hm Hall. induction pre as [|c pre IH].
  - cbn [app].
    assert (match_missing_module (NO_MODULE_NAMED ++ q :: m ++ q' :: post) =
            Some m) as Hmatch.
    { apply match_missing_module_regex. exists q, q', post. split; [done |].
      exists NO_MODULE_NAMED, (q :: m ++ [q']). split_and!; [done | done |].
      exists [q], (m ++ [q']). split_and!; [done | by exists q |].
      exists m, [q']. split_and!; [done | | by exists q'].
      split; [done |]. eapply Forall_impl; [exact Hall |].
      intros x Hx. cbv beta. by rewrite Hx. }
    destruct (NO_MODULE_NAMED ++ q :: m ++ q' :: post); cbn [search_missing_module];
      by rewrite Hmatch.
  - cbn [app contains] in Hpre. apply orb_false_iff in Hpre as [Hhead Hpre].
    cbn [app search_missing_module]. rewrite match_missing_module_None.
    + by apply IH.
    + rewrite <- Hhead.
      assert (c :: pre ++ NO_MODULE_NAMED ++ q :: m ++ q' :: post =
              (c :: pre ++ removelast NO_MODULE_NAMED) ++
              32 :: q :: m ++ q' :: post) as ->.
      { cbn [app]. f_equal. by rewrite <- app_assoc. }
      rewrite <- (app_nil_r (c :: pre ++ removelast NO_MODULE_NAMED)) at 2.
      apply startswith_app_long. rewrite length_cons, length_app. simpl. lia.
Qed.

(** X9.  The package that [run_code] installs is read off the standard
    error of the child process: it is whatever stands between the quotes
    that follow the first [No module named] there. *)
Theorem stderr_names_the_package (code input_data : str) (w : world W)
  (name : str) (result : CompletedProcess) (o : W) (pre : str) (q : char)
  (m : str) (q' : char) (post : str) :
  first_run E code input_data w name result o ->
  strip U (stderr result) = pre ++ NO_MODULE_NAMED ++ q :: m ++ q' :: post ->
  contains MODULE_NOT_FOUND (strip U (stderr result)) = true ->
  contains NO_MODULE_NAMED (pre ++ removelast NO_MODULE_NAMED) = false ->
  is_quote q = true -> is_quote q' = true -> m <> [] ->
  Forall (fun c => is_quote c = false) m ->
  search_missing_module (strip U (stderr result)) = Some m /\
  install_event m ∈ trace (snd (run_code E U code input_data w)).
Proof.
  intros Hfirst Herr Hfound Hpre Hq Hq' Hm Hall.
  assert (search_missing_module (strip U (stderr result)) = Some m) as Hsearch
    by (rewrite Herr; by apply search_missing_module_first).
  split; [done |].
  assert (reports_missing_module U result m) as Hmiss.
  { split_and!; [| done | done]. rewrite Herr. by destruct pre. }
  destruct (run_code_missing_module E U _ _ _ _ _ _ _ Hfirst Hmiss)
    as (cleanup & _ & _ & ->).
  rewrite !elem_of_app. right. right. left.
  destruct (succeeded _); [apply list_elem_of_here | apply list_elem_of_here].
Qed.
End ExecutorBounds.

(** ** How a session ends *)

Section SessionEnd.
Context {W : Type} (E : env W) (U : unicode_db).
Context (task_description : str) (test_cases : list (str * str)).

Local Abbreviation attempt_body' :=
  (attempt_body E U task_description test_cases).
Local Abbreviation for_attempts' :=
  (for_attempts E U task_description test_cases).
Local Abbreviation obtain_code' := (obtain_code E task_description).
Local Abbreviation solve_task' :=
  (solve_task E U task_description test_cases).
Local Abbreviation reaches' := (reaches E U task_description test_cases).
Local Abbreviation tests := (enumerate 1 test_cases).
Local Abbreviation after_clock' := (after_clock E).
Local Abbreviation time_is_up start_time w :=
  (float_lt (float_of_int MAX_EXECUTION_TIME)
     (float_sub (fst (time_time E (outside w))) start_time)).

Lemma filter_oracle_executor (events : list event) :
  forallb is_executor_call events = true ->
  List.filter is_oracle_call events = [].
Proof.
  induction events as [|ev events IH]; [done |]. cbn [forallb List.filter].
  intros [Hev Hevs]%andb_true_iff. rewrite IH by done. by destruct ev.
Qed.

Lemma filter_executor_oracle (events : list event) :
  forallb (fun ev => negb (is_executor_call ev)) events = true ->
  List.filter is_executor_call events = [].
Proof.
  induction events as [|ev events IH]; [done |]. cbn [forallb List.filter].
  intros [Hev Hevs]%andb_true_iff. rewrite IH by done.
  by destruct (is_executor_call ev).
Qed.

(** The tests keep [final_code], and leave [all_passed] set only when every
    test case passed. *)
Lemma for_tests_passed (code : str) (ls ls' : loop_state) (w w' : world W) :
  for_tests E U code tests (begin_attempt ls) w = (inr ls', w') ->
  final_code ls' = final_code ls /\
  (all_passed ls' = true -> tests_pass E U code tests w w') /\
  (forall sig, sig ∈ current_attempt_errors ls' ->
     exists input_data w1 output error w2,
       run_code E U code input_data w1 = (inr (output, error), w2) /\
       error <> [] /\ sig = normalize_error U error).
Proof.
  destruct (for_tests_inv E U code tests (begin_attempt ls) w)
    as [(w1 & Hpass & ->)|
        (pre & idx & inp & exp & post & w1 & out & err & w2 & _ & _ & Hrun &
         [(Hne & ->)|(_ & _ & ->)])]; intros [= <- <-].
  - split_and!; [done | done |]. by intros sig ?%elem_of_nil.
  - split_and!; [done | done |]. cbn. intros sig ->%list_elem_of_singleton.
    by exists inp, w1, out, err, w2.
  - split_and!; [done | done |]. by intros sig ?%elem_of_nil.
Qed.


Lemma obtain_code_trace (attempt : nat) (ls : loop_state) (w : world W) :
  trace (snd (obtain_code' attempt ls w)) =
  trace w ++ [oracle_event_of task_description attempt ls].
Proof.
  unfold obtain_code, oracle_event_of.
  destruct (attempt =? 1)%nat; by rewrite call_eq.
Qed.

(** The three ways in which the part of an attempt that follows the tests
    ends. *)
Lemma after_tests_cases (code : str) (ls : loop_state) :
  (exists sig,
     sig ∈ current_attempt_errors ls /\
     (MAX_DUPLICATE_ERRORS <= occurrences ls sig)%nat /\
     after_tests code ls = (Break (Stuck sig), ls)) \/
  (all_passed ls = true /\
   fst (after_tests code ls) = Break (Success code) /\
   final_code (snd (after_tests code ls)) = Some code) \/
  (all_passed ls = false /\ after_tests code ls = (Continue, ls)).
Proof.
  unfold after_tests.
  destruct (current_attempt_errors ls) as [|e es] eqn:Hcur.
  - destruct (all_passed ls); [right; left | right; right]; done.
  - destruct (repeated_errors ls) as [|sig sigs] eqn:Hrep.
    + destruct (all_passed ls); [right; left | right; right]; done.
    + left. exists sig.
      assert (sig ∈ repeated_errors ls) as Hin
        by (rewrite Hrep; apply list_elem_of_here).
      unfold repeated_errors in Hin. rewrite Hcur in Hin.
      apply list_elem_of_filter in Hin as [Hocc Hin]. done.
Qed.

(** An attempt ends at once when the time is up; otherwise it obtains a
    program, tests it, and ends as [after_tests] says. *)
Lemma attempt_body_cases (start_time : float) (attempt : nat)
  (ls : loop_state) (w : world W) :
  (time_is_up start_time w = true /\
   attempt_body' start_time attempt ls w =
     (inr (Break TimedOut, ls), after_clock' w)) \/
  (time_is_up start_time w = false /\
   exists code w1 ls1 w2,
     obtain_code' attempt ls (after_clock' w) = (code, w1) /\
     for_tests E U code tests (begin_attempt ls) w1 = (inr ls1, w2) /\
     attempt_body' start_time attempt ls w =
       (inr (after_tests code ls1),
        match fst (after_tests code ls1) with
        | Break (Success _) => after_clock' w2
        | _ => w2
        end)).
Proof.
  rewrite attempt_body_unfold. destruct (time_is_up start_time w); [by left |].
  right. split; [done |].
  destruct (obtain_code' attempt ls (after_clock' w)) as [code w1].
  cbv zeta. cbn [fst snd].
  destruct (for_tests_inr E U code tests (begin_attempt ls) w1)
    as (ls1 & w2 & Htests).
  exists code, w1, ls1, w2. rewrite Htests. cbn [fst snd].
  by destruct (after_tests code ls1).
Qed.

(** The events of an attempt that obtained a program and tested it: one
    call of an oracle, which is the generator at the first attempt. *)
Lemma attempt_trace (w0 : world W) (events : list event) (attempt : nat)
  (ls : loop_state) (w : world W) (code : str) (w1 : world W)
  (ls1 : loop_state) (w2 w3 : world W) :
  trace w = trace w0 ++ events ->
  (1 <= attempt)%nat ->
  length (List.filter is_oracle_call events) = (attempt - 1)%nat ->
  generate_then_debug task_description (List.filter is_oracle_call events) ->
  obtain_code' attempt ls (after_clock' w) = (code, w1) ->
  for_tests E U code tests (begin_attempt ls) w1 = (inr ls1, w2) ->
  extends (fun ev => negb (is_oracle_call ev)) w2 w3 ->
  exists events',
    trace w3 = trace w0 ++ events' /\
    length (List.filter is_oracle_call events') = attempt /\
    generate_then_debug task_description
      (List.filter is_oracle_call events').
Proof.
  intros Htr Hpos Hlen Hshape Hcode Htests Hlast.
  pose proof (obtain_code_trace attempt ls (after_clock' w)) as Hw1.
  rewrite Hcode in Hw1. cbn [snd after_clock trace] in Hw1.
  destruct (for_tests_emits E U code tests (begin_attempt ls) w1)
    as (evs & Hevs & Hexec).
  rewrite Htests in Hevs. cbn [snd] in Hevs.
  destruct Hlast as (evs' & Hevs' & Hno).
  exists (events ++ [Time; oracle_event_of task_description attempt ls]
          ++ evs ++ evs').
  split; [rewrite Hevs', Hevs, Hw1, Htr; by rewrite <- !app_assoc |].
  rewrite !List.filter_app, (filter_oracle_executor evs Hexec).
  assert (List.filter is_oracle_call evs' = []) as ->.
  { clear -Hno. induction evs' as [|ev evs' IH]; [done |].
    cbn [forallb List.filter] in *. apply andb_true_iff in Hno as [Hev Hno].
    rewrite IH by done. by destruct (is_oracle_call ev). }
  rewrite !app_nil_r.
  assert (List.filter is_oracle_call
            [Time; oracle_event_of task_description attempt ls] =
          [oracle_event_of task_description attempt ls]) as ->.
  { unfold oracle_event_of. by destruct (attempt =? 1)%nat. }
  split; [rewrite length_app, Hlen; simpl; lia |].
  unfold oracle_event_of.
  destruct (List.filter is_oracle_call events) as [|first others].
  - simpl in Hlen. replace attempt with 1%nat by lia. done.
  - destruct (Nat.eqb_spec attempt 1) as [->|_]; [done |].
    destruct Hshape as [-> Hothers]. split; [done |].
    apply Forall_app. split; [done |]. constructor; [eauto | done].
Qed.

(** What holds when a session comes to an attempt: no program was
    accepted, no error signature was counted more often than there were
    attempts, and each of the attempts before called one oracle, the
    generator first. *)
Lemma reaches_inv (w0 : world W) (attempt : nat) (start_time : float)
  (ls : loop_state) (w : world W) :
  reaches' w0 attempt start_time ls w ->
  (1 <= attempt)%nat /\
  final_code ls = None /\
  (forall sig, occurrences ls sig <= attempt - 1)%nat /\
  exists events,
    trace w = trace w0 ++ events /\
    length (List.filter is_oracle_call events) = (attempt - 1)%nat /\
    generate_then_debug task_description (List.filter is_oracle_call events).
Proof.
  induction 1 as [start_time w1 Hclock|
                  attempt start_time ls ls' w w' _ IH Hbody].
  - split_and!; [done | done | by intros sig |].
    rewrite call_eq in Hclock. injection Hclock as _ <-.
    exists [Time]. done.
  - destruct IH as (Hpos & Hfinal & Hocc & events & Htr & Hlen & Hshape).
    apply attempt_body_continue in Hbody as (code & w1 & Hcode & Htests & _).
    destruct (for_tests_passed _ _ _ _ _ Htests) as (Hfc & _ & _).
    split_and!; [lia | congruence | |].
    + intros sig. specialize (Hocc sig).
      destruct (for_tests_attempt E U test_cases _ _ _ _ _ Htests)
        as [[_ Hh]|(sig' & _ & Hh)]; unfold occurrences in *; rewrite Hh.
      * lia.
      * destruct (decide (sig' = sig)) as [->|Hne].
        -- rewrite lookup_insert_eq.
           change (default 0%nat (Some ?x)) with x. lia.
        -- rewrite lookup_insert_ne by done. lia.
    + destruct (attempt_trace w0 events attempt ls w code w1 ls' w' w'
                  Htr Hpos Hlen Hshape Hcode Htests (extends_refl _ _))
        as (events' & Htr' & Hlen' & Hshape').
      exists events'. split; [done |]. split; [|done].
      rewrite Hlen'. lia.
Qed.

(** The loop over the attempts ends when the attempts are exhausted, or in
    an attempt that the session came to. *)
Lemma for_attempts_end (w0 : world W) (n attempt : nat) (start_time : float)
  (ls : loop_state) (w : world W) :
  reaches' w0 attempt start_time ls w ->
  exists last ls_last w_last,
    reaches' w0 last start_time ls_last w_last /\
    ((last = (attempt + n)%nat /\
      for_attempts' start_time (seq attempt n) ls w =
        (inr (Exhausted, ls_last), w_last)) \/
     ((last < attempt + n)%nat /\
      exists t ls' w',
        attempt_body' start_time last ls_last w_last =
          (inr (Break t, ls'), w') /\
        for_attempts' start_time (seq attempt n) ls w = (inr (t, ls'), w'))).
Proof.
  revert attempt ls w. induction n as [|n IH]; intros attempt ls w Hreach.
  { exists attempt, ls, w. split; [done |]. left. split; [lia | done]. }
  cbn [seq for_attempts]. unfold bind, ret.
  destruct (attempt_body_cases start_time attempt ls w)
    as [[_ Hbody]|(_ & code & w1 & ls1 & w2 & _ & _ & Hbody)].
  - exists attempt, ls, w. split; [done |]. right. split; [lia |].
    rewrite Hbody. eauto.
  - destruct (after_tests code ls1) as [[t|] ls'] eqn:Hafter.
    + exists attempt, ls, w. split; [done |]. right. split; [lia |].
      rewrite Hbody. eauto.
    + cbn [fst] in Hbody. rewrite Hbody.
      destruct (IH (S attempt) ls' w2) as (last & ls_last & w_last & Hlast & Hend).
      { by econstructor. }
      exists last, ls_last, w_last. split; [done |].
      destruct Hend as [[-> Heq]|[Hlt Heq]]; [left | right]; (split; [lia | done]).
Qed.

Lemma solve_task_end (w0 : world W) :
  exists start_time last ls_last w_last,
    reaches' w0 last start_time ls_last w_last /\
    ((last = S MAX_ATTEMPTS /\
      solve_task' w0 =
        (inr (Exhausted, final_code ls_last), after_clock' w_last)) \/
     ((last <= MAX_ATTEMPTS)%nat /\
      exists t ls' w',
        attempt_body' start_time last ls_last w_last =
          (inr (Break t, ls'), w') /\
        solve_task' w0 = (inr (t, final_code ls'), after_clock' w'))).
Proof.
  destruct (call Time (time_time E) w0) as [start_time w1] eqn:Hclock.
  assert (reaches' w0 1 start_time initial_state w1) as Hfirst
    by by constructor.
  destruct (for_attempts_end w0 MAX_ATTEMPTS 1 start_time initial_state w1 Hfirst)
    as (last & ls_last & w_last & Hlast & Hend).
  exists start_time, last, ls_last, w_last. split; [done |].
  rewrite (reaches_solve_task E U _ _ _ _ _ _ _ Hfirst) by (unfold MAX_ATTEMPTS; lia).
  change (S MAX_ATTEMPTS - 1)%nat with MAX_ATTEMPTS.
  destruct Hend as [[-> Heq]|[Hlt (t & ls' & w' & Hbody & Heq)]]; rewrite Heq.
  - by left.
  - right. split; [unfold MAX_ATTEMPTS in *; lia |]. by exists t, ls', w'.
Qed.

(** The attempt in which the loop is left. *)
Lemma attempt_body_break (start_time : float) (attempt : nat)
  (ls : loop_state) (w : world W) (t : termination) (ls' : loop_state)
  (w' : world W) :
  attempt_body' start_time attempt ls w = (inr (Break t, ls'), w') ->
  (time_is_up start_time w = true /\ t = TimedOut /\ ls' = ls /\
   w' = after_clock' w) \/
  (time_is_up start_time w = false /\
   exists code w1 ls1 w2,
     obtain_code' attempt ls (after_clock' w) = (code, w1) /\
     for_tests E U code tests (begin_attempt ls) w1 = (inr ls1, w2) /\
     ((exists sig,
         t = Stuck sig /\ sig ∈ current_attempt_errors ls1 /\
         (MAX_DUPLICATE_ERRORS <= occurrences ls1 sig)%nat /\
         ls' = ls1 /\ w' = w2) \/
      (t = Success code /\ all_passed ls1 = true /\
       final_code ls' = Some code /\ w' = after_clock' w2))).
Proof.
  destruct (attempt_body_cases start_time attempt ls w)
    as [[Hup ->]|(Hup & code & w1 & ls1 & w2 & Hcode & Htests & ->)].
  - intros [= <- <- <-]. by left.
  - intros Heq. right. split; [done |]. exists code, w1, ls1, w2.
    split; [done |]. split; [done |].
    destruct (after_tests_cases code ls1)
      as [(sig & Hin & Hocc & Hafter)|[(Hall & Hfst & Hfc)|[_ Hafter]]].
    + rewrite Hafter in Heq. injection Heq as <- <- <-. left. by exists sig.
    + destruct (after_tests code ls1) as [r ls2]. cbn [fst snd] in *.
      subst r. injection Heq as <- <- <-. by right.
    + rewrite Hafter in Heq. done.
Qed.

(** The oracle calls of a session that leaves the loop in the attempt
    [attempt], after the program was obtained. *)
Lemma oracle_calls_of_attempt (w0 : world W) (attempt : nat)
  (start_time : float) (ls : loop_state) (w : world W) (code : str)
  (w1 : world W) (ls1 : loop_state) (w2 w3 : world W) :
  reaches' w0 attempt start_time ls w ->
  obtain_code' attempt ls (after_clock' w) = (code, w1) ->
  for_tests E U code tests (begin_attempt ls) w1 = (inr ls1, w2) ->
  extends (fun ev => negb (is_oracle_call ev)) w2 w3 ->
  exists events,
    trace w3 = trace w0 ++ events /\
    length (List.filter is_oracle_call events) = attempt /\
    generate_then_debug task_description (List.filter is_oracle_call events).
Proof.
  intros Hreach Hcode Htests Hlast.
  destruct (reaches_inv _ _ _ _ _ Hreach)
    as (Hpos & _ & _ & events & Htr & Hlen & Hshape).
  by eapply attempt_trace.
Qed.

(** The count of a signature after the tests of an attempt is at most one
    more than before. *)
Lemma for_tests_occurrences (code : str) (ls ls' : loop_state)
  (w w' : world W) (sig : str) :
  for_tests E U code tests (begin_attempt ls) w = (inr ls', w') ->
  (occurrences ls' sig <= S (occurrences ls sig))%nat.
Proof.
  intros Htests.
  destruct (for_tests_attempt E U test_cases _ _ _ _ _ Htests)
    as [[_ Hh]|(sig' & _ & Hh)]; unfold occurrences; rewrite Hh; [lia |].
  destruct (decide (sig' = sig)) as [->|Hne].
  - rewrite lookup_insert_eq. change (default 0%nat (Some ?x)) with x. done.
  - rewrite lookup_insert_ne by done. lia.
Qed.

(** The summary of a session: how it ended, what it returns and how often
    it called the oracles. *)
Lemma solve_task_summary (w0 : world W) :
  exists t result events,
    fst (solve_task' w0) = inr (t, result) /\
    trace (snd (solve_task' w0)) = trace w0 ++ events /\
    generate_then_debug task_description
      (List.filter is_oracle_call events) /\
    match t with
    | Exhausted =>
        result = None /\
        length (List.filter is_oracle_call events) = MAX_ATTEMPTS
    | TimedOut =>
        result = None /\
        (length (List.filter is_oracle_call events) < MAX_ATTEMPTS)%nat
    | Stuck sig =>
        result = None /\
        (2 <= length (List.filter is_oracle_call events) <= MAX_ATTEMPTS)%nat /\
        exists code input_data w1 output error w2,
          run_code E U code input_data w1 = (inr (output, error), w2) /\
          error <> [] /\ sig = normalize_error U error
    | Success code =>
        result = Some code /\
        (1 <= length (List.filter is_oracle_call events) <= MAX_ATTEMPTS)%nat /\
        exists attempt start_time ls w w1 w2,
          reaches' w0 attempt start_time ls w /\
          obtain_code' attempt ls (after_clock' w) = (code, w1) /\
          tests_pass E U code tests w1 w2
    end.
Proof.
  destruct (solve_task_end w0)
    as (start_time & last & ls & w & Hreach &
        [[-> Hsolve]|[Hle (t & ls' & w' & Hbody & Hsolve)]]).
  - destruct (reaches_inv _ _ _ _ _ Hreach)
      as (_ & Hfc & _ & events & Htr & Hlen & Hshape).
    exists Exhausted, None, (events ++ [Time]). rewrite Hsolve, Hfc.
    cbn [fst snd after_clock trace]. rewrite Htr, <- app_assoc.
    rewrite List.filter_app, app_nil_r.
    split_and!; try done; rewrite Hlen; lia.
  - destruct (reaches_inv _ _ _ _ _ Hreach)
      as (Hpos & Hfc & Hocc & events & Htr & Hlen & Hshape).
    apply attempt_body_break in Hbody
      as [(_ & -> & -> & ->)|
          (_ & code & w1 & ls1 & w2 & Hcode & Htests &
           [(sig & -> & Hin & Hrep & -> & ->)|(-> & Hall & Hfinal & ->)])].
    + exists TimedOut, None, (events ++ [Time; Time]). rewrite Hsolve, Hfc.
      cbn [fst snd after_clock trace]. rewrite Htr, <- !app_assoc.
      rewrite List.filter_app, app_nil_r.
      split_and!; try done; rewrite Hlen; lia.
    + destruct (for_tests_passed _ _ _ _ _ Htests) as (Hfc1 & _ & Herr).
      destruct (oracle_calls_of_attempt w0 last start_time ls w code w1 ls1
                  w2 (after_clock' w2) Hreach Hcode Htests)
        as (events' & Htr' & Hlen' & Hshape').
      { exists [Time]. done. }
      exists (Stuck sig), None, events'. rewrite Hsolve, Hfc1, Hfc.
      cbn [fst snd]. split_and!; try done.
      * rewrite Hlen'.
        pose proof (for_tests_occurrences _ _ _ _ _ sig Htests).
        specialize (Hocc sig). unfold MAX_DUPLICATE_ERRORS in Hrep. lia.
      * rewrite Hlen'. lia.
      * destruct (Herr sig Hin) as (inp & wa & out & err & wb & Hrun & Hne & ->).
        by exists code, inp, wa, out, err, wb.
    + destruct (for_tests_passed _ _ _ _ _ Htests) as (_ & Hpass & _).
      destruct (oracle_calls_of_attempt w0 last start_time ls w code w1 ls1
                  w2 (after_clock' (after_clock' w2)) Hreach Hcode Htests)
        as (events' & Htr' & Hlen' & Hshape').
      { exists [Time; Time]. split; [|done].
        cbn [after_clock trace]. by rewrite <- app_assoc. }
      exists (Success code), (Some code), events'. rewrite Hsolve, Hfinal.
      cbn [fst snd]. split_and!; try done; [lia | lia |].
      exists last, start_time, ls, w, w1, w2. auto.
Qed.

(** X1.  [solve_task] returns a program only when it leaves the loop with
    success, and then it is the program of the last attempt, which ran on
    every test case without an error and with the expected output; in every
    other case it returns [None]. *)
Theorem solve_task_result_is_tested (w0 : world W) (t : termination)
  (result : option str) :
  fst (solve_task' w0) = inr (t, result) ->
  match t with
  | Success code =>
      result = Some code /\
      exists attempt start_time ls w w1 w2,
        reaches' w0 attempt start_time ls w /\
        obtain_code' attempt ls (after_clock' w) = (code, w1) /\
        tests_pass E U code tests w1 w2
  | _ => result = None
  end.
Proof.
  destruct (solve_task_summary w0) as (t' & result' & events & -> & _ & _ & H).
  intros [= <- <-]. destruct t'; naive_solver.
Qed.

(** X2.  In a session the oracles are called at most [MAX_ATTEMPTS] times;
    the first call is one of the generator and all the others are calls of
    the debugger, for the same task and in Python. *)
Theorem solve_task_oracle_calls (w0 : world W) :
  trace (snd (solve_task' w0)) =
    trace w0 ++ events_since w0 (snd (solve_task' w0)) /\
  (length (oracle_calls w0 (snd (solve_task' w0))) <= MAX_ATTEMPTS)%nat /\
  generate_then_debug task_description
    (oracle_calls w0 (snd (solve_task' w0))).
Proof.
  destruct (solve_task_summary w0) as (t & result & events & _ & Htr & Hshape & H).
  unfold oracle_calls. rewrite (events_since_app _ _ _ Htr).
  split_and!; [done | | done].
  destruct t; [lia | lia | lia | lia].
Qed.

(** X3.  A session ends as stuck only on the signature of an execution
    error, that is of an error message that [run_code] returned and that is
    not empty, and never before the second attempt; it then returns
    [None]. *)
Theorem stuck_needs_repeated_error (w0 : world W) (sig : str)
  (result : option str) :
  fst (solve_task' w0) = inr (Stuck sig, result) ->
  result = None /\
  (2 <= length (oracle_calls w0 (snd (solve_task' w0))))%nat /\
  exists code input_data w1 output error w2,
    run_code E U code input_data w1 = (inr (output, error), w2) /\
    error <> [] /\ sig = normalize_error U error.
Proof.
  destruct (solve_task_summary w0) as (t & result' & events & -> & Htr & _ & H).
  intros [= -> <-]. unfold oracle_calls. rewrite (events_since_app _ _ _ Htr).
  destruct H as (? & [? ?] & ?). done.
Qed.

(** X4.  A session that ends with its attempts exhausted has called the
    oracles exactly [MAX_ATTEMPTS] times and returns [None]; one that ends
    because the time is up has called them less often and returns [None]
    as well. *)
Theorem exhausted_after_all_attempts (w0 : world W) (t : termination)
  (result : option str) :
  fst (solve_task' w0) = inr (t, result) ->
  match t with
  | Exhausted =>
      result = None /\
      length (oracle_calls w0 (snd (solve_task' w0))) = MAX_ATTEMPTS
  | TimedOut =>
      result = None /\
      (length (oracle_calls w0 (snd (solve_task' w0))) < MAX_ATTEMPTS)%nat
  | _ => True
  end.
Proof.
  destruct (solve_task_summary w0) as (t' & result' & events & -> & Htr & _ & H).
  intros [= <- <-]. unfold oracle_calls. rewrite (events_since_app _ _ _ Htr).
  by destruct t'.
Qed.

(** X5.  The time limit is looked at when an attempt starts: when more
    than [MAX_EXECUTION_TIME] seconds have passed since the start of the
    session, the session ends there, after a last reading of the clock,
    without another call of an oracle, and returns [None]. *)
Theorem time_limit_ends_session (w0 : world W) (attempt : nat)
  (start_time : float) (ls : loop_state) (w : world W) :
  reaches' w0 attempt start_time ls w ->
  (attempt <= MAX_ATTEMPTS)%nat ->
  time_is_up start_time w = true ->
  solve_task' w0 = (inr (TimedOut, None), after_clock' (after_clock' w)) /\
  length (oracle_calls w0 (snd (solve_task' w0))) = (attempt - 1)%nat.
Proof.
  intros Hreach Hle Hup.
  destruct (reaches_inv _ _ _ _ _ Hreach)
    as (Hpos & Hfc & _ & events & Htr & Hlen & _).
  assert (solve_task' w0 =
          (inr (TimedOut, None), after_clock' (after_clock' w))) as Hsolve.
  { rewrite (reaches_solve_task E U _ _ _ _ _ _ _ Hreach Hle).
    replace (S MAX_ATTEMPTS - attempt)%nat
      with (S (MAX_ATTEMPTS - attempt)) by lia.
    cbn [seq for_attempts]. unfold bind, ret.
    rewrite attempt_body_unfold, Hup. unfold finish. cbn [fst snd].
    by rewrite Hfc. }
  split; [done |]. rewrite Hsolve. cbn [snd]. unfold oracle_calls.
  rewrite (events_since_app w0 _ (events ++ [Time; Time])).
  - by rewrite List.filter_app, app_nil_r.
  - cbn [after_clock trace]. by rewrite Htr, <- !app_assoc.
Qed.
End SessionEnd.

Section NoTests.
Context {W : Type} (E : env W) (U : unicode_db) (task_description : str).

(** X6.  With no test case at all, the loop of a session never calls the
    executor, so that no temporary file is made and no child process is
    run: unless the time is up at once, the program that the generator
    returns is accepted as it is, after this one call of an oracle.  (The
    files that [solve_task] writes after its loop, the final code and the
    log, are not events of the model and are not meant here.) *)
Theorem no_test_accepts_first_program (w0 : world W) :
  let o := snd (time_time E (snd (time_time E (outside w0)))) in
  let code := fst (generate_code E task_description PYTHON o) in
  let r := solve_task E U task_description [] w0 in
  List.filter is_executor_call (events_since w0 (snd r)) = [] /\
  ((fst r = inr (TimedOut, None) /\ oracle_calls w0 (snd r) = []) \/
   (fst r = inr (Success code, Some code) /\
    oracle_calls w0 (snd r) = [GenerateCode task_description PYTHON])).
Proof.
  cbv zeta. unfold solve_task, bind, ret. rewrite call_eq. cbn [fst snd].
  change (seq 1 MAX_ATTEMPTS) with (1%nat :: seq 2 49).
  cbn [for_attempts]. unfold bind, ret. rewrite attempt_body_unfold.
  match goal with |- context [float_lt ?a ?b] => destruct (float_lt a b) end.
  - cbn [fst snd]. rewrite call_eq. cbn [fst snd after_clock outside trace].
    unfold oracle_calls, events_since. cbn [trace].
    rewrite <- !app_assoc, drop_app_length.
    split; [done |]. by left.
  - cbn [enumerate for_tests]. unfold ret. cbv zeta. cbn [fst snd].
    unfold obtain_code. cbn [Nat.eqb]. rewrite !call_eq.
    cbn [fst snd after_clock outside trace after_tests begin_attempt
         initial_state current_attempt_errors all_passed final_code].
    rewrite !call_eq. cbn [fst snd outside trace].
    unfold oracle_calls, events_since. cbn [trace after_clock].
    rewrite <- !app_assoc, drop_app_length.
    split; [done |]. by right.
Qed.
End NoTests.

(** ** Instances of the properties of the session *)

Lemma solve_task_result_is_tested_witness :
  fst (solve_task scripted_env ascii_only DIVIDE empty_test (scripted [])) =
    inr (Success DIVISION_BY_ZERO, Some DIVISION_BY_ZERO) /\
  exists attempt start_time ls w w1 w2,
    reaches scripted_env ascii_only DIVIDE empty_test (scripted [])
      attempt start_time ls w /\
    obtain_code scripted_env DIVIDE attempt ls (after_clock scripted_env w) =
      (DIVISION_BY_ZERO, w1) /\
    tests_pass scripted_env ascii_only DIVISION_BY_ZERO
      (enumerate 1 empty_test) w1 w2.
Proof.
  assert (fst (solve_task scripted_env ascii_only DIVIDE empty_test
                 (scripted [])) =
          inr (Success DIVISION_BY_ZERO, Some DIVISION_BY_ZERO)) as Hsolve
    by (vm_compute; reflexivity).
  split; [exact Hsolve |].
  exact (proj2 (solve_task_result_is_tested scripted_env ascii_only DIVIDE
                  empty_test (scripted []) _ _ Hsolve)).
Defined.

Lemma stuck_needs_repeated_error_witness :
  fst (solve_task scripted_env ascii_only DIVIDE one_test stuck_world) =
    inr (Stuck ZERO_DIVISION, None) /\
  (2 <= length (oracle_calls stuck_world
                  (snd (solve_task scripted_env ascii_only DIVIDE one_test
                          stuck_world))))%nat.
Proof.
  assert (fst (solve_task scripted_env ascii_only DIVIDE one_test stuck_world) =
          inr (Stuck ZERO_DIVISION, None)) as Hsolve
    by (vm_compute; reflexivity).
  split; [exact Hsolve |].
  exact (proj1 (proj2 (stuck_needs_repeated_error scripted_env ascii_only
                         DIVIDE one_test stuck_world _ _ Hsolve))).
Defined.

Lemma exhausted_after_all_attempts_witness :
  fst (solve_task scripted_env ascii_only DIVIDE one_test (scripted [])) =
    inr (Exhausted, None) /\
  length (oracle_calls (scripted [])
            (snd (solve_task scripted_env ascii_only DIVIDE one_test
                    (scripted [])))) = MAX_ATTEMPTS.
Proof.
  assert (fst (solve_task scripted_env ascii_only DIVIDE one_test
                 (scripted [])) = inr (Exhausted, None)) as Hsolve
    by (vm_compute; reflexivity).
  split; [exact Hsolve |].
  exact (proj2 (exhausted_after_all_attempts scripted_env ascii_only DIVIDE
                  one_test (scripted []) _ _ Hsolve)).
Defined.

Lemma time_limit_ends_session_witness :
  fst (solve_task clocked_env ascii_only DIVIDE one_test late_world) =
    inr (TimedOut, None) /\
  length (oracle_calls late_world
            (snd (solve_task clocked_env ascii_only DIVIDE one_test
                    late_world))) = 0%nat.
Proof.
  assert (reaches clocked_env ascii_only DIVIDE one_test late_world 1
            (S754_zero false) initial_state
            {| outside := ([float_of_int 301], []); trace := [Time] |})
    as Hreach by (by constructor).
  destruct (time_limit_ends_session clocked_env ascii_only DIVIDE one_test
              late_world 1 _ _ _ Hreach) as [Hsolve Hcalls].
  - unfold MAX_ATTEMPTS. lia.
  - vm_compute. reflexivity.
  - split; [by rewrite Hsolve | exact Hcalls].
Defined.

(** ** Instances of the properties of the executor *)

Lemma temporary_file_cleanup_witness :
  exists events (w1 : world (list (exn + CompletedProcess))),
    trace w1 = [] ++ events /\
    List.filter is_cleanup events = [] /\
    trace (snd (run_code scripted_env ascii_only DIVISION_BY_ZERO []
                  (scripted []))) =
      trace w1 ++ [PathExists TEMP_NAME; OsRemove TEMP_NAME].
Proof.
  apply (temporary_file_cleanup scripted_env ascii_only DIVISION_BY_ZERO []
           (scripted []) TEMP_NAME []); [reflexivity | done].
Defined.

Lemma stderr_names_the_package_witness :
  search_missing_module (strip ascii_only (stderr missing_module_process)) =
    Some (lit "foo") /\
  install_event (lit "foo") ∈
    trace (snd (run_code scripted_env ascii_only (lit "import foo") []
                  missing_module_world)).
Proof.
  apply (stderr_names_the_package scripted_env ascii_only (lit "import foo")
           [] missing_module_world TEMP_NAME missing_module_process
           [inr quiet_process; inr missing_module_process]
           (lit "ModuleNotFoundError: ") squote (lit "foo") squote []).
  - apply scripted_first_run.
  - vm_compute. reflexivity.
  - vm_compute. reflexivity.
  - vm_compute. reflexivity.
  - reflexivity.
  - reflexivity.
  - done.
  - repeat constructor.
Defined.

(** ** Further properties of the evaluator *)

(** The sign given to the rounding is the sign of its result, and nothing
    else depends on it. *)
Lemma SFabs_binary_round (sx sx' : bool) (m : positive) (e : Z) :
  SFabs (binary_round prec emax sx m e) =
  SFabs (binary_round prec emax sx' m e).
Proof.
  unfold binary_round, binary_round_aux.
  destruct (shl_align m e _) as [mz ez].
  destruct (shr_fexp prec emax (Z.pos mz) ez loc_Exact) as [mrs e'].
  destruct (shr_fexp prec emax _ e' loc_Exact) as [mrs' e''].
  destruct (shr_m mrs'); [done | | done].
  by destruct (e'' <=? emax - prec)%Z.
Qed.

Lemma SFabs_binary_normalize_opp (m e : Z) :
  SFabs (binary_normalize prec emax (- m) e false) =
  SFabs (binary_normalize prec emax m e false).
Proof. destruct m; [done | | ]; apply SFabs_binary_round. Qed.

(** The absolute value of a difference does not depend on the order of its
    terms. *)
Lemma float_abs_sub_comm (x y : float) :
  float_abs (float_sub x y) = float_abs (float_sub y x).
Proof.
  unfold float_abs, float_sub.
  destruct x as [sx|sx| |sx mx ex], y as [sy|sy| |sy my ey];
    try done; try (by destruct sx, sy).
  cbn [SFsub]. cbv zeta. rewrite (Z.min_comm ey ex).
  rewrite <- SFabs_binary_normalize_opp. f_equal. f_equal. lia.
Qed.

Lemma float_sub_diag (x : float) :
  float_is_finite x = true -> float_abs (float_sub x x) = S754_zero false.
Proof.
  unfold float_abs, float_sub.
  destruct x as [[|]| | |s m e]; try done. intros _.
  cbn [SFsub]. cbv zeta. by rewrite Z.sub_diag.
Qed.

(** X10.  The evaluator is symmetric: the actual and the expected output
    can be exchanged. *)
Theorem evaluate_output_symmetric (U : unicode_db)
  (actual_output expected_output : str) :
  evaluate_output U actual_output expected_output =
  evaluate_output U expected_output actual_output.
Proof.
  unfold evaluate_output.
  assert (str_eqb (strip U actual_output) (strip U expected_output) =
          str_eqb (strip U expected_output) (strip U actual_output)) as Heq.
  { unfold str_eqb. apply bool_decide_ext. by split. }
  destruct (float_of_str U (strip U actual_output)) as [actual|],
    (float_of_str U (strip U expected_output)) as [expected|]; try done.
  unfold float_lt. by rewrite float_abs_sub_comm.
Qed.

(** X11.  Two outputs that [float] reads as the same number are equivalent
    exactly when this number is finite, however they are written. *)
Theorem same_number_is_equivalent (U : unicode_db)
  (actual_output expected_output : str) (x : float) :
  float_of_str U (strip U actual_output) = Some x ->
  float_of_str U (strip U expected_output) = Some x ->
  evaluate_output U actual_output expected_output = float_is_finite x.
Proof.
  intros Ha He. unfold evaluate_output. rewrite Ha, He.
  destruct (float_is_finite x) eqn:Hfin.
  - by rewrite float_sub_diag.
  - by destruct x as [| [|] | |].
Qed.

Lemma same_number_is_equivalent_witness :
  evaluate_output ascii_only (lit "1.0") (lit " 1e0 ") = true.
Proof.
  apply (same_number_is_equivalent ascii_only (lit "1.0") (lit " 1e0 ")
           (float_of_decimal false 1 0)); vm_compute; reflexivity.
Defined.

Section Padding.
Context (U : unicode_db).

Local Abbreviation spaces := (Forall (fun c => isspace U c = true)).

Lemma lstrip_spaces (p s : str) : spaces p -> lstrip U (p ++ s) = lstrip U s.
Proof. induction 1 as [|c p Hc _ IH]; [done |]. simpl. by rewrite Hc. Qed.

Lemma rstrip_spaces (s p : str) : spaces p -> rstrip U (s ++ p) = rstrip U s.
Proof.
  intros Hp. induction s as [|c s IH].
  - simpl. induction Hp as [|a p Ha _ IH]; [done |].
    simpl. by rewrite IH, Ha.
  - simpl. by rewrite IH.
Qed.

(** Whitespace around a string does not change what [strip] makes of
    it. *)
Lemma strip_padding (p s p' : str) :
  spaces p -> spaces p' -> strip U (p ++ s ++ p') = strip U s.
Proof.
  intros Hp Hp'. unfold strip. rewrite lstrip_spaces by done.
  induction s as [|c s IH].
  - simpl. rewrite <- (app_nil_r p'), lstrip_spaces by done. done.
  - simpl. destruct (isspace U c); [done |].
    change (c :: s ++ p') with ((c :: s) ++ p'). by rewrite rstrip_spaces.
Qed.

(** X12.  The whitespace around the actual output, a final newline for
    one, does not change the verdict of the evaluator. *)
Theorem evaluate_output_ignores_padding (p actual_output p'
  expected_output : str) :
  spaces p -> spaces p' ->
  evaluate_output U (p ++ actual_output ++ p') expected_output =
  evaluate_output U actual_output expected_output.
Proof.
  intros Hp Hp'. unfold evaluate_output. by rewrite strip_padding.
Qed.
End Padding.

Lemma evaluate_output_ignores_padding_witness :
  evaluate_output ascii_only ([32] ++ lit "42" ++ [nl]) (lit "42") =
  evaluate_output ascii_only (lit "42") (lit "42").
Proof.
  apply (evaluate_output_ignores_padding ascii_only [32] (lit "42") [nl]);
    by repeat constructor.
Defined.

(** ** Further properties of the error normalizer *)

Section SubstitutionParts.
Context (matcher : str -> option nat) (repl : str).
Hypothesis matcher_length :
  forall t n, matcher t = Some n -> (0 < n <= length t)%nat.

(** The substitution goes through a text part by part, where no match
    that starts in the first part depends on the second. *)
Lemma re_sub_app (a s : str) :
  (forall a1 a2, a = a1 ++ a2 -> a2 <> [] -> matcher (a2 ++ s) = matcher a2) ->
  re_sub matcher repl (a ++ s) =
  re_sub matcher repl a ++ re_sub matcher repl s.
Proof.
  remember (length a) as k eqn:Hk.
  revert a Hk. induction (lt_wf k) as [k _ IH]; intros a -> Ha.
  destruct a as [|c a]; [done |].
  cbn [app]. rewrite !re_sub_cons.
  change (c :: a ++ s) with ((c :: a) ++ s).
  rewrite (Ha [] (c :: a)) by done.
  destruct (matcher (c :: a)) as [n|] eqn:Hm.
  - apply matcher_length in Hm. cbn [length] in Hm.
    rewrite drop_app_le by lia. rewrite <- app_assoc. f_equal.
    apply (IH (length (drop (Nat.pred n) a))); [| done |].
    + rewrite length_drop. simpl. lia.
    + intros a1 a2 Heq Hne.
      apply (Ha (c :: take (Nat.pred n) a ++ a1) a2); [|done].
      cbn [app]. by rewrite <- app_assoc, <- Heq, take_drop.
  - cbn [app]. f_equal. apply (IH (length a)); [simpl; lia | done |].
    intros a1 a2 -> Hne. by apply (Ha (c :: a1) a2).
Qed.
End SubstitutionParts.

Section SubstitutionHead.
Context (matcher : str -> option nat) (repl : str) (h : char) (repl' : str).
Hypothesis matcher_head :
  forall s, matcher s <> None -> exists s', s = h :: s'.
Hypothesis repl_head : repl = h :: repl'.

(** A substitution whose replacement starts like its pattern keeps the
    first character of a text. *)
Lemma re_sub_head (c : char) (s : str) :
  exists u, re_sub matcher repl (c :: s) = c :: u.
Proof.
  rewrite re_sub_cons. destruct (matcher (c :: s)) as [n|] eqn:Hm; [|eauto].
  destruct (matcher_head (c :: s)) as [s' Hs']; [by rewrite Hm |].
  injection Hs' as -> _. rewrite repl_head. cbn [app]. eauto.
Qed.
End SubstitutionHead.

Section LineNumberParts.
Context (U : unicode_db).

Local Abbreviation digits := (Forall (fun c => isdecimal U c = true)).

Lemma match_line_no_length (t : str) (n : nat) :
  match_line_no U t = Some n -> (0 < n <= length t)%nat.
Proof.
  unfold match_line_no. destruct (startswith LINE_SP t) eqn:Hs; [|done].
  apply startswith_spec in Hs as [r ->].
  change (drop 5 (LINE_SP ++ r)) with r.
  pose proof (run_length_le (isdecimal U) r).
  destruct (run_length (isdecimal U) r); [done |]. intros [= <-].
  rewrite length_app. change (length LINE_SP) with 5%nat. lia.
Qed.

Lemma run_length_app_stop (f : char -> bool) (w : str) (x : char)
  (r : str) :
  f x = false -> run_length f (w ++ x :: r) = run_length f w.
Proof.
  intros Hx. induction w as [|c w IH]; simpl; [by rewrite Hx |].
  by rewrite IH.
Qed.

Lemma run_length_app_all (f : char -> bool) (w r : str) :
  Forall (fun c => f c = true) w ->
  run_length f (w ++ r) = (length w + run_length f r)%nat.
Proof. induction 1 as [|c w Hc _ IH]; [done |]. simpl. by rewrite Hc, IH. Qed.

(** A line number that starts before another [line ] ends before it. *)
Lemma match_line_no_before_line (a t : str) :
  a <> [] -> match_line_no U (a ++ LINE_SP ++ t) = match_line_no U a.
Proof.
  intros Ha. unfold match_line_no.
  destruct a as [|c1 [|c2 [|c3 [|c4 [|c5 a]]]]]; [done | | | | |].
  1-4: destruct (startswith LINE_SP _) eqn:H1;
       [apply startswith_spec in H1 as [r1 Hr1]; unfold LINE_SP in Hr1;
        cbn in Hr1; simplify_eq |];
       destruct (startswith LINE_SP _) eqn:H2;
       [apply startswith_spec in H2 as [r2 Hr2]; unfold LINE_SP in Hr2;
        cbn in Hr2; simplify_eq | done].
  pose proof (startswith_app_long LINE_SP [c1; c2; c3; c4; c5]
                (a ++ LINE_SP ++ t) a) as Hlong.
  cbn [app] in Hlong |- *. rewrite Hlong by (simpl; lia).
  change (drop 5 (c1 :: c2 :: c3 :: c4 :: c5 :: a ++ LINE_SP ++ t))
    with (a ++ 108 :: [105; 110; 101; 32] ++ t).
  change (drop 5 (c1 :: c2 :: c3 :: c4 :: c5 :: a)) with a.
  by rewrite run_length_app_stop.
Qed.

(** The substitution of the line numbers, at a line number. *)
Lemma sub_line_at_line_number (a d b : str) :
  d <> [] -> digits d -> run_length (isdecimal U) b = 0%nat ->
  re_sub (match_line_no U) LINE_X (a ++ LINE_SP ++ d ++ b) =
  re_sub (match_line_no U) LINE_X a ++ LINE_X ++
  re_sub (match_line_no U) LINE_X b.
Proof.
  intros Hd Hall Hb.
  rewrite (re_sub_app _ _ match_line_no_length).
  2:{ intros a1 a2 _ Hne. by apply match_line_no_before_line. }
  f_equal.
  change (LINE_SP ++ d ++ b) with (108 :: [105; 110; 101; 32] ++ d ++ b).
  rewrite re_sub_cons.
  assert (match_line_no U (108 :: [105; 110; 101; 32] ++ d ++ b) =
          Some (5 + length d)%nat) as ->.
  { unfold match_line_no.
    change (drop 5 (108 :: [105; 110; 101; 32] ++ d ++ b)) with (d ++ b).
    change (startswith LINE_SP (108 :: [105; 110; 101; 32] ++ d ++ b))
      with true.
    cbv iota. rewrite run_length_app_all, Hb, Nat.add_0_r by done.
    by destruct d. }
  f_equal. cbn [Nat.pred Nat.add]. f_equal.
  change (drop (S (S (S (S (length d))))) ([105; 110; 101; 32] ++ d ++ b))
    with (drop (length d) (d ++ b)).
  by rewrite drop_app_length.
Qed.

Lemma normalize_error_eq (s : str) :
  s <> [] ->
  normalize_error U s =
  join nl (core_error_of U (split nl
    (re_sub (match_tmp_name U) TMPX_PY
       (re_sub match_file_path FILE_X
          (re_sub (match_line_no U) LINE_X s))))).
Proof. destruct s as [|c s]; [done |]. intros _. apply normalize_error_cons. Qed.

(** X13.  Two error messages that differ by a line number only have the
    same signature. *)
Theorem normalize_error_ignores_line_numbers (a d1 d2 b : str) :
  d1 <> [] -> d2 <> [] -> digits d1 -> digits d2 ->
  run_length (isdecimal U) b = 0%nat ->
  normalize_error U (a ++ LINE_SP ++ d1 ++ b) =
  normalize_error U (a ++ LINE_SP ++ d2 ++ b).
Proof.
  intros Hd1 Hd2 Hall1 Hall2 Hb.
  rewrite !normalize_error_eq by (by destruct a).
  by rewrite !sub_line_at_line_number.
Qed.

(** X14.  In a signature no line number is left, every quoted path that
    follows [File] is [X], and every name of a temporary file is
    [tmpX.py]; the lines of a signature are not blank and have no
    whitespace around them. *)
Theorem normalize_error_normal_form (x : str) :
  everywhere
    (fun t =>
       regex_match (LINE_NO_RE U) t = None /\
       (regex_match FILE_PATH_RE t <> None -> startswith FILE_X t = true) /\
       (regex_match (TMP_NAME_RE U) t <> None ->
        startswith TMPX_PY t = true))
    (normalize_error U x) /\
  (normalize_error U x <> [] ->
   Forall (fun l => l <> [] /\ strip U l = l)
     (split nl (normalize_error U x))).
Proof.
  destruct x as [|c x].
  { split; [|done]. cbn. split_and!; [done | done.. ]. }
  rewrite normalize_error_cons.
  set (n := re_sub (match_tmp_name U) TMPX_PY _).
  assert (clean_line U n /\ clean_file n /\ clean_tmp U n) as (H1 & H2 & H3).
  { split_and!.
    - apply (clean_line_sub_tmp U), (clean_line_sub_file U),
        (clean_line_sub_line U).
    - apply (clean_file_sub_tmp U), clean_file_sub_file.
    - apply (clean_tmp_sub_tmp U). }
  rewrite <- (join_split nl n) in H1, H2, H3.
  apply clean_line_core in H1. apply (clean_file_core U) in H2.
  apply clean_tmp_core in H3.
  pose proof (core_error_of_stripped U _ (split_sep_free nl n)) as Hcs.
  split.
  - revert H1 H2 H3. unfold clean_line, clean_file, clean_tmp.
    generalize (join nl (core_error_of U (split nl n))). intros s.
    induction s as [|a s IH]; cbn [everywhere];
      rewrite regex_match_line_no, regex_match_file_path,
        regex_match_tmp_name.
    + tauto.
    + intros [? ?] [? ?] [? ?]. split; [tauto | by apply IH].
  - intros Hne. rewrite split_join.
    + eapply Forall_impl; [exact Hcs | by intros ? (? & ? & _)].
    + by destruct (core_error_of U (split nl n)).
    + eapply Forall_impl; [exact Hcs | by intros ? (_ & _ & ?)].
Qed.

Lemma rstrip_cons_nonspace (c : char) (s : str) :
  isspace U c = false -> exists r, rstrip U (c :: s) = c :: r.
Proof.
  intros Hc. simpl. destruct (rstrip U s); [rewrite Hc |]; eauto.
Qed.

(** X15.  The signature of an error message that does not start with
    whitespace is not empty: it starts with the same character. *)
Theorem signature_keeps_first_character (c : char) (x : str) :
  isspace U c = false -> exists r, normalize_error U (c :: x) = c :: r.
Proof.
  intros Hc. rewrite normalize_error_cons.
  destruct (re_sub_head (match_line_no U) LINE_X 108 (lit "ine X")
              (match_line_no_head U) eq_refl c x) as [u1 ->].
  destruct (re_sub_head match_file_path FILE_X 70
              (lit "ile " ++ [dquote] ++ lit "X" ++ [dquote])
              match_file_path_head eq_refl c u1) as [u2 ->].
  destruct (re_sub_head (match_tmp_name U) TMPX_PY 116 (lit "mpX.py")
              (match_tmp_name_head U) eq_refl c u2) as [u3 ->].
  assert (c <> nl) as Hnl by (by intros ->).
  cbn [split]. destruct (N.eqb_spec c nl) as [?|_]; [done |].
  destruct (split nl u3) as [|l ls] eqn:Hsplit;
    [by apply split_not_nil in Hsplit |].
  rewrite core_error_of_cons. unfold strip at 1 2.
  rewrite lstrip_fixed by done.
  destruct (rstrip_cons_nonspace c l Hc) as [r ->].
  rewrite (startswith_frame_nonspace U) by done.
  rewrite join_cons. cbn [app]. eauto.
Qed.
End LineNumberParts.

Lemma normalize_error_ignores_line_numbers_witness :
  normalize_error ascii_only (stderr (failing_process "3")) =
  normalize_error ascii_only (stderr (failing_process "14")).
Proof.
  apply (normalize_error_ignores_line_numbers ascii_only
           (lit "Traceback (most recent call last):" ++ [nl] ++
            lit "  File " ++ [dquote] ++ lit "/tmp/tmpk3v9.py" ++ [dquote] ++
            lit ", ")
           (lit "3") (lit "14")
           (lit ", in <module>" ++ [nl] ++
            lit "ZeroDivisionError: division by zero" ++ [nl]));
    first [done | by repeat constructor].
Defined.

Lemma signature_keeps_first_character_witness :
  exists r,
    normalize_error ascii_only (lit "ZeroDivisionError: division by zero") =
    90 :: r.
Proof.
  apply (signature_keeps_first_character ascii_only 90
           (lit "eroDivisionError: division by zero")).
  reflexivity.
Defined.

(** ** The code fence of [utils.py] *)

Section StripCharsFacts.
Context (chars : str).

Lemma rstrip_chars_app (s p : str) :
  Forall (fun c => contains_char c chars = true) p ->
  rstrip_chars chars (s ++ p) = rstrip_chars chars s.
Proof.
  intros Hp. induction s as [|c s IH].
  - simpl. induction Hp as [|a p Ha _ IH]; [done |].
    simpl. by rewrite IH, Ha.
  - simpl. by rewrite IH.
Qed.

Lemma rstrip_chars_fixed (s : str) (d : char) :
  contains_char d chars = false ->
  rstrip_chars chars (s ++ [d]) = s ++ [d].
Proof.
  intros Hd. induction s as [|c s IH]; simpl; [by rewrite Hd |].
  rewrite IH. by destruct (s ++ [d]) eqn:Hs; [destruct s |].
Qed.
End StripCharsFacts.

Section CodeFence.
Context (U : unicode_db).

Lemma rstrip_stripped (s : str) : strip U s = s -> rstrip U s = s.
Proof.
  intros Hs. destruct s as [|c s]; [done |].
  pose proof (strip_head U _ _ _ Hs) as Hc.
  unfold strip in Hs. by rewrite lstrip_fixed in Hs.
Qed.

Lemma rstrip_app_stripped (a s : str) :
  s <> [] -> strip U s = s -> rstrip U (a ++ s) = a ++ s.
Proof.
  intros Hne Hs%rstrip_stripped. induction a as [|c a IH]; [done |].
  cbn [app rstrip]. rewrite IH. by destruct (a ++ s) eqn:Ha; [destruct a |].
Qed.

Lemma strip_nl_cons (s : str) : strip U (nl :: s) = strip U s.
Proof. done. Qed.

(** What is left of a fenced text when the backticks at its ends are
    dropped. *)
Lemma strip_chars_fenced (s : str) (c d : char) :
  c <> 96 -> d <> 96 ->
  strip_chars BACKTICK (FENCE ++ c :: s ++ d :: FENCE) = c :: s ++ [d].
Proof.
  intros Hc Hd. unfold strip_chars.
  assert (contains_char c BACKTICK = false) as Hc'.
  { unfold BACKTICK. cbn [contains_char]. by destruct (N.eqb_spec 96 c). }
  assert (contains_char d BACKTICK = false) as Hd'.
  { unfold BACKTICK. cbn [contains_char]. by destruct (N.eqb_spec 96 d). }
  change (lstrip_chars BACKTICK (FENCE ++ c :: s ++ d :: FENCE))
    with (lstrip_chars BACKTICK (c :: s ++ d :: FENCE)).
  cbn [lstrip_chars]. rewrite Hc'.
  replace (c :: s ++ d :: FENCE) with (((c :: s) ++ [d]) ++ FENCE)
    by (by rewrite <- !app_assoc).
  rewrite rstrip_chars_app by (by repeat constructor).
  by rewrite rstrip_chars_fixed.
Qed.

(** X16.  A program wrapped in a code fence comes back as it was, with the
    language tag or without it; but without the tag, a program that itself
    starts with the word [python] loses this word. *)
Theorem strip_code_fence_unwraps (c : str) :
  strip U c = c ->
  strip_code_fence U (FENCE ++ PYTHON ++ nl :: c ++ nl :: FENCE) = c /\
  strip_code_fence U (FENCE ++ nl :: c ++ nl :: FENCE) =
    if startswith PYTHON c then strip U (drop (length PYTHON) c) else c.
Proof.
  intros Hc. unfold strip_code_fence. rewrite !startswith_app. cbv zeta. split.
  - destruct c as [|a c]; [done |].
    change (FENCE ++ PYTHON ++ nl :: (a :: c) ++ nl :: FENCE)
      with (FENCE ++ 112 :: ([121; 116; 104; 111; 110; 10] ++ a :: c) ++
            nl :: FENCE).
    rewrite strip_chars_fenced by done.
    assert (strip U (112 :: ([121; 116; 104; 111; 110; 10] ++ a :: c) ++
                     [nl]) =
            PYTHON ++ nl :: a :: c) as ->.
    { unfold strip at 1. rewrite lstrip_fixed by done.
      change (112 :: ([121; 116; 104; 111; 110; 10] ++ a :: c) ++ [nl])
        with (([112; 121; 116; 104; 111; 110; 10] ++ a :: c) ++ [nl]).
      rewrite rstrip_spaces by (by repeat constructor).
      by rewrite rstrip_app_stripped. }
    by rewrite startswith_app, drop_app_length, strip_nl_cons, Hc.
  - change (FENCE ++ nl :: c ++ nl :: FENCE)
      with (FENCE ++ 10 :: c ++ 10 :: FENCE).
    rewrite strip_chars_fenced by done.
    rewrite strip_nl_cons.
    rewrite <- (app_nil_l (c ++ [10])), strip_padding
      by (by repeat constructor).
    by rewrite Hc.
Qed.

(** X17.  Only the outermost fence is removed: when the text goes on with
    a second fence on the next line, this one is left in the result. *)
Theorem strip_code_fence_outer_only (c : str) (d : char) :
  isspace U d = false -> d <> 96 ->
  strip_code_fence U (FENCE ++ nl :: FENCE ++ c ++ [d]) = FENCE ++ c ++ [d].
Proof.
  intros Hspace Hd. unfold strip_code_fence. rewrite startswith_app. cbv zeta.
  assert (strip_chars BACKTICK (FENCE ++ nl :: FENCE ++ c ++ [d]) =
          nl :: FENCE ++ c ++ [d]) as ->.
  { unfold strip_chars.
    change (lstrip_chars BACKTICK (FENCE ++ nl :: FENCE ++ c ++ [d]))
      with (nl :: FENCE ++ c ++ [d]).
    change (nl :: FENCE ++ c ++ [d]) with ((nl :: FENCE ++ c) ++ [d])
      at 1.
    apply rstrip_chars_fixed. unfold BACKTICK. cbn [contains_char].
    by destruct (N.eqb_spec 96 d). }
  rewrite strip_nl_cons.
  change (FENCE ++ c ++ [d]) with (96 :: (96 :: 96 :: c) ++ [d]).
  by rewrite strip_fixed.
Qed.
End CodeFence.

Lemma strip_code_fence_unwraps_witness :
  strip_code_fence ascii_only
    (FENCE ++ PYTHON ++ nl :: lit "print(1)" ++ nl :: FENCE) =
    lit "print(1)" /\
  strip_code_fence ascii_only
    (FENCE ++ nl :: lit "pythonic = 1" ++ nl :: FENCE) = lit "ic = 1".
Proof.
  split.
  - apply (strip_code_fence_unwraps ascii_only (lit "print(1)")).
    vm_compute. reflexivity.
  - apply (strip_code_fence_unwraps ascii_only (lit "pythonic = 1")).
    vm_compute. reflexivity.
Defined.

Lemma strip_code_fence_outer_only_witness :
  strip_code_fence ascii_only
    (FENCE ++ nl :: FENCE ++ lit "python" ++ [nl] ++ lit "print(1" ++ [41]) =
  FENCE ++ lit "python" ++ [nl] ++ lit "print(1" ++ [41].
Proof.
  apply (strip_code_fence_outer_only ascii_only
           (lit "python" ++ [nl] ++ lit "print(1") 41); done.
Defined.

(** ** The oracles of [generator.py] and [debugger.py] *)

Section Oracles.
Context {W : Type} (A : api W) (U : unicode_db) (C : unicode_case).

Local Abbreviation spaces := (Forall (fun c => isspace U c = true)).

Lemma strip_fenced (p c p' : str) :
  spaces p -> spaces p' ->
  strip U (p ++ (FENCE ++ PYTHON ++ nl :: c ++ nl :: FENCE) ++ p') =
  FENCE ++ PYTHON ++ nl :: c ++ nl :: FENCE.
Proof.
  intros Hp Hp'. rewrite strip_padding by done.
  change (FENCE ++ PYTHON ++ nl :: c ++ nl :: FENCE)
    with (96 :: ([96; 96; 112; 121; 116; 104; 111; 110; 10] ++ c) ++
          [10; 96; 96] ++ [96]).
  rewrite app_assoc. by apply strip_fixed.
Qed.

(** X18.  When the model answers with a program in a fence with the
    language tag, with whitespace around the fence or not, [generate_code]
    and [debug_code] return this program, after the one prompt that they
    send. *)
Theorem oracles_unwrap_answer (task_prompt feedback_summary language : str)
  (s : session W) (p c p' : str) (o1 o2 : W) :
  spaces p -> spaces p' -> strip U c = c ->
  generate_content A (generator.generate_code_prompt U C task_prompt language)
    (model_state s) =
    (inr (p ++ (FENCE ++ PYTHON ++ nl :: c ++ nl :: FENCE) ++ p'), o1) ->
  generate_content A
    (debugger.debug_code_prompt U C task_prompt feedback_summary language)
    (model_state s) =
    (inr (p ++ (FENCE ++ PYTHON ++ nl :: c ++ nl :: FENCE) ++ p'), o2) ->
  generator.generate_code A U C task_prompt language s =
    (c, {| model_state := o1;
           prompts := prompts s ++
             [generator.generate_code_prompt U C task_prompt language] |}) /\
  debugger.debug_code A U C task_prompt feedback_summary language s =
    (c, {| model_state := o2;
           prompts := prompts s ++
             [debugger.debug_code_prompt U C task_prompt feedback_summary
                language] |}).
Proof.
  intros Hp Hp' Hc Hgen Hdebug.
  unfold generator.generate_code, debugger.debug_code, ask.
  rewrite Hgen, Hdebug. cbv zeta. rewrite strip_fenced by done.
  by rewrite (proj1 (strip_code_fence_unwraps U c Hc)).
Qed.
End Oracles.

Lemma oracles_unwrap_answer_witness :
  fst (generator.generate_code scripted_api ascii_only ascii_case
         (lit "add two numbers") PYTHON
         (answering [inr (FENCE ++ PYTHON ++ nl :: lit "print(1)" ++
                          nl :: FENCE ++ [nl])])) = lit "print(1)" /\
  fst (debugger.debug_code scripted_api ascii_only ascii_case
         (lit "add two numbers") [] PYTHON
         (answering [inr (FENCE ++ PYTHON ++ nl :: lit "print(1)" ++
                          nl :: FENCE ++ [nl])])) = lit "print(1)".
Proof.
  destruct (oracles_unwrap_answer scripted_api ascii_only ascii_case
              (lit "add two numbers") [] PYTHON
              (answering [inr (FENCE ++ PYTHON ++ nl :: lit "print(1)" ++
                               nl :: FENCE ++ [nl])])
              [] (lit "print(1)") [nl] [] [])
    as [Hgen Hdebug].
  - done.
  - by repeat constructor.
  - done.
  - done.
  - done.
  - rewrite Hgen, Hdebug. done.
Defined.

(** ** The filter and the categories of the tasks *)

Lemma any_in_incl (words words' : list str) (s : str) :
  forallb (fun word => existsb (str_eqb word) words') words = true ->
  any_in words s = true -> any_in words' s = true.
Proof.
  intros Hincl (word & Hin & Hword)%existsb_exists.
  apply existsb_exists. exists word. split; [|done].
  rewrite forallb_forall in Hincl.
  apply Hincl, existsb_exists in Hin as (word' & Hin' & Heq).
  by apply str_eqb_true in Heq as ->.
Qed.

(** X19.  A task that [get_task_category] puts in the category of the web
    interfaces or in the one of the visualizations is never taken for an
    output-based task by [is_output_based_task]. *)
Theorem web_and_plot_tasks_are_rejected (C : unicode_case)
  (task_description : str) :
  In (get_task_category C task_description)
    [lit "web_api"; lit "visualization"] ->
  is_output_based_task C task_description = false.
Proof.
  unfold get_task_category, is_output_based_task. cbv zeta.
  set (task_lower := lower C task_description).
  repeat match goal with
         | |- In (if any_in ?words task_lower then _ else _) _ -> _ =>
             let H := fresh "H" in destruct (any_in words task_lower) eqn:H
         end;
    try (intros [Heq|[Heq|[]]]; discriminate Heq); intros _.
  - assert (any_in non_output_keywords task_lower = true) as ->; [|done].
    eapply any_in_incl; [| exact H3]. vm_compute. reflexivity.
  - assert (any_in non_output_keywords task_lower = true) as ->; [|done].
    eapply any_in_incl; [| exact H4]. vm_compute. reflexivity.
Qed.

Lemma web_and_plot_tasks_are_rejected_witness :
  is_output_based_task ascii_case (lit "Plot the sum of two numbers") = false.
Proof.
  apply web_and_plot_tasks_are_rejected. right. left. vm_compute. reflexivity.
Defined.

(** ** The test cases of [generator.py] *)

Lemma replace_absent (old new s : str) :
  contains old s = false -> replace old new s = s.
Proof.
  unfold replace. induction s as [|c s IH]; [done |].
  cbn [contains]. intros [Hhead Htail]%orb_false_iff.
  rewrite re_sub_cons, Hhead. f_equal. by apply IH.
Qed.

Lemma replace_head (old new s : str) :
  old <> [] -> replace old new (old ++ s) = new ++ replace old new s.
Proof.
  intros Hold. unfold replace. destruct old as [|c old]; [done |].
  cbn [app]. rewrite re_sub_cons.
  change (c :: old ++ s) with ((c :: old) ++ s). rewrite startswith_app.
  cbn [length Nat.pred]. by rewrite drop_app_length.
Qed.

Lemma contains_startswith (p s : str) :
  contains p s = false -> startswith p s = false.
Proof. destruct s; cbn [contains]; by intros [? _]%orb_false_iff. Qed.

Section Parser.
Context (U : unicode_db).

Local Abbreviation parse_lines := (generator.parse_lines U).
Local Abbreviation INPUT_COLON := generator.INPUT_COLON.
Local Abbreviation OUTPUT_COLON := generator.OUTPUT_COLON.

Lemma strip_space_cons (s : str) : strip U (32 :: s) = strip U s.
Proof. done. Qed.

(** The line of the first part of an input, as the parser reads it. *)
Lemma input_line_parsed (p : str) :
  plain_line U p ->
  startswith INPUT_COLON (strip U (lit "Input: " ++ p)) = true /\
  strip U (replace INPUT_COLON []
             (strip U (lit "Input: " ++ p))) = p.
Proof.
  intros (Hne & Hstrip & _ & Hin & _).
  assert (strip U (lit "Input: " ++ p) = INPUT_COLON ++ 32 :: p) as ->.
  { unfold strip. change (lit "Input: " ++ p) with (73 :: lit "nput: " ++ p).
    rewrite lstrip_fixed by done.
    exact (rstrip_app_stripped U (lit "Input: ") p Hne Hstrip). }
  split; [apply startswith_app |].
  rewrite replace_head by done. cbn [app].
  rewrite replace_absent; [by rewrite strip_space_cons |].
  cbn [contains]. by rewrite Hin.
Qed.

(** The line of an expected output, as the parser reads it. *)
Lemma output_line_parsed (out : str) :
  plain_output U out ->
  startswith OUTPUT_COLON (strip U (lit "Output: " ++ out)) = true /\
  strip U (replace OUTPUT_COLON []
             (strip U (lit "Output: " ++ out))) = out.
Proof.
  intros (Hstrip & _ & Hout). destruct out as [|c out]; [done |].
  assert (strip U (lit "Output: " ++ c :: out) =
          OUTPUT_COLON ++ 32 :: c :: out) as ->.
  { unfold strip.
    change (lit "Output: " ++ c :: out)
      with (79 :: lit "utput: " ++ c :: out).
    rewrite lstrip_fixed by done.
    exact (rstrip_app_stripped U (lit "Output: ") (c :: out) ltac:(done)
             Hstrip). }
  split; [apply startswith_app |].
  rewrite replace_head by done. cbn [app].
  rewrite replace_absent; [by rewrite strip_space_cons |].
  change (contains OUTPUT_COLON (32 :: c :: out))
    with (false || contains OUTPUT_COLON (c :: out)).
  by rewrite Hout.
Qed.

(** The inner loop takes the lines of an input as they are. *)
Lemma parse_lines_parts (n : Z) (parts others more : list str)
  (acc : list (str * str)) :
  Forall (plain_line U) others ->
  parse_lines n (Some parts) (others ++ more) acc =
  parse_lines n (Some (parts ++ others)) more acc.
Proof.
  intros Hothers. revert parts.
  induction Hothers as [|q others (Hne & Hstrip & _ & Hin & Hout) _ IH];
    intros parts; [by rewrite app_nil_r |].
  cbn [app generator.parse_lines]. rewrite Hstrip, Hout.
  rewrite (contains_startswith _ _ Hin). destruct q as [|c q]; [done |].
  cbn [nonempty negb andb]. rewrite IH. by rewrite <- app_assoc.
Qed.

(** The two loops on the lines of one test case. *)
Lemma parse_lines_case (n : Z) (test_case : list str * str)
  (more : list str) (acc : list (str * str)) :
  plain_case U test_case ->
  (Z.of_nat (length acc) < n)%Z ->
  parse_lines n None (case_lines test_case ++ more) acc =
  parse_lines n None more (acc ++ [case_of test_case]).
Proof.
  destruct test_case as [parts out]. intros [Hparts Hout] Hlen.
  cbn [fst snd] in Hparts, Hout.
  destruct (output_line_parsed out Hout) as [Hstart Hvalue].
  unfold case_lines, case_of. cbn [fst snd].
  apply Z.ltb_lt in Hlen.
  destruct Hparts as [|first others Hfirst Hothers].
  - cbn [app generator.parse_lines]. rewrite Hlen.
    change (strip U (lit "Input: ")) with INPUT_COLON.
    change (startswith INPUT_COLON INPUT_COLON) with true. cbv iota.
    change (strip U (replace INPUT_COLON [] INPUT_COLON)) with (@nil N).
    cbn [nonempty]. by rewrite Hstart, Hvalue.
  - destruct (input_line_parsed first Hfirst) as [Hin Hpart].
    cbn [app generator.parse_lines]. rewrite Hlen, Hin, Hpart.
    destruct Hfirst as (Hne & _). destruct first as [|c first]; [done |].
    cbn [nonempty]. rewrite <- app_assoc.
    rewrite (parse_lines_parts _ _ others) by done.
    cbn [app generator.parse_lines]. by rewrite Hstart, Hvalue.
Qed.

Lemma parse_lines_cases (n : Z) (cases : list (list str * str))
  (more : list str) (acc : list (str * str)) :
  Forall (plain_case U) cases ->
  (Z.of_nat (length acc + length cases) <= n)%Z ->
  parse_lines n None (concat (map case_lines cases) ++ more) acc =
  parse_lines n None more (acc ++ map case_of cases).
Proof.
  intros Hcases. revert acc.
  induction Hcases as [|test_case cases Hcase _ IH]; intros acc Hlen.
  - by rewrite app_nil_r.
  - cbn [map concat]. rewrite <- app_assoc.
    rewrite parse_lines_case by (done || (cbn [length] in Hlen; lia)).
    rewrite IH by (rewrite length_app; cbn [length] in *; lia).
    by rewrite <- app_assoc.
Qed.

Lemma case_lines_no_newline (test_case : list str * str) :
  plain_case U test_case -> Forall (fun l => nl ∉ l) (case_lines test_case).
Proof.
  destruct test_case as [parts out]. intros [Hparts (_ & Hout & _)].
  cbn [fst snd] in Hparts, Hout. unfold case_lines. cbn [fst snd]. apply Forall_app. split.
  - destruct Hparts as [|first others (_ & _ & Hfirst & _) Hothers].
    + repeat constructor. by compute; set_solver.
    + constructor.
      * rewrite not_elem_of_app. split; [by compute; set_solver | done].
      * eapply Forall_impl; [exact Hothers | by intros ? (_ & _ & ? & _)].
  - repeat constructor. rewrite not_elem_of_app.
    split; [by compute; set_solver | done].
Qed.

(** The parser reads the test cases that are written in the format of the
    prompt. *)
Lemma parse_response_cases (n : Z) (cases : list (list str * str)) :
  Forall (plain_case U) cases ->
  (Z.of_nat (length cases) <= n)%Z ->
  generator.parse_response U n (join nl (concat (map case_lines cases))) =
  map case_of cases.
Proof.
  intros Hcases Hlen. unfold generator.parse_response.
  destruct cases as [|test_case cases].
  { cbn. by destruct (_ <? n)%Z. }
  rewrite split_join.
  - rewrite <- (app_nil_r (concat _)).
    by rewrite parse_lines_cases.
  - cbn [map concat]. destruct test_case as [[|first others] out]; done.
  - apply Forall_concat, Forall_map.
    eapply Forall_impl; [exact Hcases |]. apply case_lines_no_newline.
Qed.
End Parser.

Lemma slice_to_length {A : Type} (n : Z) (l : list A) :
  (0 <= n)%Z -> length (slice_to n l) = Nat.min (Z.to_nat n) (length l).
Proof.
  intros Hn. unfold slice_to.
  destruct (Z.leb_spec 0 n); [apply length_take | lia].
Qed.

Lemma predefined_cases_length (task_lower : str) (cases : list (str * str)) :
  generator.predefined_cases task_lower = Some cases -> length cases = 3%nat.
Proof.
  unfold generator.predefined_cases.
  repeat (match goal with
          | |- context [if ?b then _ else _] => destruct b
          end; try by intros [= <-]).
Qed.

Section Cases.
Context {W : Type} (A : api W) (U : unicode_db) (C : unicode_case).

(** The outer loop stops at [num_cases] test cases. *)
Lemma parse_lines_length (n : Z) (lines : list str)
  (input_parts : option (list str)) (acc : list (str * str)) :
  match input_parts with
  | Some _ => (Z.of_nat (length acc) < n)%Z
  | None => True
  end ->
  (Z.of_nat (length (generator.parse_lines U n input_parts lines acc)) <=
   Z.max (Z.of_nat (length acc)) n)%Z.
Proof.
  revert input_parts acc.
  induction lines as [|l rest IH]; intros input_parts acc Hacc;
    cbn [generator.parse_lines]; [lia |].
  destruct input_parts as [parts|].
  - destruct (startswith _ _).
    + etrans; [by apply IH |]. rewrite length_app. cbn [length]. lia.
    + by apply IH.
  - destruct (Z.ltb_spec (Z.of_nat (length acc)) n); [| lia].
    destruct (startswith _ _); by apply IH.
Qed.

(** X20.  Asked for at least two test cases, the
    generator gives at least two and at most the larger of three and the
    number asked for, and it calls the model at most once, with the prompt
    of the task. *)
Theorem generate_test_cases_count (task_description : str) (num_cases : Z)
  (s : session W) :
  (2 <= num_cases)%Z ->
  let r := generator.generate_test_cases A U C task_description num_cases s in
  (2 <= length (fst r) <= Z.to_nat (Z.max 3 num_cases))%nat /\
  (snd r = s \/
   prompts (snd r) =
   prompts s ++ [generator.test_cases_prompt task_description num_cases]).
Proof.
  intros Hnum. unfold generator.generate_test_cases. cbv zeta.
  destruct (_ && _).
  { cbn [fst snd generator.print_cases length]. split; [lia | by left]. }
  destruct (generator.predefined_cases _) as [cases|] eqn:Hcases.
  { apply predefined_cases_length in Hcases. cbn [fst snd].
    rewrite Hcases. split; [lia | by left]. }
  unfold ask. destruct (generate_content _ _ _) as [r o].
  assert (2 <= length (slice_to num_cases generator.FALLBACK_CASES)
            <= Z.to_nat (Z.max 3 num_cases))%nat as Hfallback.
  { rewrite slice_to_length by lia. cbn [generator.FALLBACK_CASES length].
    lia. }
  destruct r as [e|text]; cbn [fst snd]; [split; [done | by right] |].
  destruct (Nat.leb_spec 2 (length (generator.parse_response U num_cases
                                      (strip U text)))) as [Hlen|Hlen];
    cbn [fst snd]; (split; [| by right]); [| done].
  rewrite slice_to_length by lia.
  pose proof (parse_lines_length num_cases (split nl (strip U text)) None []
                I) as Hmax.
  unfold generator.parse_response in *. cbn [length] in Hmax. lia.
Qed.

(** X21.  Where the task is no short print statement
    and none of the common problems, and the model answers with at least
    two and at most [num_cases] test cases in the format of the prompt,
    the generator gives these test cases, in their order, the lines of each
    input joined by newlines. *)
Theorem generate_test_cases_reads_format (task_description : str)
  (num_cases : Z) (s : session W) (text : str) (o : W)
  (cases : list (list str * str)) :
  let task_lower := strip U (lower C task_description) in
  let prompt := generator.test_cases_prompt task_description num_cases in
  startswith (lit "print ") task_lower &&
    (length (split_whitespace U task_lower) <=? 6)%nat = false ->
  generator.predefined_cases task_lower = None ->
  generate_content A prompt (model_state s) = (inr text, o) ->
  strip U text = join nl (concat (map case_lines cases)) ->
  Forall (plain_case U) cases ->
  (2 <= length cases)%nat ->
  (Z.of_nat (length cases) <= num_cases)%Z ->
  generator.generate_test_cases A U C task_description num_cases s =
  (map case_of cases,
   {| model_state := o; prompts := prompts s ++ [prompt] |}).
Proof.
  intros task_lower prompt Hprint Hpredefined Hanswer Htext Hplain Htwo Hlen.
  unfold generator.generate_test_cases. cbv zeta.
  fold task_lower. rewrite Hprint, Hpredefined.
  unfold ask. fold prompt. rewrite Hanswer, Htext.
  rewrite parse_response_cases by done. rewrite length_map.
  destruct (Nat.leb_spec 2 (length cases)); [| lia].
  f_equal. unfold slice_to. destruct (Z.leb_spec 0 num_cases); [| lia].
  apply take_ge. rewrite length_map. lia.
Qed.
End Cases.

Lemma generate_test_cases_count_witness :
  let r := generator.generate_test_cases scripted_api ascii_only ascii_case
             (lit "sort the numbers") 3 (answering []) in
  (2 <= length (fst r) <= 3)%nat /\
  (snd r = answering [] \/
   prompts (snd r) =
   [generator.test_cases_prompt (lit "sort the numbers") 3]).
Proof.
  exact (generate_test_cases_count scripted_api ascii_only ascii_case
           (lit "sort the numbers") 3 (answering []) ltac:(lia)).
Defined.

Lemma generate_test_cases_reads_format_witness :
  generator.generate_test_cases scripted_api ascii_only ascii_case
    (lit "sort the numbers") 3
    (answering [inr (lit "Input: 3" ++ nl :: lit "1" ++ nl :: lit "2" ++
                     nl :: lit "Output: 1 2 3" ++ nl :: lit "Input: 5" ++
                     nl :: lit "Output: 5" ++ [nl])]) =
  ([(lit "3" ++ nl :: lit "1" ++ nl :: lit "2", lit "1 2 3");
    (lit "5", lit "5")],
   {| model_state := [];
      prompts := [generator.test_cases_prompt (lit "sort the numbers") 3] |}).
Proof.
  refine (generate_test_cases_reads_format scripted_api ascii_only ascii_case
            (lit "sort the numbers") 3
            (answering [inr (lit "Input: 3" ++ nl :: lit "1" ++ nl ::
                             lit "2" ++ nl :: lit "Output: 1 2 3" ++ nl ::
                             lit "Input: 5" ++ nl :: lit "Output: 5" ++
                             [nl])])
            (lit "Input: 3" ++ nl :: lit "1" ++ nl :: lit "2" ++ nl ::
             lit "Output: 1 2 3" ++ nl :: lit "Input: 5" ++ nl ::
             lit "Output: 5" ++ [nl]) []
            [([lit "3"; lit "1"; lit "2"], lit "1 2 3");
             ([lit "5"], lit "5")] _ _ _ _ _ _ _).
  - reflexivity.
  - reflexivity.
  - reflexivity.
  - reflexivity.
  - repeat constructor; try done; by compute; set_solver.
  - simpl. lia.
  - simpl. lia.
Defined.
